(** * Signup form: validation, draft persistence and image storage

    A shallow embedding of the behavioural core of the application:

    - [SignupForm.tsx]: the in-memory draft ([formData]), the error mapping
      ([errors]), [handleInputChange], [validateEmail], [validateForm],
      [saveFormDataToStorage], [getStoredFormData], [clearStoredFormData],
      [handleSubmit], [resetForm];
    - the [StorageManager] class over [AsyncStorage];
    - the [ImageStorage] class over [FileSystem].

    JavaScript strings are modelled by [string]: a character is one code
    unit in the range U+0000..U+00FF.  A rejected promise and a thrown
    exception are the same thing for [await]ing code, and are modelled by
    the [Err] outcome of a state-and-error monad over the device state.
    The functions that [Promise.all] runs side by side are tasks that are
    suspended at their [await]s; a schedule gives the order in which the
    device answers their calls, and what is proved of them is proved for
    every schedule. *)

From Stdlib Require Import ZArith Ascii String List Bool Lia.
From stdpp Require Import gmap strings list pretty.

Local Open Scope Z_scope.
#[local] Set Warnings "-register-all".

(* ===================================================================== *)
(** * Part I.  Definitions                                                *)
(* ===================================================================== *)

(** ** JavaScript strings *)

Module JsString.

(** [WhiteSpace] and [LineTerminator] code units below U+0100: TAB, LF,
    VT, FF, CR, SPACE and NBSP.  This is the set removed by
    [String.prototype.trim] and matched by [\s]. *)
Definition is_space (c : ascii) : bool :=
  match c with
  | "009" | "010" | "011" | "012" | "013" | " " | "160" => true
  | _ => false
  end%char.

(** Code units that [.] does not match (no [s] flag): LF and CR. *)
Definition is_line_terminator (c : ascii) : bool :=
  match c with
  | "010" | "013" => true
  | _ => false
  end%char.

Definition is_lower (c : ascii) : bool :=
  ((97 <=? nat_of_ascii c) && (nat_of_ascii c <=? 122))%nat.

Definition is_upper (c : ascii) : bool :=
  ((65 <=? nat_of_ascii c) && (nat_of_ascii c <=? 90))%nat.

Definition is_digit (c : ascii) : bool :=
  ((48 <=? nat_of_ascii c) && (nat_of_ascii c <=? 57))%nat.

(** Truthiness of a string: only the empty string is falsy. *)
Definition truthy (s : string) : bool :=
  match s with
  | "" => false
  | String _ _ => true
  end.

(** [s.length] as a JavaScript number. *)
Definition length (s : string) : Z := Z.of_nat (String.length s).

Fixpoint trimStart (s : string) : string :=
  match s with
  | "" => ""
  | String c s' => if is_space c then trimStart s' else s
  end.

Fixpoint trimEnd (s : string) : string :=
  match s with
  | "" => ""
  | String c s' =>
      match trimEnd s' with
      | "" => if is_space c then "" else String c ""
      | t => String c t
      end
  end.

(** [s.trim()] *)
Definition trim (s : string) : string := trimEnd (trimStart s).

(** [s.split(sep)[0]] for a one-character separator: the text before
    the first occurrence of [sep], the whole string when there is none. *)
Fixpoint split_head (sep : ascii) (s : string) : string :=
  match s with
  | "" => ""
  | String c s' =>
      if Ascii.eqb c sep then "" else String c (split_head sep s')
  end.

Fixpoint chars (s : string) : list ascii :=
  match s with
  | "" => []
  | String c s' => c :: chars s'
  end.

(** Every code unit of [s] satisfies [p]; some code unit does. *)
Fixpoint every (p : ascii → bool) (s : string) : bool :=
  match s with
  | "" => true
  | String c s' => p c && every p s'
  end.

Fixpoint some (p : ascii → bool) (s : string) : bool :=
  match s with
  | "" => false
  | String c s' => p c || some p s'
  end.

End JsString.

(** ** Regular expressions

    The two regular-expression literals of [SignupForm.tsx] are embedded as
    terms of a small regular-expression syntax and run by a derivative
    matcher. *)

Module Regex.

Inductive regex : Type :=
| Never : regex
| Empty : regex
| Class : (ascii → bool) → regex
| Seq : regex → regex → regex
| Or : regex → regex → regex
| Star : regex → regex.

(** [r+] *)
Definition Plus (r : regex) : regex := Seq r (Star r).

(** A literal character. *)
Definition Chr (c : ascii) : regex := Class (Ascii.eqb c).

(** [.] without the [s] flag. *)
Definition Dot : regex := Class (fun c => negb (JsString.is_line_terminator c)).

Fixpoint nullable (r : regex) : bool :=
  match r with
  | Never => false
  | Empty => true
  | Class _ => false
  | Seq r1 r2 => nullable r1 && nullable r2
  | Or r1 r2 => nullable r1 || nullable r2
  | Star _ => true
  end.

Fixpoint deriv (c : ascii) (r : regex) : regex :=
  match r with
  | Never => Never
  | Empty => Never
  | Class p => if p c then Empty else Never
  | Seq r1 r2 =>
      if nullable r1
      then Or (Seq (deriv c r1) r2) (deriv c r2)
      else Seq (deriv c r1) r2
  | Or r1 r2 => Or (deriv c r1) (deriv c r2)
  | Star r1 => Seq (deriv c r1) (Star r1)
  end.

(** The whole of [s] is matched by [r]: the meaning of [/^r$/.test(s)]. *)
Fixpoint accepts (r : regex) (s : string) : bool :=
  match s with
  | "" => nullable r
  | String c s' => accepts (deriv c r) s'
  end.

(** Some prefix of [s] is matched by [r]: the meaning of the lookahead
    [(?=r)] at the position where [s] starts. *)
Fixpoint accepts_prefix (r : regex) (s : string) : bool :=
  nullable r ||
  match s with
  | "" => false
  | String c s' => accepts_prefix (deriv c r) s'
  end.

(** An unanchored [test]: the pattern [p] is tried at every start index
    of the subject, the end of the string included. *)
Fixpoint search (p : string → bool) (s : string) : bool :=
  p s ||
  match s with
  | "" => false
  | String _ s' => search p s'
  end.

(** The language of a regular expression, for reasoning. *)
Inductive matches : regex → string → Prop :=
| m_empty : matches Empty ""
| m_class p c : p c = true → matches (Class p) (String c "")
| m_seq r1 r2 s1 s2 :
    matches r1 s1 → matches r2 s2 → matches (Seq r1 r2) (s1 +:+ s2)
| m_or_l r1 r2 s : matches r1 s → matches (Or r1 r2) s
| m_or_r r1 r2 s : matches r2 s → matches (Or r1 r2) s
| m_star_nil r : matches (Star r) ""
| m_star_cons r c s1 s2 :
    matches r (String c s1) → matches (Star r) s2 →
    matches (Star r) (String c s1 +:+ s2).

End Regex.

(** ** JavaScript values, exceptions and dates *)

(** The values that travel through [JSON] and [AsyncStorage].  Numbers
    are integers: no other number is produced by this program. *)
Inductive value : Type :=
| VUndefined : value
| VNull : value
| VBool : bool → value
| VNumber : Z → value
| VString : string → value
| VArray : list value → value
| VObject : list (string * value) → value.

(** What can be thrown: a rejection coming from a native module
    ([AsyncStorage], [FileSystem]) or one of the built-in error classes. *)
Inductive Error : Type :=
| NativeError : Error
| SyntaxError : Error
| TypeError : Error
| RangeError : Error.

Inductive Result (A : Type) : Type :=
| Ok : A → Result A
| Err : Error → Result A.

Arguments Ok {A} _.
Arguments Err {A} _.

Definition is_err {A} (r : Result A) : bool :=
  match r with Ok _ => false | Err _ => true end.

(** A [Date] object is observed by this program through [getFullYear()]
    and [toISOString()] only.  A valid date carries these two observations;
    [InvalidDate] is the date whose time value is [NaN]. *)
Inductive Date : Type :=
| ValidDate (fullYear : Z) (iso : string) : Date
| InvalidDate : Date.

(** A number that may be [NaN] ([None]). *)
Definition number : Type := option Z.

Definition getFullYear (d : Date) : number :=
  match d with
  | ValidDate y _ => Some y
  | InvalidDate => None
  end.

(** [toISOString] throws a [RangeError] on an invalid date. *)
Definition toISOString (d : Date) : Result string :=
  match d with
  | ValidDate _ s => Ok s
  | InvalidDate => Err RangeError
  end.

(** [a - b] and [a < b] on numbers: [NaN] is contagious and compares false. *)
Definition number_sub (a b : number) : number :=
  match a, b with
  | Some x, Some y => Some (x - y)
  | _, _ => None
  end.

Definition number_lt (a b : number) : bool :=
  match a, b with
  | Some x, Some y => x <? y
  | _, _ => false
  end.

(** Truthiness of a value, as in [if (storedData)]. *)
Definition value_truthy (v : value) : bool :=
  match v with
  | VUndefined | VNull => false
  | VBool b => b
  | VNumber n => negb (n =? 0)
  | VString s => JsString.truthy s
  | VArray _ | VObject _ => true
  end.

(** The runtime services the program takes from its platform:
    [JSON.parse] ([None] when it throws a [SyntaxError]),
    [JSON.stringify(v, null, indent)] on objects and arrays, and
    [FileSystem.documentDirectory]. *)
Class Platform : Type := {
  JSON_parse : string → option value;
  JSON_stringify : value → nat → string;
  documentDirectory : string;
}.

(** ** Data model *)

(** [interface FormData] of [SignupForm.tsx]. *)
Record FormData : Type := mkFormData {
  fullName : string;
  email : string;
  password : string;
  confirmPassword : string;
  bio : string;
  country : string;
  gender : string;
  acceptTerms : bool;
  hobbies : list string;
  dateOfBirth : option Date;
}.

(** The names under which [FormInput] calls [onChange(name, value)].  The
    handler is declared on [(name: string, value: any)]; every call site
    passes one of these ten names with a value of the type of that field. *)
Inductive Field : Type :=
| F_fullName | F_email | F_password | F_confirmPassword | F_bio
| F_country | F_gender | F_acceptTerms | F_hobbies | F_dateOfBirth.

Definition field_name (f : Field) : string :=
  match f with
  | F_fullName => "fullName"
  | F_email => "email"
  | F_password => "password"
  | F_confirmPassword => "confirmPassword"
  | F_bio => "bio"
  | F_country => "country"
  | F_gender => "gender"
  | F_acceptTerms => "acceptTerms"
  | F_hobbies => "hobbies"
  | F_dateOfBirth => "dateOfBirth"
  end.

(** The type of the value each field holds. *)
Definition field_type (f : Field) : Type :=
  match f with
  | F_acceptTerms => bool
  | F_hobbies => list string
  | F_dateOfBirth => option Date
  | _ => string
  end.

Definition get_field (f : Field) (d : FormData) : field_type f :=
  match f with
  | F_fullName => fullName d
  | F_email => email d
  | F_password => password d
  | F_confirmPassword => confirmPassword d
  | F_bio => bio d
  | F_country => country d
  | F_gender => gender d
  | F_acceptTerms => acceptTerms d
  | F_hobbies => hobbies d
  | F_dateOfBirth => dateOfBirth d
  end.

(** [{ ...prev, [name]: value }] *)
Definition set_field (f : Field) : field_type f → FormData → FormData :=
  match f with
  | F_fullName => fun v d =>
      mkFormData v (email d) (password d) (confirmPassword d) (bio d)
        (country d) (gender d) (acceptTerms d) (hobbies d) (dateOfBirth d)
  | F_email => fun v d =>
      mkFormData (fullName d) v (password d) (confirmPassword d) (bio d)
        (country d) (gender d) (acceptTerms d) (hobbies d) (dateOfBirth d)
  | F_password => fun v d =>
      mkFormData (fullName d) (email d) v (confirmPassword d) (bio d)
        (country d) (gender d) (acceptTerms d) (hobbies d) (dateOfBirth d)
  | F_confirmPassword => fun v d =>
      mkFormData (fullName d) (email d) (password d) v (bio d)
        (country d) (gender d) (acceptTerms d) (hobbies d) (dateOfBirth d)
  | F_bio => fun v d =>
      mkFormData (fullName d) (email d) (password d) (confirmPassword d) v
        (country d) (gender d) (acceptTerms d) (hobbies d) (dateOfBirth d)
  | F_country => fun v d =>
      mkFormData (fullName d) (email d) (password d) (confirmPassword d)
        (bio d) v (gender d) (acceptTerms d) (hobbies d) (dateOfBirth d)
  | F_gender => fun v d =>
      mkFormData (fullName d) (email d) (password d) (confirmPassword d)
        (bio d) (country d) v (acceptTerms d) (hobbies d) (dateOfBirth d)
  | F_acceptTerms => fun v d =>
      mkFormData (fullName d) (email d) (password d) (confirmPassword d)
        (bio d) (country d) (gender d) v (hobbies d) (dateOfBirth d)
  | F_hobbies => fun v d =>
      mkFormData (fullName d) (email d) (password d) (confirmPassword d)
        (bio d) (country d) (gender d) (acceptTerms d) v (dateOfBirth d)
  | F_dateOfBirth => fun v d =>
      mkFormData (fullName d) (email d) (password d) (confirmPassword d)
        (bio d) (country d) (gender d) (acceptTerms d) (hobbies d) v
  end.

(** The initial value of the [formData] state, also set by [resetForm]. *)
Definition emptyFormData : FormData :=
  mkFormData "" "" "" "" "" "" "" false [] None.

(** The draft as an object literal, in the property order of the initial
    state, with [dateOfBirth] replaced by [dob]: [{ ...data, dateOfBirth: dob }]. *)
Definition formData_props (data : FormData) (dob : value) : list (string * value) :=
  [ ("fullName", VString (fullName data));
    ("email", VString (email data));
    ("password", VString (password data));
    ("confirmPassword", VString (confirmPassword data));
    ("bio", VString (bio data));
    ("country", VString (country data));
    ("gender", VString (gender data));
    ("acceptTerms", VBool (acceptTerms data));
    ("hobbies", VArray (VString <$> hobbies data));
    ("dateOfBirth", dob) ].

(** ['success' | 'error' | 'info'] *)
Inductive ToastType : Type := toast_success | toast_error | toast_info.

Record Toast : Type := mkToast {
  visible : bool;
  message : string;
  type : ToastType;
}.

Inductive LogEntry : Type :=
| Log (text : string) : LogEntry
| LogData (text data : string) : LogEntry
| LogError (text : string) (e : Error) : LogEntry.

Record Alert : Type := mkAlert {
  title : string;
  body : string;
  buttons : list string;
}.

(** ** The device and the component state

    One record holds what the handlers read and write: the React state of
    the [SignupForm] component, the key-value store behind [AsyncStorage],
    the file tree behind [FileSystem], the console and the alerts shown.

    [faults] is the fault plan of the native modules: every call of an
    [AsyncStorage] or [FileSystem] method consumes the head of the plan,
    and rejects without touching the device when the head is [true].  An
    exhausted plan means that no further call is rejected. *)
Record World : Type := mkWorld {
  formData : FormData;
  errors : gmap string string;
  toast : Toast;
  items : gmap string string;
  files : gmap string string;
  directories : gset string;
  faults : list bool;
  console : list LogEntry;
  alerts : list Alert;
}.

Definition set_formData (f : FormData → FormData) (w : World) : World :=
  mkWorld (f (formData w)) (errors w) (toast w) (items w) (files w)
    (directories w) (faults w) (console w) (alerts w).

Definition set_errors (f : gmap string string → gmap string string)
    (w : World) : World :=
  mkWorld (formData w) (f (errors w)) (toast w) (items w) (files w)
    (directories w) (faults w) (console w) (alerts w).

Definition set_toast (f : Toast → Toast) (w : World) : World :=
  mkWorld (formData w) (errors w) (f (toast w)) (items w) (files w)
    (directories w) (faults w) (console w) (alerts w).

Definition set_items (f : gmap string string → gmap string string)
    (w : World) : World :=
  mkWorld (formData w) (errors w) (toast w) (f (items w)) (files w)
    (directories w) (faults w) (console w) (alerts w).

Definition set_files (f : gmap string string → gmap string string)
    (w : World) : World :=
  mkWorld (formData w) (errors w) (toast w) (items w) (f (files w))
    (directories w) (faults w) (console w) (alerts w).

Definition set_directories (f : gset string → gset string)
    (w : World) : World :=
  mkWorld (formData w) (errors w) (toast w) (items w) (files w)
    (f (directories w)) (faults w) (console w) (alerts w).

Definition set_faults (f : list bool → list bool) (w : World) : World :=
  mkWorld (formData w) (errors w) (toast w) (items w) (files w)
    (directories w) (f (faults w)) (console w) (alerts w).

Definition set_console (f : list LogEntry → list LogEntry)
    (w : World) : World :=
  mkWorld (formData w) (errors w) (toast w) (items w) (files w)
    (directories w) (faults w) (f (console w)) (alerts w).

Definition set_alerts (f : list Alert → list Alert) (w : World) : World :=
  mkWorld (formData w) (errors w) (toast w) (items w) (files w)
    (directories w) (faults w) (console w) (f (alerts w)).

(** ** The monad of handlers

    A computation runs on a device, ends with a value or with a thrown
    error, and leaves a device.  What a computation did before it threw
    stays done. *)
Definition M (A : Type) : Type := World → Result A * World.

#[global] Instance M_ret : MRet M := fun A a w => (Ok a, w).

#[global] Instance M_bind : MBind M := fun A B k m w =>
  match m w with
  | (Ok a, w') => k a w'
  | (Err e, w') => (Err e, w')
  end.

#[global] Instance M_throw : MThrow Error M := fun A e w => (Err e, w).

(** [try { body } catch (error) { handler }] *)
Definition try_catch {A} (body : M A) (handler : Error → M A) : M A :=
  fun w =>
    match body w with
    | (Ok a, w') => (Ok a, w')
    | (Err e, w') => handler e w'
    end.

Definition modify (f : World → World) : M unit := fun w => (Ok tt, f w).

Definition gets {A} (f : World → A) : M A := fun w => (Ok (f w), w).

Definition lift {A} (r : Result A) : M A := fun w => (r, w).

(** The aggregate of settled promises: the list of all values, or the
    first error in list order. *)
Fixpoint collect {A} (settled : list (Result A)) : Result (list A) :=
  match settled with
  | [] => Ok []
  | Ok a :: rest =>
      match collect rest with
      | Ok l => Ok (a :: l)
      | Err e => Err e
      end
  | Err e :: _ => Err e
  end.

(** ** Async functions in flight

    A call of an [async] function beside which other calls run.  [Await]
    is an [await] on a call into a native module: the function is suspended
    there until the device has answered.  [Sync] is a statement that runs
    without suspension.  What follows gets the answer, or the error. *)
Inductive Task (A : Type) : Type :=
| Return (a : A)
| Throw (e : Error)
| Sync {X : Type} (statement : M X) (next : Result X → Task A)
| Await {X : Type} (call : M X) (next : Result X → Task A).

Arguments Return {A} a.
Arguments Throw {A} e.
Arguments Sync {A X} statement next.
Arguments Await {A X} call next.

Module Async.

Definition settled {A} (r : Result A) : Task A :=
  match r with
  | Ok a => Return a
  | Err e => Throw e
  end.

(** [await call], and a statement that does not suspend. *)
Definition await {X} (call : M X) : Task X := Await call settled.
Definition sync {X} (statement : M X) : Task X := Sync statement settled.

Fixpoint bind {A B} (k : A → Task B) (task : Task A) : Task B :=
  match task with
  | Return a => k a
  | Throw e => Throw e
  | Sync statement next => Sync statement (fun r => bind k (next r))
  | Await call next => Await call (fun r => bind k (next r))
  end.

(** [try { body } catch (error) { handler }] *)
Fixpoint try_catch {A} (body : Task A) (handler : Error → Task A) : Task A :=
  match body with
  | Return a => Return a
  | Throw e => handler e
  | Sync statement next => Sync statement (fun r => try_catch (next r) handler)
  | Await call next => Await call (fun r => try_catch (next r) handler)
  end.

(** The function run alone: every call is answered as soon as it is made. *)
Fixpoint run {A} (task : Task A) (w : World) : Result A * World :=
  match task with
  | Return a => (Ok a, w)
  | Throw e => (Err e, w)
  | Sync statement next => let (r, w') := statement w in run (next r) w'
  | Await call next => let (r, w') := call w in run (next r) w'
  end.

(** The function runs on until it is suspended or settled. *)
Fixpoint start {A} (task : Task A) (w : World) : Task A * World :=
  match task with
  | Sync statement next => let (r, w') := statement w in start (next r) w'
  | _ => (task, w)
  end.

(** The device answers the pending call of a suspended function, which
    runs on until it is suspended again or settled. *)
Definition resume {A} (task : Task A) (w : World) : Task A * World :=
  match task with
  | Await call next => let (r, w') := call w in start (next r) w'
  | _ => (task, w)
  end.

End Async.

#[global] Instance Task_ret : MRet Task := fun A a => Return a.

#[global] Instance Task_bind : MBind Task := fun A B k task => Async.bind k task.

#[global] Instance Task_throw : MThrow Error Task := fun A e => Throw e.

(** ** [Promise.all]

    [await Promise.all(tasks)] in an [async] caller.  The functions are all
    called first, in list order, each running up to its first [await].
    From then on the device answers the pending calls one at a time, and
    the function that was waiting runs on up to its next [await].
    [schedule] is the order of the answers: its entry [i] answers the
    pending call of task [i], and does nothing when task [i] has settled.
    When [schedule] ends, the tasks that are left are answered one task
    after the other.

    The promise rejects with the error of the task that rejects first, and
    is fulfilled with the values, in the order of the tasks, when all are
    fulfilled.  [reaction] is what the caller does from its [await] to its
    end, none of which suspends; it runs as soon as the promise has
    settled.  No task is cancelled when another one rejects: the device
    left is the one on which every task has settled. *)
Section PromiseAll.
Context {A B : Type} (reaction : Result (list A) → M B).

(** The caller reacts to the first rejection. *)
Definition react (answer : option (Result B)) (task : Task A) (w : World)
    : option (Result B) * World :=
  match answer, task with
  | None, Throw e => let (b, w') := reaction (Err e) w in (Some b, w')
  | _, _ => (answer, w)
  end.

Fixpoint start_all (tasks : list (Task A)) (w : World)
    : list (Task A) * World :=
  match tasks with
  | [] => ([], w)
  | task :: rest =>
      let (task', w') := Async.start task w in
      let (rest', w'') := start_all rest w' in
      (task' :: rest', w'')
  end.

Fixpoint react_all (pool : list (Task A)) (answer : option (Result B))
    (w : World) : option (Result B) * World :=
  match pool with
  | [] => (answer, w)
  | task :: rest =>
      let (answer', w') := react answer task w in
      react_all rest answer' w'
  end.

Fixpoint serve (schedule : list nat) (pool : list (Task A))
    (answer : option (Result B)) (w : World)
    : list (Task A) * option (Result B) * World :=
  match schedule with
  | [] => (pool, answer, w)
  | i :: schedule' =>
      match pool !! i with
      | Some task =>
          let (task', w1) := Async.resume task w in
          let (answer', w2) := react answer task' w1 in
          serve schedule' (<[i := task']> pool) answer' w2
      | None => serve schedule' pool answer w
      end
  end.

Fixpoint finish (pool : list (Task A)) (answer : option (Result B))
    (w : World) : list (Result A) * option (Result B) * World :=
  match pool with
  | [] => ([], answer, w)
  | task :: rest =>
      let (r, w1) := Async.run task w in
      let (answer', w2) := react answer (Async.settled r) w1 in
      let '(rs, answer'', w3) := finish rest answer' w2 in
      (r :: rs, answer'', w3)
  end.

End PromiseAll.

(** How each task settled, with what the caller got and the device left. *)
Definition all_settled {A B} (schedule : list nat) (tasks : list (Task A))
    (reaction : M (list A) → M B) (w : World)
    : list (Result A) * (Result B * World) :=
  let reaction' := fun v => reaction (lift v) in
  let (pool, w1) := start_all tasks w in
  let (answer1, w2) := react_all reaction' pool None w1 in
  let '(pool', answer2, w3) := serve reaction' schedule pool answer1 w2 in
  let '(results, answer3, w4) := finish reaction' pool' answer2 w3 in
  (results,
   match answer3 with
   | Some b => (b, w4)
   | None => reaction' (collect results) w4
   end).

Definition Promise_all {A B} (schedule : list nat) (tasks : list (Task A))
    (reaction : M (list A) → M B) : M B :=
  fun w => snd (all_settled schedule tasks reaction w).

Definition task_results {A B} (schedule : list nat) (tasks : list (Task A))
    (reaction : M (list A) → M B) (w : World) : list (Result A) :=
  fst (all_settled schedule tasks reaction w).

(** The schedule on which the calls are answered in the order in which
    they were made: each of [n] tasks in turn, [rounds] times. *)
Definition in_turn (n rounds : nat) : list nat :=
  concat (replicate rounds (seq 0 n)).

(** ** Tasks under interference, for reasoning

    [safe R post task w]: from the device [w] on, whatever happens to the
    device between two answers, as long as it stays within [R], every
    step of [task] stays within [R] as well, and [post] holds of the way
    [task] settles and of the device on which it does. *)
Fixpoint safe {A} (R : World → World → Prop)
    (post : Result A → World → Prop) (task : Task A) (w : World) : Prop :=
  match task with
  | Return a => post (Ok a) w
  | Throw e => post (Err e) w
  | Sync statement next =>
      ∀ w', R w w' →
        R w' (statement w').2 ∧ safe R post (next (statement w').1) (statement w').2
  | Await call next =>
      ∀ w', R w w' →
        R w' (call w').2 ∧ safe R post (next (call w').1) (call w').2
  end.

(** Two ways in which a device may change under the tasks of a batch:
    files are written and none is removed; or files among [uris] are
    removed, the others staying as they are, while a fault plan that is
    used up stays so.  The stored items stay as they are in both. *)
Definition files_added (w w' : World) : Prop :=
  items w' = items w
  ∧ ∀ path, is_Some (files w !! path) → is_Some (files w' !! path).

Definition files_removed (uris : list string) (w w' : World) : Prop :=
  items w' = items w
  ∧ (∀ path, files w' !! path = None ∨ files w' !! path = files w !! path)
  ∧ (∀ path, path ∉ uris → files w' !! path = files w !! path)
  ∧ (faults w = [] → faults w' = []).

(** The outcome and the final device of a run. *)
Definition outcome {A} (m : M A) (w : World) : Result A := fst (m w).
Definition after {A} (m : M A) (w : World) : World := snd (m w).

Definition console_log (text : string) : M unit :=
  modify (set_console (fun c => c ++ [Log text])).

Definition console_log_data (text data : string) : M unit :=
  modify (set_console (fun c => c ++ [LogData text data])).

Definition console_error (text : string) (e : Error) : M unit :=
  modify (set_console (fun c => c ++ [LogError text e])).

(** A call into a native module: it follows the fault plan. *)
Definition native {A} (op : M A) : M A := fun w =>
  match faults w with
  | true :: _ => (Err NativeError, set_faults (drop 1) w)
  | false :: _ => op (set_faults (drop 1) w)
  | [] => op w
  end.

(** The next [n] calls into native modules are accepted. *)
Definition accepted (n : nat) (w : World) : Prop := true ∉ take n (faults w).

(** The next call into a native module is rejected. *)
Definition rejected (w : World) : Prop := head (faults w) = Some true.

(** The device once a call into a native module has used up its entry of
    the fault plan. *)
Definition advance (w : World) : World := set_faults (drop 1) w.

(** ** [AsyncStorage] *)
Module AsyncStorage.

Definition getItem (key : string) : M (option string) :=
  native (gets (fun w => items w !! key)).

Definition setItem (key data : string) : M unit :=
  native (modify (set_items (insert key data))).

Definition removeItem (key : string) : M unit :=
  native (modify (set_items (delete key))).

Definition multiRemove (keys : list string) : M unit :=
  native (modify (set_items (fun m => foldr delete m keys))).

End AsyncStorage.

(** ** [FileSystem] (expo-file-system) *)
Module FileSystem.

(** [getInfoAsync(path)]: the [exists] attribute of the answer. *)
Definition getInfoAsync (path : string) : M bool :=
  native (gets (fun w =>
    bool_decide (path ∈ directories w) || bool_decide (is_Some (files w !! path)))).

(** [makeDirectoryAsync(path, { intermediates: true })] *)
Definition makeDirectoryAsync (path : string) : M unit :=
  native (modify (set_directories (fun d => {[path]} ∪ d))).

(** The directory of a path: the path up to its last slash, the slash
    included. *)
Fixpoint parent (path : string) : string :=
  match path with
  | "" => ""
  | String c rest =>
      if JsString.some (fun c' => Ascii.eqb c' "/") rest
      then String c (parent rest)
      else if Ascii.eqb c "/" then "/" else ""
  end.

(** [copyAsync({ from, to })]: rejected when there is no file at [from],
    when the directory of [to] does not exist, and when [to] is a
    directory. *)
Definition copyAsync (from to : string) : M unit :=
  native (fun w =>
    match files w !! from with
    | Some content =>
        if bool_decide (parent to ∈ directories w)
           && negb (bool_decide (to ∈ directories w))
        then (Ok tt, set_files (insert to content) w)
        else (Err NativeError, w)
    | None => (Err NativeError, w)
    end).

(** What follows [dir] in [path], when [path] starts with [dir]. *)
Fixpoint relative (dir path : string) : option string :=
  match dir, path with
  | "", _ => Some path
  | String a dir', String b path' =>
      if Ascii.eqb a b then relative dir' path' else None
  | String _ _, "" => None
  end.

(** The name under which a file at [path] is an entry of the directory
    [dir] (written with its trailing slash): what follows [dir], when that
    is not empty and has no slash.  Directories have files as their
    entries: directories below a directory are not part of the model. *)
Definition entry_name (dir path : string) : option string :=
  match relative dir path with
  | Some name =>
      if JsString.truthy name
         && JsString.every (fun c => negb (Ascii.eqb c "/")) name
      then Some name else None
  | None => None
  end.

(** [readDirectoryAsync(dir)]: the names of the entries of [dir]; rejected
    when there is no such directory. *)
Definition readDirectoryAsync (dir : string) : M (list string) :=
  native (fun w =>
    if bool_decide (dir ∈ directories w)
    then (Ok (omap (entry_name dir) (map_to_list (files w)).*1), w)
    else (Err NativeError, w)).

(** [deleteAsync(path)]: removes the file at [path]; rejected when there
    is no file at [path]. *)
Definition deleteAsync (path : string) : M unit :=
  native (fun w =>
    match files w !! path with
    | Some _ => (Ok tt, set_files (delete path) w)
    | None => (Err NativeError, w)
    end).

(** [getInfoAsync(path)]: the [exists] attribute together with the [size]
    attribute, which the answer has for a file and is its length. *)
Definition getInfoAsync_size (path : string) : M (bool * option Z) :=
  native (gets (fun w =>
    (bool_decide (path ∈ directories w) || bool_decide (is_Some (files w !! path)),
     JsString.length <$> files w !! path))).

End FileSystem.

(** [JSON.parse(text)] as a computation that may throw. *)
Definition parse `{Platform} (text : string) : M value :=
  match JSON_parse text with
  | Some v => mret v
  | None => mthrow SyntaxError
  end.

(** [[...v]]: the elements of an iterable value.  Arrays and strings are
    iterable; spreading anything else throws a [TypeError]. *)
Definition spread (v : value) : M (list value) :=
  match v with
  | VArray l => mret l
  | VString s => mret ((fun c => VString (String c "")) <$> JsString.chars s)
  | _ => mthrow TypeError
  end.

(** ** [class StorageManager] *)
Module StorageManager.
Section WithPlatform.
Context `{Platform}.

Definition FORM_DATA_KEY : string := "signupFormData".
Definition SUBMITTED_FORMS_KEY : string := "submittedForms".

Definition saveFormData (data : value) : M unit :=
  try_catch
    (let jsonData := JSON_stringify data 0 in
     AsyncStorage.setItem FORM_DATA_KEY jsonData ;;
     console_log "Form data saved to storage")
    (fun error =>
       console_error "Error saving form data:" error ;;
       mthrow error).

Definition getFormData : M value :=
  try_catch
    (jsonData ← AsyncStorage.getItem FORM_DATA_KEY ;
     match jsonData with
     | Some text => if JsString.truthy text then parse text else mret VNull
     | None => mret VNull
     end)
    (fun error =>
       console_error "Error retrieving form data:" error ;;
       mret VNull).

Definition getSubmittedForms : M value :=
  try_catch
    (jsonData ← AsyncStorage.getItem SUBMITTED_FORMS_KEY ;
     match jsonData with
     | Some text => if JsString.truthy text then parse text else mret (VArray [])
     | None => mret (VArray [])
     end)
    (fun error =>
       console_error "Error retrieving submitted forms:" error ;;
       mret (VArray [])).

Definition clearFormData : M unit :=
  try_catch
    (AsyncStorage.removeItem FORM_DATA_KEY ;;
     console_log "Form data cleared")
    (fun error =>
       console_error "Error clearing form data:" error ;;
       mthrow error).

Definition saveCompletedRegistration (data : value) : M unit :=
  try_catch
    (existingForms ← getSubmittedForms ;
     existing ← spread existingForms ;
     let updatedForms := VArray (existing ++ [data]) in
     AsyncStorage.setItem SUBMITTED_FORMS_KEY (JSON_stringify updatedForms 0) ;;
     clearFormData ;;
     console_log "Registration saved successfully")
    (fun error =>
       console_error "Error saving registration:" error ;;
       mthrow error).

Definition clearAllData : M unit :=
  try_catch
    (AsyncStorage.multiRemove [FORM_DATA_KEY; SUBMITTED_FORMS_KEY] ;;
     console_log "All data cleared")
    (fun error =>
       console_error "Error clearing all data:" error ;;
       mthrow error).

End WithPlatform.
End StorageManager.

(** ** [class ImageStorage] *)
Module ImageStorage.

(** [interface CapturedImage] *)
Record CapturedImage : Type := mkCapturedImage {
  name : string;
  uri : string;
  type : string;
  size : Z;
  width : option Z;
  height : option Z;
  capturedAt : string;
}.

(** [{ ...image, uri: savedUri }] *)
Definition with_uri (image : CapturedImage) (savedUri : string) : CapturedImage :=
  mkCapturedImage (name image) savedUri (type image) (size image)
    (width image) (height image) (capturedAt image).

Section WithPlatform.
Context `{Platform}.

Definition IMAGE_DIRECTORY : string := documentDirectory +:+ "captured_images/".

Definition ensureDirectoryExists : M unit :=
  try_catch
    (dirInfo_exists ← FileSystem.getInfoAsync IMAGE_DIRECTORY ;
     if negb dirInfo_exists
     then FileSystem.makeDirectoryAsync IMAGE_DIRECTORY
     else mret tt)
    (fun error =>
       console_error "Error creating image directory:" error).

Definition saveImage (imageUri imageName : string) : M string :=
  try_catch
    (ensureDirectoryExists ;;
     let newPath := IMAGE_DIRECTORY +:+ imageName in
     FileSystem.copyAsync imageUri newPath ;;
     mret newPath)
    (fun error =>
       console_error "Error saving image:" error ;;
       mthrow error).

(** The record [saveImages] gives back for an image: the image with
    its permanent path. *)
Definition saved (image : CapturedImage) : CapturedImage :=
  with_uri image (IMAGE_DIRECTORY +:+ name image).

(** [ensureDirectoryExists] and [saveImage] as [saveImages] calls them,
    side by side for several images: the same functions with their
    [await]s as the points where they are suspended. *)
Definition ensureDirectoryExists_task : Task unit :=
  Async.try_catch
    (dirInfo_exists ← Async.await (FileSystem.getInfoAsync IMAGE_DIRECTORY) ;
     if negb dirInfo_exists
     then Async.await (FileSystem.makeDirectoryAsync IMAGE_DIRECTORY)
     else mret tt)
    (fun error =>
       Async.sync (console_error "Error creating image directory:" error)).

Definition saveImage_task (imageUri imageName : string) : Task string :=
  Async.try_catch
    (ensureDirectoryExists_task ;;
     let newPath := IMAGE_DIRECTORY +:+ imageName in
     Async.await (FileSystem.copyAsync imageUri newPath) ;;
     mret newPath)
    (fun error =>
       Async.sync (console_error "Error saving image:" error) ;;
       mthrow error).

(** The [async (image) => ...] callback of [saveImages]. *)
Definition saveImages_task (image : CapturedImage) : Task CapturedImage :=
  savedUri ← saveImage_task (uri image) (name image) ;
  mret (with_uri image savedUri).

(** [saveImages_task] from its last [await] on: the copy, and what
    follows it. *)
Definition saveImages_copying (image : CapturedImage) : Task CapturedImage :=
  savedUri ← Async.try_catch
                (let newPath := IMAGE_DIRECTORY +:+ name image in
                 Async.await (FileSystem.copyAsync (uri image) newPath) ;;
                 mret newPath)
                (fun error =>
                   Async.sync (console_error "Error saving image:" error) ;;
                   mthrow error) ;
  mret (with_uri image savedUri).

(** [saveImages] from its [await] on. *)
Definition saveImages_resumed (awaited : M (list CapturedImage))
    : M (list CapturedImage) :=
  try_catch
    (savedImages ← awaited ;
     mret savedImages)
    (fun error =>
       console_error "Error saving images:" error ;;
       mthrow error).

(** [schedule] is the order in which the device answers the calls of the
    tasks. *)
Definition saveImages (schedule : list nat) (images : list CapturedImage)
    : M (list CapturedImage) :=
  Promise_all schedule (saveImages_task <$> images) saveImages_resumed.

Definition deleteImage (imageUri : string) : M unit :=
  try_catch
    (fileInfo_exists ← FileSystem.getInfoAsync imageUri ;
     if fileInfo_exists : bool
     then FileSystem.deleteAsync imageUri
     else mret tt)
    (fun error =>
       console_error "Error deleting image:" error).

Definition getAllSavedImages : M (list string) :=
  try_catch
    (ensureDirectoryExists ;;
     files ← FileSystem.readDirectoryAsync IMAGE_DIRECTORY ;
     mret ((fun file => IMAGE_DIRECTORY +:+ file) <$> files))
    (fun error =>
       console_error "Error getting saved images:" error ;;
       mret []).

(** [deleteImage] as [clearAllImages] calls it, side by side for several
    images. *)
Definition deleteImage_task (imageUri : string) : Task unit :=
  Async.try_catch
    (fileInfo_exists ← Async.await (FileSystem.getInfoAsync imageUri) ;
     if fileInfo_exists : bool
     then Async.await (FileSystem.deleteAsync imageUri)
     else mret tt)
    (fun error =>
       Async.sync (console_error "Error deleting image:" error)).

(** The [catch] clause guards both [await]s: the second one resumes inside
    the same [try] block. *)
Definition clearAllImages (schedule : list nat) : M unit :=
  let handler := fun error => console_error "Error clearing all images:" error in
  try_catch
    (images ← getAllSavedImages ;
     Promise_all schedule (deleteImage_task <$> images) (fun awaited =>
       try_catch
         (awaited ;;
          mret tt)
         handler))
    handler.

(** The [for (const imageUri of images)] loop of [getStorageSize], entered
    with the running [totalSize]. *)
Fixpoint getStorageSize_loop (images : list string) (totalSize : Z) : M Z :=
  match images with
  | [] => mret totalSize
  | imageUri :: rest =>
      fileInfo ← FileSystem.getInfoAsync_size imageUri ;
      match fileInfo with
      | (true, Some size) =>
          (* totalSize += fileInfo.size || 0 *)
          getStorageSize_loop rest (totalSize + (if size =? 0 then 0 else size))
      | _ => getStorageSize_loop rest totalSize
      end
  end.

Definition getStorageSize : M Z :=
  try_catch
    (images ← getAllSavedImages ;
     getStorageSize_loop images 0)
    (fun error =>
       console_error "Error calculating storage size:" error ;;
       mret 0).

End WithPlatform.
End ImageStorage.

(** ** [SignupForm] *)

(** The instant at which [new Date()] is evaluated: the local calendar
    year and the ISO-8601 rendering of that instant. *)
Record Instant : Type := mkInstant {
  instant_year : Z;
  instant_iso : string;
}.

Definition new_Date (t : Instant) : Date :=
  ValidDate (instant_year t) (instant_iso t).

Module SignupForm.
Section WithPlatform.
Context `{Platform}.

(** [errors[name]] read as a condition. *)
Definition has_error (errs : gmap string string) (key : string) : bool :=
  match errs !! key with
  | Some text => JsString.truthy text
  | None => false
  end.

(** The handler reads [errors] as of the render that installed it, and
    the two state updates are applied to the state of that render. *)
Definition handleInputChange (name : Field) (value : field_type name) : M unit :=
  errs ← gets errors ;
  modify (set_formData (set_field name value)) ;;
  (* Clear error when user starts typing *)
  if has_error errs (field_name name)
  then modify (set_errors (insert (field_name name) ""))
  else mret tt.

(** [[^\s@]] *)
Definition notSpaceAt (c : ascii) : bool :=
  negb (JsString.is_space c || Ascii.eqb c "@").

(** [/^[^\s@]+@[^\s@]+\.[^\s@]+$/] *)
Definition emailRegex : Regex.regex :=
  Regex.Seq (Regex.Plus (Regex.Class notSpaceAt))
    (Regex.Seq (Regex.Chr "@")
       (Regex.Seq (Regex.Plus (Regex.Class notSpaceAt))
          (Regex.Seq (Regex.Chr ".")
             (Regex.Plus (Regex.Class notSpaceAt))))).

Definition validateEmail (email : string) : bool :=
  Regex.accepts emailRegex email.

(** [/(?=.*[a-z])(?=.*[A-Z])(?=.*\d)/.test(s)]: three lookaheads at one
    start index, the index being free. *)
Definition passwordRegex_test (s : string) : bool :=
  Regex.search
    (fun rest =>
       Regex.accepts_prefix
         (Regex.Seq (Regex.Star Regex.Dot) (Regex.Class JsString.is_lower)) rest
       && Regex.accepts_prefix
            (Regex.Seq (Regex.Star Regex.Dot) (Regex.Class JsString.is_upper)) rest
       && Regex.accepts_prefix
            (Regex.Seq (Regex.Star Regex.Dot) (Regex.Class JsString.is_digit)) rest)
    s.

(** The value of [newErrors] when [validateForm] reaches [setErrors]:
    [formData] is the draft, [now] the instant of [new Date()]. *)
Definition newErrors (formData : FormData) (now : Instant) : gmap string string :=
  let newErrors : gmap string string := ∅ in
  (* Full Name validation *)
  let newErrors :=
    if negb (JsString.truthy (JsString.trim (fullName formData)))
    then <["fullName" := "Full name is required"]> newErrors
    else if JsString.length (JsString.trim (fullName formData)) <? 2
    then <["fullName" := "Full name must be at least 2 characters"]> newErrors
    else newErrors in
  (* Email validation *)
  let newErrors :=
    if negb (JsString.truthy (JsString.trim (email formData)))
    then <["email" := "Email is required"]> newErrors
    else if negb (validateEmail (email formData))
    then <["email" := "Please enter a valid email address"]> newErrors
    else newErrors in
  (* Password validation *)
  let newErrors :=
    if negb (JsString.truthy (password formData))
    then <["password" := "Password is required"]> newErrors
    else if JsString.length (password formData) <? 8
    then <["password" := "Password must be at least 8 characters"]> newErrors
    else if negb (passwordRegex_test (password formData))
    then <["password" := "Password must contain at least one uppercase letter, one lowercase letter, and one number"]> newErrors
    else newErrors in
  (* Confirm Password validation *)
  let newErrors :=
    if negb (JsString.truthy (confirmPassword formData))
    then <["confirmPassword" := "Please confirm your password"]> newErrors
    else if negb (bool_decide (password formData = confirmPassword formData))
    then <["confirmPassword" := "Passwords do not match"]> newErrors
    else newErrors in
  (* Bio validation *)
  let newErrors :=
    if negb (JsString.truthy (JsString.trim (bio formData)))
    then <["bio" := "Bio is required"]> newErrors
    else if JsString.length (JsString.trim (bio formData)) <? 10
    then <["bio" := "Bio must be at least 10 characters"]> newErrors
    else newErrors in
  (* Country validation *)
  let newErrors :=
    if negb (JsString.truthy (country formData))
    then <["country" := "Please select a country"]> newErrors
    else newErrors in
  (* Gender validation *)
  let newErrors :=
    if negb (JsString.truthy (gender formData))
    then <["gender" := "Please select a gender"]> newErrors
    else newErrors in
  (* Terms validation *)
  let newErrors :=
    if negb (acceptTerms formData)
    then <["acceptTerms" := "You must accept the terms and conditions"]> newErrors
    else newErrors in
  (* Date of Birth validation *)
  let newErrors :=
    match dateOfBirth formData with
    | None => <["dateOfBirth" := "Date of birth is required"]> newErrors
    | Some dob =>
        let age := number_sub (getFullYear (new_Date now)) (getFullYear dob) in
        if number_lt age (Some 13)
        then <["dateOfBirth" := "You must be at least 13 years old"]> newErrors
        else newErrors
    end in
  newErrors.

Definition validateForm (now : Instant) : M bool :=
  formData ← gets formData ;
  let newErrors := newErrors formData now in
  modify (set_errors (fun _ => newErrors)) ;;
  mret (bool_decide (size newErrors = 0%nat)).

Definition showToast (message : string) (type : ToastType) : M unit :=
  modify (set_toast (fun _ => mkToast true message type)).

Definition hideToast : M unit :=
  modify (set_toast (fun prev => mkToast false (message prev) (type prev))).

Definition saveFormDataToStorage (data : FormData) : M unit :=
  try_catch
    (dob ← match dateOfBirth data with
           | Some d => iso ← lift (toISOString d) ; mret (VString iso)
           | None => mret VNull
           end ;
     let storageData := VObject (formData_props data dob) in
     let jsonData := JSON_stringify storageData 0 in
     AsyncStorage.setItem "signupFormData" jsonData ;;
     console_log "Form data saved to storage successfully")
    (fun error =>
       console_error "Error saving form data to storage:" error).

Definition getStoredFormData : M value :=
  try_catch
    (jsonData ← AsyncStorage.getItem "signupFormData" ;
     match jsonData with
     | Some text => if JsString.truthy text then parse text else mret VNull
     | None => mret VNull
     end)
    (fun error =>
       console_error "Error retrieving form data from storage:" error ;;
       mret VNull).

Definition clearStoredFormData : M unit :=
  try_catch
    (AsyncStorage.removeItem "signupFormData" ;;
     console_log "Stored form data cleared")
    (fun error =>
       console_error "Error clearing stored form data:" error).

(** The object [formattedData] of [handleSubmit]: the draft with
    [dateOfBirth] cut at the ['T'] of its ISO rendering and [submittedAt]
    added.  [stamp] is the instant of the second [new Date()]. *)
Definition formattedData (data : FormData) (stamp : Instant) : M value :=
  dob ← match dateOfBirth data with
        | Some d =>
            iso ← lift (toISOString d) ;
            mret (VString (JsString.split_head "T" iso))
        | None => mret VUndefined
        end ;
  submittedAt ← lift (toISOString (new_Date stamp)) ;
  mret (VObject (formData_props data dob ++ [("submittedAt", VString submittedAt)])).

Definition nl : string := String "010" "".

(** [Alert.alert(title, message, buttons)].  The title ends in the source
    with decorative symbols outside the code-unit range of [string]; they
    are left out. *)
Definition registrationAlert (data : FormData) : Alert :=
  mkAlert "Registration Successful! "
    ("Welcome " +:+ fullName data +:+ "!" +:+ nl +:+ nl
       +:+ "Your registration data has been saved successfully.")
    ["View Storage"; "Clear Storage"; "OK"].

(** [now] is the instant of the [new Date()] of [validateForm], [stamp]
    that of the [new Date()] of [formattedData].  [formData] is the draft
    of the render that installed the handler. *)
Definition handleSubmit (now stamp : Instant) : M unit :=
  data ← gets formData ;
  valid ← validateForm now ;
  if valid : bool then
    formatted ← formattedData data stamp ;
    try_catch
      (saveFormDataToStorage data ;;
       console_log_data "Form submitted successfully:" (JSON_stringify formatted 2) ;;
       showToast "Successfully registered! Data saved to storage." toast_success ;;
       modify (set_alerts (fun a => a ++ [registrationAlert data])))
      (fun error =>
         console_error "Error during form submission:" error ;;
         showToast "Registration failed. Please try again." toast_error)
  else
    showToast "Please fix the errors in the form" toast_error.

Definition resetForm : M unit :=
  modify (set_formData (fun _ => emptyFormData)) ;;
  modify (set_errors (fun _ => ∅)).

(** The effect run when the component is mounted. *)
Definition loadStoredData : M unit :=
  storedData ← getStoredFormData ;
  if value_truthy storedData
  then showToast "Previous form data found in storage" toast_info
  else mret tt.

(** The [onPress] of the "Clear Storage" button of the registration alert. *)
Definition clearStorage_onPress : M unit :=
  clearStoredFormData ;;
  showToast "Storage cleared successfully" toast_info.

End WithPlatform.
End SignupForm.

(** ** [FormInput] *)
Module FormInput.

(** The [onPress] of the box of [optionValue] in a checkbox group whose
    current [value] is an array: the new array handed to [onChange]. *)
Definition checkboxGroup_newValues (value : list string) (optionValue : string)
    : list string :=
  let isChecked := bool_decide (optionValue ∈ value) in
  let currentValues := value in
  if isChecked
  then filter (fun v => v ≠ optionValue) currentValues
  else currentValues ++ [optionValue].

(** That [onPress] on the hobbies group of the signup form. *)
Definition hobbies_onPress (optionValue : string) : M unit :=
  value ← gets (fun w => hobbies (formData w)) ;
  SignupForm.handleInputChange F_hobbies
    (checkboxGroup_newValues value optionValue).

End FormInput.

(** ** A reference platform

    The development is parametric in the [Platform].  For examples that
    compute, this module gives one: a [JSON] codec for values whose strings
    stay below U+0100 and whose numbers are integers, and a document
    directory.  The codec is not all of [JSON]: it refuses a number with
    a fraction or an exponent, which [JSON.parse] reads, and it keeps an
    integer beyond 2^53 exact, which [JSON.parse] rounds.  No example
    below holds such a text, and no theorem that is stated for every
    [Platform] depends on this module. *)
Module RefPlatform.

Definition quote : ascii := "034"%char.
Definition backslash : ascii := "092"%char.

Definition hex_digit (n : N) : ascii :=
  match n with
  | 0 => "0" | 1 => "1" | 2 => "2" | 3 => "3" | 4 => "4" | 5 => "5"
  | 6 => "6" | 7 => "7" | 8 => "8" | 9 => "9" | 10 => "a" | 11 => "b"
  | 12 => "c" | 13 => "d" | 14 => "e" | _ => "f"
  end%N%char.

(** The escape of one code unit inside a JSON string. *)
Definition escape_char (c : ascii) : string :=
  if Ascii.eqb c quote then String backslash (String quote "")
  else if Ascii.eqb c backslash then String backslash (String backslash "")
  else if Ascii.eqb c "008" then String backslash "b"
  else if Ascii.eqb c "009" then String backslash "t"
  else if Ascii.eqb c "010" then String backslash "n"
  else if Ascii.eqb c "012" then String backslash "f"
  else if Ascii.eqb c "013" then String backslash "r"
  else if (N_of_ascii c <? 32)%N then
    String backslash
      (String "u" (String "0" (String "0"
         (String (hex_digit (N_of_ascii c / 16))
            (String (hex_digit (N_of_ascii c mod 16)) "")))))
  else String c "".

Fixpoint escape (s : string) : string :=
  match s with
  | "" => ""
  | String c s' => escape_char c +:+ escape s'
  end.

Definition quoted (s : string) : string :=
  String quote (escape s) +:+ String quote "".

Fixpoint spaces (n : nat) : string :=
  match n with
  | O => ""
  | S n' => String " " (spaces n')
  end.

Fixpoint join (sep : string) (parts : list string) : string :=
  match parts with
  | [] => ""
  | [x] => x
  | x :: rest => x +:+ sep +:+ join sep rest
  end.

(** [open items close] laid out at nesting depth [depth]. *)
Definition layout (indent depth : nat) (opening closing : string)
    (parts : list string) : string :=
  match parts with
  | [] => opening +:+ closing
  | _ =>
      match indent with
      | O => opening +:+ join "," parts +:+ closing
      | _ =>
          let nl := String "010" "" in
          let inner := nl +:+ spaces (indent * S depth) in
          opening +:+ inner +:+ join ("," +:+ inner) parts
            +:+ nl +:+ spaces (indent * depth) +:+ closing
      end
  end.

(** [JSON.stringify(v, null, indent)] below nesting depth [depth].  An
    [undefined] array element is written [null]; an [undefined] property
    is left out. *)
Fixpoint stringify_at (indent depth : nat) (v : value) : string :=
  match v with
  | VUndefined => "null"
  | VNull => "null"
  | VBool true => "true"
  | VBool false => "false"
  | VNumber n => pretty n
  | VString s => quoted s
  | VArray l =>
      layout indent depth "[" "]" (stringify_at indent (S depth) <$> l)
  | VObject props =>
      layout indent depth "{" "}"
        ((fix members (ps : list (string * value)) : list string :=
            match ps with
            | [] => []
            | (_, VUndefined) :: rest => members rest
            | (k, x) :: rest =>
                (quoted k +:+ (match indent with O => ":" | _ => ": " end)
                   +:+ stringify_at indent (S depth) x) :: members rest
            end) props)
  end.

Definition stringify (v : value) (indent : nat) : string :=
  stringify_at indent 0 v.

(** *** Parsing *)

Definition is_json_space (c : ascii) : bool :=
  match c with
  | " " | "009" | "010" | "013" => true
  | _ => false
  end%char.

Fixpoint skip_ws (s : string) : string :=
  match s with
  | String c s' => if is_json_space c then skip_ws s' else s
  | "" => ""
  end.

(** [s] starts with [word]: what follows it. *)
Fixpoint expect (word s : string) : option string :=
  match word, s with
  | "", _ => Some s
  | String a word', String b s' =>
      if Ascii.eqb a b then expect word' s' else None
  | String _ _, "" => None
  end.

Definition hex_value (c : ascii) : option N :=
  let n := N_of_ascii c in
  if ((48 <=? n) && (n <=? 57))%N then Some (n - 48)%N
  else if ((97 <=? n) && (n <=? 102))%N then Some (n - 87)%N
  else if ((65 <=? n) && (n <=? 70))%N then Some (n - 55)%N
  else None.

(** The body of a string literal, after the opening quote. *)
Fixpoint string_body (s : string) : option (string * string) :=
  match s with
  | "" => None
  | String c s' =>
      if Ascii.eqb c quote then Some ("", s')
      else if Ascii.eqb c backslash then
        match s' with
        | String e s'' =>
            let simple (x : ascii) :=
              match string_body s'' with
              | Some (t, rest) => Some (String x t, rest)
              | None => None
              end in
            if Ascii.eqb e quote then simple quote
            else if Ascii.eqb e backslash then simple backslash
            else if Ascii.eqb e "/" then simple "/"%char
            else if Ascii.eqb e "b" then simple "008"%char
            else if Ascii.eqb e "t" then simple "009"%char
            else if Ascii.eqb e "n" then simple "010"%char
            else if Ascii.eqb e "f" then simple "012"%char
            else if Ascii.eqb e "r" then simple "013"%char
            else if Ascii.eqb e "u" then
              match s'' with
              | String "0" (String "0" (String h (String l s3))) =>
                  match hex_value h, hex_value l, string_body s3 with
                  | Some hi, Some lo, Some (t, rest) =>
                      Some (String (ascii_of_N (16 * hi + lo)) t, rest)
                  | _, _, _ => None
                  end
              | _ => None
              end
            else None
        | "" => None
        end
      else if (N_of_ascii c <? 32)%N then None
      else
        match string_body s' with
        | Some (t, rest) => Some (String c t, rest)
        | None => None
        end
  end.

Definition is_digit_char (c : ascii) : bool :=
  ((48 <=? N_of_ascii c) && (N_of_ascii c <=? 57))%N.

(** A run of digits read as a number continuing [acc]. *)
Fixpoint digits (acc : Z) (s : string) : Z * string :=
  match s with
  | String c s' =>
      if is_digit_char c
      then digits (10 * acc + (Z.of_N (N_of_ascii c) - 48)) s'
      else (acc, s)
  | "" => (acc, "")
  end.

(** An integer literal: [0], or a non-zero digit and more digits, with
    an optional sign; no fraction and no exponent may follow. *)
Definition integer (s : string) : option (Z * string) :=
  let unsigned (t : string) : option (Z * string) :=
    match t with
    | String "0" t' => Some (0, t')
    | String c _ => if is_digit_char c then Some (digits 0 t) else None
    | "" => None
    end in
  let checked (r : option (Z * string)) : option (Z * string) :=
    match r with
    | Some (n, String c rest) =>
        if is_digit_char c || Ascii.eqb c "." || Ascii.eqb c "e" || Ascii.eqb c "E"
        then None else Some (n, String c rest)
    | other => other
    end in
  match s with
  | String "-" t =>
      match checked (unsigned t) with
      | Some (n, rest) => Some (- n, rest)
      | None => None
      end
  | _ => checked (unsigned s)
  end.

Fixpoint parse_value (fuel : nat) (s : string) : option (value * string) :=
  match fuel with
  | O => None
  | S fuel =>
      match skip_ws s with
      | "" => None
      | String c rest as text =>
          if Ascii.eqb c "n" then
            match expect "ull" rest with Some r => Some (VNull, r) | None => None end
          else if Ascii.eqb c "t" then
            match expect "rue" rest with Some r => Some (VBool true, r) | None => None end
          else if Ascii.eqb c "f" then
            match expect "alse" rest with Some r => Some (VBool false, r) | None => None end
          else if Ascii.eqb c quote then
            match string_body rest with
            | Some (str, r) => Some (VString str, r)
            | None => None
            end
          else if Ascii.eqb c "[" then
            match skip_ws rest with
            | String "]" r => Some (VArray [], r)
            | _ =>
                match parse_elements fuel rest with
                | Some (l, r) => Some (VArray l, r)
                | None => None
                end
            end
          else if Ascii.eqb c "{" then
            match skip_ws rest with
            | String "}" r => Some (VObject [], r)
            | _ =>
                match parse_members fuel rest with
                | Some (ps, r) => Some (VObject ps, r)
                | None => None
                end
            end
          else
            match integer text with
            | Some (n, r) => Some (VNumber n, r)
            | None => None
            end
      end
  end
with parse_elements (fuel : nat) (s : string) : option (list value * string) :=
  match fuel with
  | O => None
  | S fuel =>
      match parse_value fuel s with
      | Some (v, rest) =>
          match skip_ws rest with
          | String "," r =>
              match parse_elements fuel r with
              | Some (vs, r') => Some (v :: vs, r')
              | None => None
              end
          | String "]" r => Some ([v], r)
          | _ => None
          end
      | None => None
      end
  end
with parse_members (fuel : nat) (s : string)
    : option (list (string * value) * string) :=
  match fuel with
  | O => None
  | S fuel =>
      match skip_ws s with
      | String c rest =>
          if Ascii.eqb c quote then
            match string_body rest with
            | Some (k, rest1) =>
                match skip_ws rest1 with
                | String ":" rest2 =>
                    match parse_value fuel rest2 with
                    | Some (v, rest3) =>
                        match skip_ws rest3 with
                        | String "," r =>
                            match parse_members fuel r with
                            | Some (ps, r') => Some ((k, v) :: ps, r')
                            | None => None
                            end
                        | String "}" r => Some ([(k, v)], r)
                        | _ => None
                        end
                    | None => None
                    end
                | _ => None
                end
            | None => None
            end
          else None
      | "" => None
      end
  end.

(** [JSON.parse(text)]: one value, then nothing but white space.  Every
    recursive call consumes a character, so the length of the text is
    fuel enough. *)
Definition parse (text : string) : option value :=
  match parse_value (S (String.length text)) text with
  | Some (v, rest) =>
      match skip_ws rest with
      | "" => Some v
      | String _ _ => None
      end
  | None => None
  end.

Definition platform : Platform :=
  {| JSON_parse := parse;
     JSON_stringify := stringify;
     documentDirectory := "file:///data/user/0/app/files/" |}.

End RefPlatform.

(** ** Notions used in the statements *)

(** A non-empty run of code units that are neither white space nor [@]. *)
Definition word (s : string) : Prop :=
  JsString.truthy s = true ∧ JsString.every SignupForm.notSpaceAt s = true.

(** The strings accepted by [emailRegex]: [local@domain.tld] where each of
    the three parts is a [word].  A [word] may contain dots, so the dot
    that separates [domain] from [tld] need not be the last one. *)
Definition email_shape (s : string) : Prop :=
  ∃ local domain tld,
    s = local +:+ "@" +:+ domain +:+ "." +:+ tld
    ∧ word local ∧ word domain ∧ word tld.

(** The object [saveFormDataToStorage] serializes for a draft whose date
    of birth is absent or valid: the draft with [dateOfBirth] as an ISO
    timestamp, or [null]. *)
Definition storageData (data : FormData) : value :=
  VObject (formData_props data
             match dateOfBirth data with
             | Some (ValidDate _ iso) => VString iso
             | _ => VNull
             end).

(** The codec reads back what it writes for [v], and writes a text that
    is not empty. *)
Definition round_trips `{Platform} (v : value) : Prop :=
  JSON_stringify v 0 ≠ "" ∧ JSON_parse (JSON_stringify v 0) = Some v.

(** What a reader of the store makes of the text found under its key:
    the parsed value, or the reader's default when the key is missing or
    the text is empty or does not parse. *)
Definition reading `{Platform} (default : value) (stored : option string)
    : value :=
  match stored with
  | Some text =>
      if JsString.truthy text
      then match JSON_parse text with Some v => v | None => default end
      else default
  | None => default
  end.

(** The email pattern as the specification words it: one or more
    non-space, non-[@] characters before the [@]; one or more non-space,
    non-[@] characters between the [@] and the last [.]; and at least one
    character after the last [.]. *)
Module SpecWords.

(** The text before and after the first [sep]. *)
Fixpoint split_first (sep : ascii) (s : string) : option (string * string) :=
  match s with
  | "" => None
  | String c s' =>
      if Ascii.eqb c sep then Some ("", s')
      else
        match split_first sep s' with
        | Some (before, rest) => Some (String c before, rest)
        | None => None
        end
  end.

(** The text before and after the last [sep]. *)
Fixpoint split_last (sep : ascii) (s : string) : option (string * string) :=
  match s with
  | "" => None
  | String c s' =>
      match split_last sep s' with
      | Some (before, rest) => Some (String c before, rest)
      | None => if Ascii.eqb c sep then Some ("", s') else None
      end
  end.

Definition is_word (s : string) : bool :=
  JsString.truthy s && JsString.every SignupForm.notSpaceAt s.

Definition email_pattern (s : string) : bool :=
  match split_first "@" s with
  | Some (local, rest) =>
      match split_last "." rest with
      | Some (domain, tld) =>
          is_word local && is_word domain && JsString.truthy tld
      | None => false
      end
  | None => false
  end.

End SpecWords.

(** ** Example data *)
Module Examples.

Definition june2025 : Instant := mkInstant 2025 "2025-06-01T12:00:00.000Z".
Definition december2025 : Instant := mkInstant 2025 "2025-12-31T23:30:00.000Z".
Definition january2026 : Instant := mkInstant 2026 "2026-01-01T00:30:00.000Z".

(** A draft that passes every rule in 2025. *)
Definition ada : FormData :=
  mkFormData "Ada Lovelace" "ada@example.org" "GoodPass1" "GoodPass1"
    "I like analytical engines." "uk" "female" true ["reading"; "music"]
    (Some (ValidDate 1990 "1990-12-10T00:00:00.000Z")).

(** The component as mounted, on a device with nothing stored and no
    fault planned. *)
Definition mounted : World :=
  mkWorld emptyFormData ∅ (mkToast false "" toast_success) ∅ ∅ ∅ [] [] [].

Definition editing (draft : FormData) : World :=
  set_formData (fun _ => draft) mounted.

(** Two captured photos, and a device that holds the first one only. *)
Definition photo1 : ImageStorage.CapturedImage :=
  ImageStorage.mkCapturedImage "photo_1.jpg" "file:///cache/photo_1.jpg"
    "image/jpeg" 2048 (Some 640) (Some 480) "2025-06-01T12:00:00.000Z".

Definition photo2 : ImageStorage.CapturedImage :=
  ImageStorage.mkCapturedImage "photo_2.jpg" "file:///cache/photo_2.jpg"
    "image/jpeg" 4096 None None "2025-06-01T12:01:00.000Z".

Definition one_photo_on_disk : World :=
  set_files (insert "file:///cache/photo_1.jpg" "JFIF-1") mounted.

Definition two_photos_on_disk : World :=
  set_files (insert "file:///cache/photo_2.jpg" "JFIF-2") one_photo_on_disk.

End Examples.

(* ===================================================================== *)
(** * Part II.  Theorems                                                  *)
(* ===================================================================== *)

(** ** Strings *)

Lemma app_cons (c : ascii) (s t : string) :
  String c s +:+ t = String c (s +:+ t).
Proof. reflexivity. Qed.

Lemma app_empty_l (s : string) : "" +:+ s = s.
Proof. reflexivity. Qed.


Lemma app_assoc (s t u : string) : (s +:+ t) +:+ u = s +:+ (t +:+ u).
Proof.
  induction s as [|c s IH]; [reflexivity|].
  by rewrite !app_cons, IH.
Qed.

Lemma app_eq_empty (s t : string) : s +:+ t = "" → s = "" ∧ t = "".
Proof. destruct s; [by rewrite app_empty_l|]. rewrite app_cons. discriminate. Qed.



(** ** The derivative matcher decides the language *)

Module RegexFacts.
Import Regex.

Lemma matches_seq_inv r1 r2 s :
  matches (Seq r1 r2) s →
  ∃ s1 s2, s = s1 +:+ s2 ∧ matches r1 s1 ∧ matches r2 s2.
Proof. inversion 1; subst. eauto. Qed.

Lemma matches_or_inv r1 r2 s :
  matches (Or r1 r2) s → matches r1 s ∨ matches r2 s.
Proof. inversion 1; subst; auto. Qed.

Lemma matches_class_inv p s :
  matches (Class p) s → ∃ c, s = String c "" ∧ p c = true.
Proof. inversion 1; subst. eauto. Qed.

Lemma nullable_matches r : nullable r = true ↔ matches r "".
Proof.
  split.
  - induction r; simpl; intros Hn; try discriminate.
    + constructor.
    + apply andb_true_iff in Hn as [H1 H2].
      change "" with ("" +:+ ""). constructor; auto.
    + apply orb_true_iff in Hn as [H1|H2];
        [apply m_or_l | apply m_or_r]; auto.
    + constructor.
  - intros Hm. remember "" as s eqn:Hs.
    induction Hm; simpl; try reflexivity; try discriminate.
    + apply app_eq_empty in Hs as [-> ->].
      rewrite IHHm1, IHHm2; auto.
    + rewrite IHHm; auto.
    + rewrite IHHm; auto. apply orb_true_r.
Qed.

Lemma deriv_sound c r s : matches (deriv c r) s → matches r (String c s).
Proof.
  revert s. induction r as [| |p|r1 IH1 r2 IH2|r1 IH1 r2 IH2|r1 IH1];
    simpl; intros s Hm.
  - inversion Hm.
  - inversion Hm.
  - destruct (p c) eqn:Hp; inversion Hm; subst. by constructor.
  - destruct (nullable r1) eqn:Hn.
    + apply matches_or_inv in Hm as [Hm|Hm].
      * apply matches_seq_inv in Hm as (s1 & s2 & -> & H1 & H2).
        rewrite <- app_cons. constructor; auto.
      * rewrite <- (app_empty_l (String c s)). constructor; auto.
        by apply nullable_matches.
    + apply matches_seq_inv in Hm as (s1 & s2 & -> & H1 & H2).
      rewrite <- app_cons. constructor; auto.
  - apply matches_or_inv in Hm as [Hm|Hm];
      [apply m_or_l | apply m_or_r]; auto.
  - apply matches_seq_inv in Hm as (s1 & s2 & -> & H1 & H2).
    rewrite <- app_cons. constructor; auto.
Qed.

Lemma deriv_complete c r s : matches r (String c s) → matches (deriv c r) s.
Proof.
  intros Hm. remember (String c s) as t eqn:Ht. revert s Ht.
  induction Hm as [|p c0 Hp|r1 r2 s1 s2 H1 IH1 H2 IH2|r1 r2 s0 H IH
                  |r1 r2 s0 H IH| |r1 c0 s1 s2 H1 IH1 H2 IH2];
    intros s Ht; simpl.
  - discriminate.
  - injection Ht as -> <-. rewrite Hp. constructor.
  - destruct s1 as [|c1 s1].
    + rewrite app_empty_l in Ht. subst s2.
      apply nullable_matches in H1. rewrite H1.
      apply m_or_r. by apply IH2.
    + rewrite app_cons in Ht. injection Ht as -> <-.
      assert (matches (Seq (deriv c r1) r2) (s1 +:+ s2)) as Hseq
        by (constructor; auto).
      destruct (nullable r1); [by apply m_or_l | done].
  - apply m_or_l. by apply IH.
  - apply m_or_r. by apply IH.
  - discriminate.
  - rewrite app_cons in Ht. injection Ht as -> <-.
    constructor; auto.
Qed.

Lemma accepts_matches r s : accepts r s = true ↔ matches r s.
Proof.
  revert r. induction s as [|c s IH]; intros r; simpl.
  - apply nullable_matches.
  - rewrite IH. split; [apply deriv_sound | apply deriv_complete].
Qed.



(** [p*] and [p+] for a character class [p]. *)
Lemma matches_star_class p s :
  matches (Star (Class p)) s ↔ JsString.every p s = true.
Proof.
  split.
  - intros Hm. remember (Star (Class p)) as r eqn:Hr.
    induction Hm; try discriminate; [reflexivity|].
    injection Hr as ->.
    apply matches_class_inv in Hm1 as (c' & Hc & Hp).
    injection Hc as -> ->.
    rewrite app_cons, app_empty_l. simpl. rewrite Hp. by apply IHHm2.
  - induction s as [|c s IH]; simpl; intros Hall; [constructor|].
    apply andb_true_iff in Hall as [Hp Hall].
    change (String c s) with (String c "" +:+ s).
    constructor; [by constructor | by apply IH].
Qed.

Lemma matches_plus_class p s :
  matches (Plus (Class p)) s ↔
  JsString.truthy s = true ∧ JsString.every p s = true.
Proof.
  unfold Plus. split.
  - intros Hm. apply matches_seq_inv in Hm as (s1 & s2 & -> & H1 & H2).
    apply matches_class_inv in H1 as (c & -> & Hp).
    apply matches_star_class in H2.
    rewrite app_cons, app_empty_l. simpl. by rewrite Hp, H2.
  - destruct s as [|c s]; simpl; intros [Ht Hall]; [discriminate|].
    apply andb_true_iff in Hall as [Hp Hall].
    change (String c s) with (String c "" +:+ s).
    constructor; [by constructor | by apply matches_star_class].
Qed.

Lemma matches_chr c s : matches (Chr c) s ↔ s = String c "".
Proof.
  unfold Chr. split.
  - intros Hm. apply matches_class_inv in Hm as (c' & -> & Heq).
    apply Ascii.eqb_eq in Heq. by subst.
  - intros ->. constructor. apply Ascii.eqb_refl.
Qed.

End RegexFacts.

(** ** The entry [validateForm] leaves under each key *)

Module ValidationFacts.
Import SignupForm.

Section Layers.
Context (k k' v1 v2 v3 : string) (m : gmap string string) (a b c : bool).

Lemma lookup_if1 :
  (if a then <[k:=v1]> m else m) !! k' =
    if bool_decide (k = k') then (if a then Some v1 else m !! k') else m !! k'.
Proof. case_bool_decide; destruct a; by simplify_map_eq. Qed.

Lemma lookup_if2 :
  (if a then <[k:=v1]> m else if b then <[k:=v2]> m else m) !! k' =
    if bool_decide (k = k')
    then (if a then Some v1 else if b then Some v2 else m !! k')
    else m !! k'.
Proof. case_bool_decide; destruct a, b; by simplify_map_eq. Qed.

Lemma lookup_if3 :
  (if a then <[k:=v1]> m
   else if b then <[k:=v2]> m
   else if c then <[k:=v3]> m else m) !! k' =
    if bool_decide (k = k')
    then (if a then Some v1 else if b then Some v2
          else if c then Some v3 else m !! k')
    else m !! k'.
Proof. case_bool_decide; destruct a, b, c; by simplify_map_eq. Qed.

Lemma lookup_match {A} (o : option A) (f : A → bool) :
  match o with
  | None => <[k:=v1]> m
  | Some x => if f x then <[k:=v2]> m else m
  end !! k' =
    if bool_decide (k = k')
    then match o with
         | None => Some v1
         | Some x => if f x then Some v2 else m !! k'
         end
    else m !! k'.
Proof.
  case_bool_decide; destruct o as [x|]; [destruct (f x)| |destruct (f x)|];
    by simplify_map_eq.
Qed.
End Layers.

Ltac name_layers :=
  repeat lazymatch goal with
  | |- (let x := ?a in @?b x) !! ?k = ?R =>
      let m := fresh "m" in
      pose (m := a); change ((b m) !! k = R); cbv beta
  end.

Ltac layer :=
  lazymatch goal with
  | |- context [?m !! _] => is_var m; unfold m; clear m
  end;
  first [ rewrite lookup_if3 | rewrite lookup_if2
        | rewrite lookup_if1 | rewrite lookup_match | rewrite lookup_empty ];
  try (rewrite bool_decide_eq_false_2 by done);
  try (rewrite bool_decide_eq_true_2 by done).

Ltac lookup_newErrors :=
  cbv beta delta [newErrors]; name_layers; repeat layer; reflexivity.

Lemma newErrors_email d now :
  newErrors d now !! "email" =
    if negb (JsString.truthy (JsString.trim (email d)))
    then Some "Email is required"
    else if negb (validateEmail (email d))
    then Some "Please enter a valid email address"
    else None.
Proof. lookup_newErrors. Qed.

Lemma newErrors_password d now :
  newErrors d now !! "password" =
    if negb (JsString.truthy (password d))
    then Some "Password is required"
    else if JsString.length (password d) <? 8
    then Some "Password must be at least 8 characters"
    else if negb (passwordRegex_test (password d))
    then Some "Password must contain at least one uppercase letter, one lowercase letter, and one number"
    else None.
Proof. lookup_newErrors. Qed.

Lemma newErrors_dateOfBirth d now :
  newErrors d now !! "dateOfBirth" =
    match dateOfBirth d with
    | None => Some "Date of birth is required"
    | Some dob =>
        if number_lt (number_sub (getFullYear (new_Date now)) (getFullYear dob)) (Some 13)
        then Some "You must be at least 13 years old"
        else None
    end.
Proof. lookup_newErrors. Qed.
End ValidationFacts.

(** ** The password rule *)

Module PasswordFacts.
Import Regex RegexFacts SignupForm.






End PasswordFacts.

(** ** Passwords of more than one line *)

Module LineFacts.
Import Regex RegexFacts SignupForm.






End LineFacts.





(** ** The email rule *)

Module EmailFacts.
Import Regex RegexFacts SignupForm.

Lemma validateEmail_shape s : validateEmail s = true ↔ email_shape s.
Proof.
  unfold validateEmail, emailRegex, email_shape, word.
  rewrite accepts_matches. split.
  - intros Hm.
    apply matches_seq_inv in Hm as (l & s1 & -> & Hl & Hm).
    apply matches_seq_inv in Hm as (a & s2 & -> & Ha & Hm).
    apply matches_seq_inv in Hm as (dm & s3 & -> & Hd & Hm).
    apply matches_seq_inv in Hm as (b & t & -> & Hb & Ht).
    apply matches_chr in Ha as ->. apply matches_chr in Hb as ->.
    apply matches_plus_class in Hl, Hd, Ht.
    by exists l, dm, t.
  - intros (l & dm & t & -> & Hl & Hd & Ht).
    apply matches_plus_class in Hl, Hd, Ht.
    repeat (constructor; try done); by apply matches_chr.
Qed.

Lemma trimEnd_empty s :
  JsString.trimEnd s = "" → JsString.every JsString.is_space s = true.
Proof.
  induction s as [|c s IH]; simpl; [done|].
  destruct (JsString.trimEnd s); [|discriminate].
  destruct (JsString.is_space c); [|discriminate].
  intros _. by apply IH.
Qed.

Lemma trimStart_spaces s :
  JsString.every JsString.is_space (JsString.trimStart s) = true →
  JsString.every JsString.is_space s = true.
Proof.
  induction s as [|c s IH]; simpl; [done|].
  destruct (JsString.is_space c) eqn:Hc; simpl; [done|].
  by rewrite Hc.
Qed.

Lemma trim_empty s :
  JsString.trim s = "" → JsString.every JsString.is_space s = true.
Proof. intros H. by apply trimStart_spaces, trimEnd_empty. Qed.

(** A string of white space is not an email address. *)
Lemma blank_not_email s :
  JsString.trim s = "" → validateEmail s = false.
Proof.
  intros Hblank%trim_empty. apply not_true_is_false.
  intros (l & dm & t & -> & [Hl Hw] & _)%validateEmail_shape.
  destruct l as [|c l]; [discriminate|].
  rewrite app_cons in Hblank. simpl in Hblank, Hw.
  apply andb_true_iff in Hblank as [Hc _].
  apply andb_true_iff in Hw as [Hn _].
  unfold notSpaceAt in Hn. rewrite Hc in Hn. discriminate.
Qed.

End EmailFacts.

(** C6, as the code has it.  The email rule of [validateForm]: an empty
    email yields "Email is required"; a non-empty email has an entry
    exactly when it is not of the form [local@domain.tld] with [local],
    [domain] and [tld] non-empty and free of white space and [@] (the
    separating dot need not be the last dot of the address).  "a@b.co"
    has no entry; "no-at-sign" and "a@b" have one. *)
Theorem email_rule (d : FormData) (now : Instant) :
  let entry := SignupForm.newErrors d now !! "email" in
  (email d = "" → entry = Some "Email is required")
  ∧ (email d ≠ "" → (is_Some entry ↔ ¬ email_shape (email d)))
  ∧ (email d = "a@b.co" → entry = None)
  ∧ (email d = "no-at-sign" →
     entry = Some "Please enter a valid email address")
  ∧ (email d = "a@b" → entry = Some "Please enter a valid email address").
Proof.
  intros entry. subst entry.
  rewrite ValidationFacts.newErrors_email.
  repeat split.
  - by intros ->.
  - intros Hsome Hshape%EmailFacts.validateEmail_shape.
    destruct (JsString.trim (email d)) eqn:Htrim; simpl in Hsome.
    + apply EmailFacts.blank_not_email in Htrim. congruence.
    + rewrite Hshape in Hsome. by destruct Hsome.
  - intros Hno.
    destruct (negb (JsString.truthy _)); [done|].
    destruct (SignupForm.validateEmail (email d)) eqn:Hv; [|done].
    by apply EmailFacts.validateEmail_shape in Hv.
  - by intros ->.
  - by intros ->.
  - by intros ->.
Qed.

(** The pattern of the specification on the three addresses it lists. *)
Lemma email_pattern_examples :
  SpecWords.email_pattern "a@b.co" = true
  ∧ SpecWords.email_pattern "no-at-sign" = false
  ∧ SpecWords.email_pattern "a@b" = false.
Proof. repeat split. Qed.

(** C6, counterexample.  Nothing follows the last dot of "a@b.c.", so the
    address does not have the pattern the specification words; the code
    accepts it: [validateForm] leaves no entry under [email]. *)
Lemma email_rule_counterexample :
  SpecWords.email_pattern "a@b.c." = false
  ∧ SpecWords.split_last "." "b.c." = Some ("b.c", "")
  ∧ SignupForm.validateEmail "a@b.c." = true
  ∧ SignupForm.newErrors (set_field F_email "a@b.c." emptyFormData)
      (mkInstant 2025 "2025-06-01T12:00:00.000Z") !! "email" = None.
Proof. repeat split; vm_compute; reflexivity. Qed.

(** ** The date-of-birth rule *)

(** C7.  For a draft whose [dateOfBirth] is present, the entry under
    [dateOfBirth] is the "at least 13 years old" message exactly when the
    current calendar year minus the birth year is less than 13, and there is
    no entry otherwise; month and day play no part.  A birth year of the
    current year minus 13 is accepted, one of the current year minus 12 is
    rejected. *)
Theorem dateOfBirth_rule (d : FormData) (now : Instant) (dob : Date) :
  dateOfBirth d = Some dob →
  let entry := SignupForm.newErrors d now !! "dateOfBirth" in
  (entry = Some "You must be at least 13 years old" ↔
     ∃ birthYear, getFullYear dob = Some birthYear
                  ∧ instant_year now - birthYear < 13)
  ∧ (entry = None ∨ entry = Some "You must be at least 13 years old")
  ∧ (∀ iso, dob = ValidDate (instant_year now - 13) iso → entry = None)
  ∧ (∀ iso, dob = ValidDate (instant_year now - 12) iso →
     entry = Some "You must be at least 13 years old").
Proof.
  intros Hdob entry. subst entry.
  rewrite ValidationFacts.newErrors_dateOfBirth, Hdob.
  destruct dob as [y iso|]; simpl.
  - destruct (Z.ltb_spec (instant_year now - y) 13) as [Hlt|Hge].
    + repeat split; auto.
      * by exists y.
      * intros iso' [= -> _]. lia.
    + repeat split; auto.
      * discriminate.
      * intros (y' & [= <-] & Hlt). lia.
      * intros iso' [= -> _]. lia.
  - repeat split; auto; try discriminate.
    intros (y' & [=] & _).
Qed.

Lemma email_rule_witness :
  SignupForm.newErrors (set_field F_email "" Examples.ada) Examples.june2025
    !! "email" = Some "Email is required"
  ∧ (is_Some (SignupForm.newErrors (set_field F_email "a@b.c." Examples.ada)
               Examples.june2025 !! "email")
     ↔ ¬ email_shape "a@b.c.")
  ∧ SignupForm.newErrors (set_field F_email "a@b.co" Examples.ada)
      Examples.june2025 !! "email" = None
  ∧ SignupForm.newErrors (set_field F_email "a@b" Examples.ada)
      Examples.june2025 !! "email" = Some "Please enter a valid email address".
Proof.
  destruct (email_rule (set_field F_email "" Examples.ada) Examples.june2025)
    as (Hrequired & _).
  destruct (email_rule (set_field F_email "a@b.c." Examples.ada)
              Examples.june2025) as (_ & Hexactly & _).
  destruct (email_rule (set_field F_email "a@b.co" Examples.ada)
              Examples.june2025) as (_ & _ & Hgood & _).
  destruct (email_rule (set_field F_email "a@b" Examples.ada)
              Examples.june2025) as (_ & _ & _ & _ & Hnotld).
  split; [|split; [|split]].
  - apply Hrequired. reflexivity.
  - apply Hexactly. discriminate.
  - apply Hgood. reflexivity.
  - apply Hnotld. reflexivity.
Defined.

Lemma dateOfBirth_rule_witness :
  SignupForm.newErrors
    (set_field F_dateOfBirth (Some (ValidDate 2012 "2012-01-01T00:00:00.000Z")) Examples.ada)
    Examples.june2025 !! "dateOfBirth" = None
  ∧ SignupForm.newErrors
      (set_field F_dateOfBirth (Some (ValidDate 2013 "2013-01-01T00:00:00.000Z")) Examples.ada)
      Examples.june2025 !! "dateOfBirth"
    = Some "You must be at least 13 years old".
Proof.
  destruct (dateOfBirth_rule
              (set_field F_dateOfBirth
                 (Some (ValidDate 2012 "2012-01-01T00:00:00.000Z")) Examples.ada)
              Examples.june2025 (ValidDate 2012 "2012-01-01T00:00:00.000Z")
              eq_refl) as (_ & _ & Hboundary & _).
  destruct (dateOfBirth_rule
              (set_field F_dateOfBirth
                 (Some (ValidDate 2013 "2013-01-01T00:00:00.000Z")) Examples.ada)
              Examples.june2025 (ValidDate 2013 "2013-01-01T00:00:00.000Z")
              eq_refl) as (_ & _ & _ & Hyoung).
  split.
  - apply (Hboundary "2012-01-01T00:00:00.000Z"). reflexivity.
  - apply (Hyoung "2013-01-01T00:00:00.000Z"). reflexivity.
Defined.

(** ** The update operation *)

Module UpdateFacts.
Import SignupForm.

Lemma handleInputChange_run (name : Field) (value : field_type name) w :
  handleInputChange name value w =
    (Ok (),
     if has_error (errors w) (field_name name)
     then set_errors (insert (field_name name) "")
            (set_formData (set_field name value) w)
     else set_formData (set_field name value) w).
Proof.
  unfold handleInputChange, mbind, M_bind, gets, modify, mret, M_ret. simpl.
  by destruct (has_error _ _).
Qed.

Lemma get_set_field_eq f v d : get_field f (set_field f v d) = v.
Proof. by destruct f. Qed.

Lemma get_set_field_ne f g v d :
  g ≠ f → get_field g (set_field f v d) = get_field g d.
Proof. by destruct f, g. Qed.

Lemma field_name_inj f g : field_name f = field_name g → f = g.
Proof. by destruct f, g. Qed.

End UpdateFacts.

(** C10.  [handleInputChange(name, value)] sets field [name] of the draft
    to [value] and changes no other field; every entry of the error mapping
    under another key is as before; the store, the files, the toast, the
    console and the alerts are not touched. *)
Theorem handleInputChange_frame (name : Field) (value : field_type name)
    (w : World) :
  let w' := after (SignupForm.handleInputChange name value) w in
  get_field name (formData w') = value
  ∧ (∀ other, other ≠ name →
       get_field other (formData w') = get_field other (formData w))
  ∧ (∀ key, key ≠ field_name name → errors w' !! key = errors w !! key)
  ∧ (∀ other, other ≠ name →
       errors w' !! field_name other = errors w !! field_name other)
  ∧ items w' = items w ∧ files w' = files w
  ∧ directories w' = directories w ∧ toast w' = toast w
  ∧ console w' = console w ∧ alerts w' = alerts w.
Proof.
  intros w'. subst w'. unfold after.
  rewrite UpdateFacts.handleInputChange_run. simpl.
  assert (∀ key, key ≠ field_name name →
    errors (if SignupForm.has_error (errors w) (field_name name)
            then set_errors (insert (field_name name) "")
                   (set_formData (set_field name value) w)
            else set_formData (set_field name value) w) !! key
    = errors w !! key) as Hkeys.
  { intros key Hkey. destruct (SignupForm.has_error _ _); simpl; [|done].
    by rewrite lookup_insert_ne. }
  destruct (SignupForm.has_error (errors w) (field_name name)) eqn:Herr; simpl;
    (split; [apply UpdateFacts.get_set_field_eq|]);
    (split; [intros other Hother; by apply UpdateFacts.get_set_field_ne|]);
    (split; [exact Hkeys|]);
    (split; [|done]);
    intros other Hother; apply Hkeys;
    intros Heq%UpdateFacts.field_name_inj; done.
Qed.

Lemma handleInputChange_frame_witness :
  get_field F_fullName
    (formData (after (SignupForm.handleInputChange F_email "ada@example.org")
                 (set_errors (insert "fullName" "Full name is required")
                    (set_errors (insert "email" "Email is required")
                       Examples.mounted))))
  = ""
  ∧ errors (after (SignupForm.handleInputChange F_email "ada@example.org")
              (set_errors (insert "fullName" "Full name is required")
                 (set_errors (insert "email" "Email is required")
                    Examples.mounted))) !! "fullName"
    = Some "Full name is required".
Proof.
  destruct (handleInputChange_frame F_email "ada@example.org"
              (set_errors (insert "fullName" "Full name is required")
                 (set_errors (insert "email" "Email is required")
                    Examples.mounted))) as (_ & Hfields & Hkeys & _).
  split.
  - apply (Hfields F_fullName). discriminate.
  - apply (Hkeys "fullName"). discriminate.
Defined.

(** C3, as the code has it.  When the error mapping has an entry for the
    field, [handleInputChange] leaves the key in the mapping with the empty
    string as its text: the key is not removed.  The empty string is falsy,
    so the view shows no error for the field. *)
Theorem handleInputChange_blanks_error (name : Field) (value : field_type name)
    (w : World) :
  is_Some (errors w !! field_name name) →
  errors (after (SignupForm.handleInputChange name value) w) !! field_name name
    = Some ""
  ∧ SignupForm.has_error
      (errors (after (SignupForm.handleInputChange name value) w))
      (field_name name) = false.
Proof.
  intros [text Htext]. unfold after.
  rewrite UpdateFacts.handleInputChange_run. simpl.
  unfold SignupForm.has_error at 1 3. rewrite Htext.
  destruct text as [|c text]; simpl.
  - unfold SignupForm.has_error. by rewrite Htext.
  - unfold SignupForm.has_error. by rewrite lookup_insert_eq.
Qed.

Lemma handleInputChange_blanks_error_witness :
  errors (after (SignupForm.handleInputChange F_email "a")
            (set_errors (insert "email" "Email is required") Examples.mounted))
    !! "email" = Some ""
  ∧ SignupForm.has_error
      (errors (after (SignupForm.handleInputChange F_email "a")
                 (set_errors (insert "email" "Email is required") Examples.mounted)))
      "email" = false.
Proof.
  apply (handleInputChange_blanks_error F_email "a"
           (set_errors (insert "email" "Email is required") Examples.mounted)).
  exists "Email is required". reflexivity.
Defined.

(** C3, counterexample.  With "Email is required" under [email], typing
    "a" into the email field leaves [email] a key of the error mapping. *)
Lemma handleInputChange_key_stays :
  errors (set_errors (insert "email" "Email is required") Examples.mounted)
    !! "email" = Some "Email is required"
  ∧ errors (after (SignupForm.handleInputChange F_email "a")
              (set_errors (insert "email" "Email is required") Examples.mounted))
      !! "email" ≠ None
  ∧ "email" ∈ dom (errors (after (SignupForm.handleInputChange F_email "a")
              (set_errors (insert "email" "Email is required") Examples.mounted))).
Proof.
  split; [reflexivity|]. split; [discriminate|].
  apply elem_of_dom. exists "". reflexivity.
Qed.

(** ** Validation as an operation *)

Module ValidateFacts.
Import SignupForm.

Lemma validateForm_run now w :
  validateForm now w =
    (Ok (bool_decide (size (newErrors (formData w) now) = 0%nat)),
     set_errors (fun _ => newErrors (formData w) now) w).
Proof. reflexivity. Qed.

(** Of the instant, the rules read the calendar year only. *)
Lemma newErrors_year d now1 now2 :
  instant_year now1 = instant_year now2 →
  newErrors d now1 = newErrors d now2.
Proof.
  destruct now1 as [y1 iso1], now2 as [y2 iso2]. simpl. intros ->.
  reflexivity.
Qed.

(** The form is valid iff the error mapping is empty. *)
Lemma validateForm_valid now w :
  outcome (validateForm now) w = Ok true ↔ newErrors (formData w) now = ∅.
Proof.
  unfold outcome. rewrite validateForm_run. simpl.
  rewrite <- map_size_empty_iff. split.
  - intros [= Hd]. by apply bool_decide_eq_true in Hd.
  - intros Hs. by rewrite bool_decide_eq_true_2.
Qed.

End ValidateFacts.

(** C4, as the code has it.  [validateForm] reads the draft and the
    calendar year of the current instant, and nothing else: the error
    mapping it installs does not depend on the error mapping, the store or
    anything else on the device; two runs on the same draft in the same
    calendar year install the same error mapping and return the same
    answer; a run changes neither the draft nor the store, the files or the
    fault plan. *)
Theorem validateForm_idempotent (w : World) (now1 now2 : Instant) :
  instant_year now1 = instant_year now2 →
  let w1 := after (SignupForm.validateForm now1) w in
  let w2 := after (SignupForm.validateForm now2) w1 in
  errors w1 = SignupForm.newErrors (formData w) now1
  ∧ errors w2 = errors w1
  ∧ outcome (SignupForm.validateForm now2) w1
    = outcome (SignupForm.validateForm now1) w
  ∧ formData w1 = formData w ∧ formData w2 = formData w
  ∧ items w1 = items w ∧ files w1 = files w
  ∧ directories w1 = directories w ∧ faults w1 = faults w.
Proof.
  intros Hyear w1 w2. subst w1 w2. unfold after, outcome.
  rewrite !ValidateFacts.validateForm_run. simpl.
  rewrite (ValidateFacts.newErrors_year _ _ _ Hyear).
  repeat split.
Qed.

Lemma validateForm_idempotent_witness :
  errors (after (SignupForm.validateForm Examples.december2025)
            (after (SignupForm.validateForm Examples.june2025)
               (Examples.editing Examples.ada)))
  = errors (after (SignupForm.validateForm Examples.june2025)
              (Examples.editing Examples.ada)).
Proof.
  destruct (validateForm_idempotent (Examples.editing Examples.ada)
              Examples.june2025 Examples.december2025 eq_refl)
    as (_ & Hsame & _).
  exact Hsame.
Defined.

(** C4, counterexample.  A draft with a birth year of 2013, validated on
    the last day of 2025 and again on the first day of 2026: the first run
    leaves "You must be at least 13 years old" under [dateOfBirth], the
    second leaves nothing there, on the same unmodified draft. *)
Lemma validateForm_depends_on_year :
  let draft :=
    set_field F_dateOfBirth (Some (ValidDate 2013 "2013-05-17T00:00:00.000Z"))
      Examples.ada in
  let w1 := after (SignupForm.validateForm Examples.december2025)
              (Examples.editing draft) in
  let w2 := after (SignupForm.validateForm Examples.january2026) w1 in
  formData w1 = draft ∧ formData w2 = draft
  ∧ errors w1 !! "dateOfBirth" = Some "You must be at least 13 years old"
  ∧ errors w2 !! "dateOfBirth" = None
  ∧ errors w1 ≠ errors w2
  ∧ outcome (SignupForm.validateForm Examples.december2025)
      (Examples.editing draft) = Ok false
  ∧ outcome (SignupForm.validateForm Examples.january2026) w1 = Ok true.
Proof.
  intros draft w1 w2.
  assert (errors w1 !! "dateOfBirth" = Some "You must be at least 13 years old")
    as H1 by (vm_compute; reflexivity).
  assert (errors w2 !! "dateOfBirth" = None) as H2 by (vm_compute; reflexivity).
  split; [reflexivity|]. split; [reflexivity|].
  split; [exact H1|]. split; [exact H2|].
  split; [|split; vm_compute; reflexivity].
  intros Heq. rewrite Heq in H1. congruence.
Qed.

(** ** Running handlers *)

Lemma bind_run {A B} (m : M A) (k : A → M B) w :
  (m ≫= k) w =
    match m w with
    | (Ok a, w') => k a w'
    | (Err e, w') => (Err e, w')
    end.
Proof. reflexivity. Qed.

Lemma try_catch_run {A} (body : M A) (handler : Error → M A) w :
  try_catch body handler w =
    match body w with
    | (Ok a, w') => (Ok a, w')
    | (Err e, w') => handler e w'
    end.
Proof. reflexivity. Qed.

(** ** The form data store *)

Ltac run_handlers :=
  unfold outcome, after in *;
  unfold AsyncStorage.getItem, AsyncStorage.setItem, AsyncStorage.removeItem,
    AsyncStorage.multiRemove, FileSystem.getInfoAsync,
    FileSystem.makeDirectoryAsync, FileSystem.copyAsync,
    console_log, console_log_data, console_error, parse, spread in *;
  unfold try_catch, native, gets, modify, lift in *;
  unfold mbind, M_bind, mret, M_ret, mthrow, M_throw in *.

Section StoreFacts.
Context `{Platform}.
Import StorageManager.

(** What the readers do keep to: [getFormData] and [getSubmittedForms]
    never end with an error, whatever the device and its fault plan.
    [getFormData] answers [null] when the draft key is missing, when the
    text stored under it does not parse, and when the native read is
    rejected; [getSubmittedForms] answers the empty array in the same
    three cases.  Neither changes the store. *)
Theorem reads_degrade (w : World) :
  (∃ v, outcome getFormData w = Ok v)
  ∧ (∃ v, outcome getSubmittedForms w = Ok v)
  ∧ (items w !! FORM_DATA_KEY = None → outcome getFormData w = Ok VNull)
  ∧ (∀ text, items w !! FORM_DATA_KEY = Some text → JSON_parse text = None →
       outcome getFormData w = Ok VNull)
  ∧ (head (faults w) = Some true → outcome getFormData w = Ok VNull)
  ∧ (items w !! SUBMITTED_FORMS_KEY = None →
       outcome getSubmittedForms w = Ok (VArray []))
  ∧ (∀ text, items w !! SUBMITTED_FORMS_KEY = Some text →
       JSON_parse text = None →
       outcome getSubmittedForms w = Ok (VArray []))
  ∧ (head (faults w) = Some true →
       outcome getSubmittedForms w = Ok (VArray []))
  ∧ items (after getFormData w) = items w
  ∧ items (after getSubmittedForms w) = items w.
Proof.
  unfold getFormData, getSubmittedForms. run_handlers.
  destruct (faults w) as [|[] plan]; simpl;
    destruct (items w !! FORM_DATA_KEY) as [draft|] eqn:Hdraft;
    destruct (items w !! SUBMITTED_FORMS_KEY) as [list|] eqn:Hlist;
    simpl;
    repeat match goal with
           | |- context [JsString.truthy ?s] => destruct (JsString.truthy s)
           | |- context [JSON_parse ?s] => destruct (JSON_parse s) eqn:?
           end; simpl;
    repeat split; eauto; try discriminate; try congruence;
    intros text [= <-] Hparse; congruence.
Qed.

(** *** Steps of [saveCompletedRegistration] *)

Lemma getSubmittedForms_total w :
  ∃ forms w', getSubmittedForms w = (Ok forms, w')
              ∧ items w' = items w ∧ faults w' = drop 1 (faults w).
Proof.
  unfold getSubmittedForms. run_handlers.
  destruct (faults w) as [|[] plan] eqn:Hplan; simpl;
    destruct (items w !! SUBMITTED_FORMS_KEY) as [text|]; simpl;
    repeat match goal with
           | |- context [JsString.truthy ?s] => destruct (JsString.truthy s)
           | |- context [JSON_parse ?s] => destruct (JSON_parse s)
           end; simpl;
    eexists _, _; (split; [reflexivity|]); simpl; by rewrite ?Hplan.
Qed.

Lemma spread_cases forms :
  (∃ existing, ∀ w, spread forms w = (Ok existing, w))
  ∨ (∀ w, spread forms w = (Err TypeError, w)).
Proof. destruct forms; simpl; eauto. Qed.

Lemma setItem_cases key text w :
  (∃ w', AsyncStorage.setItem key text w = (Err NativeError, w')
         ∧ items w' = items w)
  ∨ (∃ w', AsyncStorage.setItem key text w = (Ok (), w')
           ∧ items w' = <[key:=text]> (items w)).
Proof.
  run_handlers. destruct (faults w) as [|[] plan]; simpl; eauto.
Qed.

Lemma clearFormData_cases w :
  (∃ e w', clearFormData w = (Err e, w') ∧ items w' = items w)
  ∨ (∃ w', clearFormData w = (Ok (), w')
           ∧ items w' = delete FORM_DATA_KEY (items w)).
Proof.
  unfold clearFormData. run_handlers.
  destruct (faults w) as [|[] plan]; simpl; eauto.
Qed.

(** The run of [saveCompletedRegistration], step by step: it ends with
    an error and the draft key untouched, or it ends well with the list
    written and the draft key removed. *)
Lemma saveCompletedRegistration_cases data w :
  (∃ e w', saveCompletedRegistration data w = (Err e, w')
           ∧ items w' !! FORM_DATA_KEY = items w !! FORM_DATA_KEY)
  ∨ (∃ forms existing w',
       outcome getSubmittedForms w = Ok forms
       ∧ spread forms w = (Ok existing, w)
       ∧ saveCompletedRegistration data w = (Ok (), w')
       ∧ items w' =
           delete FORM_DATA_KEY
             (<[SUBMITTED_FORMS_KEY :=
                  JSON_stringify (VArray (existing ++ [data])) 0]> (items w))).
Proof.
  unfold saveCompletedRegistration, try_catch, mbind, M_bind, outcome.
  destruct (getSubmittedForms_total w) as (forms & w1 & -> & Hw1 & _). simpl.
  destruct (spread_cases forms) as [[existing Hs]| Hs]; rewrite Hs.
  2:{ left. eexists _, _. split; [reflexivity|]. simpl. by rewrite Hw1. }
  destruct (setItem_cases SUBMITTED_FORMS_KEY
              (JSON_stringify (VArray (existing ++ [data])) 0) w1)
    as [(w2 & -> & Hw2)|(w2 & -> & Hw2)].
  { left. eexists _, _. split; [reflexivity|]. simpl. by rewrite Hw2, Hw1. }
  destruct (clearFormData_cases w2) as [(e & w3 & -> & Hw3)|(w3 & -> & Hw3)].
  { left. eexists _, _. split; [reflexivity|]. simpl.
    rewrite Hw3, Hw2, Hw1. by rewrite lookup_insert_ne. }
  right. exists forms, existing. eexists. split; [done|].
  split; [apply Hs|].
  split; [reflexivity|]. simpl.
  by rewrite Hw3, Hw2, Hw1.
Qed.

(** C2.  When [saveCompletedRegistration] ends with an error, the draft
    key holds what it held before.  In particular, when the write of the
    extended list is rejected, the operation ends with that error and the
    whole store is as it was: the draft is not cleared. *)
Theorem commit_failure_keeps_draft (data : value) (w : World) :
  (∀ e, outcome (saveCompletedRegistration data) w = Err e →
     items (after (saveCompletedRegistration data) w) !! FORM_DATA_KEY
     = items w !! FORM_DATA_KEY)
  ∧ (∀ forms existing e,
       outcome getSubmittedForms w = Ok forms →
       outcome (spread forms) (after getSubmittedForms w) = Ok existing →
       outcome (AsyncStorage.setItem SUBMITTED_FORMS_KEY
                  (JSON_stringify (VArray (existing ++ [data])) 0))
         (after getSubmittedForms w) = Err e →
       outcome (saveCompletedRegistration data) w = Err e
       ∧ items (after (saveCompletedRegistration data) w) = items w).
Proof.
  split.
  - intros e. unfold outcome, after.
    destruct (saveCompletedRegistration_cases data w)
      as [(e' & w' & -> & Hdraft)|(forms & existing & w' & _ & _ & -> & _)];
      simpl; [done | discriminate].
  - intros forms existing e. unfold outcome, after.
    unfold saveCompletedRegistration, try_catch, mbind, M_bind.
    destruct (getSubmittedForms_total w) as (forms' & w1 & -> & Hw1 & _). simpl.
    intros [= <-] Hspread.
    destruct (spread_cases forms') as [[existing' Hs]| Hs];
      rewrite Hs in Hspread |- *; simpl in Hspread; [|discriminate].
    injection Hspread as <-.
    destruct (setItem_cases SUBMITTED_FORMS_KEY
                (JSON_stringify (VArray (existing' ++ [data])) 0) w1)
      as [(w2 & -> & Hw2)|(w2 & -> & Hw2)]; simpl; [|discriminate].
    intros [= <-]. split; [reflexivity|]. by rewrite Hw2, Hw1.
Qed.

(** Without a rejected call, on a stored list that is an array or is
    missing, [saveCompletedRegistration] appends the record to the list
    and removes the draft key. *)
Lemma saveCompletedRegistration_commits data w forms existing :
  faults w = [] →
  outcome getSubmittedForms w = Ok forms →
  forms = VArray existing →
  outcome (saveCompletedRegistration data) w = Ok ()
  ∧ items (after (saveCompletedRegistration data) w) =
      delete FORM_DATA_KEY
        (<[SUBMITTED_FORMS_KEY :=
             JSON_stringify (VArray (existing ++ [data])) 0]> (items w)).
Proof.
  intros Hplan Hforms ->. unfold outcome, after in *.
  unfold saveCompletedRegistration, try_catch, mbind, M_bind.
  destruct (getSubmittedForms_total w) as (forms & w1 & Hrun & Hw1 & Hplan1).
  rewrite Hrun in Hforms |- *. simpl in Hforms. injection Hforms as ->.
  rewrite Hplan in Hplan1. simpl in Hplan1.
  unfold clearFormData. run_handlers. simpl. rewrite Hplan1. simpl.
  rewrite Hplan1. simpl. by rewrite Hw1.
Qed.
End StoreFacts.

(** ** The submit operation *)

Section SubmitFacts.
Context `{Platform}.
Import SignupForm.

Lemma formattedData_run data stamp year iso w :
  dateOfBirth data = Some (ValidDate year iso) →
  formattedData data stamp w =
    (Ok (VObject (formData_props data (VString (JsString.split_head "T" iso))
                  ++ [("submittedAt", VString (instant_iso stamp))])), w).
Proof. intros Hdob. unfold formattedData. by rewrite Hdob. Qed.

(** [saveFormDataToStorage] never throws: a rejected write is logged. *)
Lemma saveFormDataToStorage_run data year iso w :
  dateOfBirth data = Some (ValidDate year iso) →
  saveFormDataToStorage data w =
    (Ok (),
     match faults w with
     | true :: _ =>
         set_console
           (fun c => c ++ [LogError "Error saving form data to storage:" NativeError])
           (set_faults (drop 1) w)
     | plan =>
         set_console
           (fun c => c ++ [Log "Form data saved to storage successfully"])
           (set_items
              (insert "signupFormData"
                 (JSON_stringify (VObject (formData_props data (VString iso))) 0))
              (match plan with [] => w | _ => set_faults (drop 1) w end))
     end).
Proof.
  intros Hdob. unfold saveFormDataToStorage. rewrite Hdob.
  run_handlers. simpl. destruct (faults w) as [|[] plan]; simpl; reflexivity.
Qed.

Lemma handleSubmit_run w now stamp year iso :
  newErrors (formData w) now = ∅ →
  dateOfBirth (formData w) = Some (ValidDate year iso) →
  handleSubmit now stamp w =
    (Ok (),
     set_alerts (fun a => a ++ [registrationAlert (formData w)])
       (set_toast
          (fun _ => mkToast true
                      "Successfully registered! Data saved to storage."
                      toast_success)
          (set_console
             (fun c => c ++
                [LogData "Form submitted successfully:"
                   (JSON_stringify
                      (VObject
                         (formData_props (formData w)
                            (VString (JsString.split_head "T" iso))
                          ++ [("submittedAt", VString (instant_iso stamp))]))
                      2)])
             (after (saveFormDataToStorage (formData w))
                (set_errors (fun _ => ∅) w))))).
Proof.
  intros Hvalid Hdob. unfold after, handleSubmit.
  rewrite bind_run. unfold gets at 1. cbv beta iota.
  rewrite bind_run, ValidateFacts.validateForm_run, Hvalid, map_size_empty.
  rewrite bool_decide_eq_true_2 by done. cbv beta iota.
  rewrite bind_run, (formattedData_run _ _ year iso) by done.
  rewrite try_catch_run, !bind_run.
  rewrite !(saveFormDataToStorage_run _ year iso) by done.
  reflexivity.
Qed.

(** C1, as the code has it.  On a draft for which [validateForm] finds
    no error, and whose date of birth is a valid date, [handleSubmit]
    ends without error.  It builds the submitted record (the draft with
    [dateOfBirth] cut to the date part of its ISO rendering and
    [submittedAt] set to the ISO rendering of the current instant) and
    writes it to the console, nowhere else.  What it hands to the store
    is the draft itself, with [dateOfBirth] as a full ISO timestamp and
    without [submittedAt], written under the draft key unless the store
    rejects the write.  The list of submitted forms is not touched and
    the draft key is not cleared; the draft in memory stays, and the
    success toast is shown. *)
Theorem handleSubmit_valid (w : World) (now stamp : Instant)
    (year : Z) (iso : string) :
  newErrors (formData w) now = ∅ →
  dateOfBirth (formData w) = Some (ValidDate year iso) →
  let w' := after (handleSubmit now stamp) w in
  let draft :=
    JSON_stringify (VObject (formData_props (formData w) (VString iso))) 0 in
  let record :=
    VObject (formData_props (formData w)
               (VString (JsString.split_head "T" iso))
             ++ [("submittedAt", VString (instant_iso stamp))]) in
  outcome (handleSubmit now stamp) w = Ok ()
  ∧ outcome (formattedData (formData w) stamp) w = Ok record
  ∧ LogData "Form submitted successfully:" (JSON_stringify record 2)
    ∈ console w'
  ∧ items w' =
      (if bool_decide (head (faults w) = Some true)
       then items w
       else <[StorageManager.FORM_DATA_KEY := draft]> (items w))
  ∧ items w' !! StorageManager.SUBMITTED_FORMS_KEY
    = items w !! StorageManager.SUBMITTED_FORMS_KEY
  ∧ (head (faults w) ≠ Some true →
     items w' !! StorageManager.FORM_DATA_KEY = Some draft)
  ∧ formData w' = formData w
  ∧ errors w' = ∅
  ∧ toast w' =
      mkToast true "Successfully registered! Data saved to storage."
        toast_success.
Proof.
  intros Hvalid Hdob w' draft record. subst w' draft record.
  unfold outcome, after.
  rewrite (handleSubmit_run _ _ _ year iso) by done.
  rewrite (formattedData_run _ _ year iso) by done.
  unfold after. rewrite (saveFormDataToStorage_run _ year iso) by done.
  destruct (faults w) as [|[] plan] eqn:Hplan; cbn -[formData_props];
    rewrite ?Hplan; cbn -[formData_props];
    repeat split; try done;
    try (rewrite !elem_of_app; rewrite !list_elem_of_singleton; auto; fail);
    try (by rewrite lookup_insert_ne);
    try (intros _; by rewrite lookup_insert_eq).
Qed.

End SubmitFacts.

Lemma handleSubmit_valid_witness :
  let w := Examples.editing Examples.ada in
  let w' := after (SignupForm.handleSubmit (H := RefPlatform.platform)
                     Examples.june2025 Examples.june2025) w in
  items w' !! StorageManager.SUBMITTED_FORMS_KEY = None
  ∧ formData w' = Examples.ada.
Proof.
  destruct (handleSubmit_valid (H := RefPlatform.platform)
              (Examples.editing Examples.ada) Examples.june2025
              Examples.june2025 1990 "1990-12-10T00:00:00.000Z")
    as (_ & _ & _ & _ & Hlist & _ & Hdraft & _).
  - vm_compute. reflexivity.
  - reflexivity.
  - split; [exact Hlist | exact Hdraft].
Defined.

(** C1, counterexample.  A draft that passes validation is submitted on a
    device with an empty store and no fault: afterwards the list key is
    still missing, [getSubmittedForms] still answers the empty array, and
    the draft key holds the draft. *)
Lemma handleSubmit_does_not_commit :
  let w := Examples.editing Examples.ada in
  let w' := after (SignupForm.handleSubmit (H := RefPlatform.platform)
                     Examples.june2025 Examples.june2025) w in
  SignupForm.newErrors Examples.ada Examples.june2025 = ∅
  ∧ outcome (SignupForm.handleSubmit (H := RefPlatform.platform)
               Examples.june2025 Examples.june2025) w = Ok ()
  ∧ items w' !! StorageManager.SUBMITTED_FORMS_KEY = None
  ∧ outcome (StorageManager.getSubmittedForms (H := RefPlatform.platform)) w'
    = Ok (VArray [])
  ∧ is_Some (items w' !! StorageManager.FORM_DATA_KEY)
  ∧ outcome (StorageManager.getFormData (H := RefPlatform.platform)) w'
    = Ok (VObject (formData_props Examples.ada
                     (VString "1990-12-10T00:00:00.000Z"))).
Proof.
  split; [vm_compute; reflexivity|].
  split; [vm_compute; reflexivity|].
  split; [vm_compute; reflexivity|].
  split; [vm_compute; reflexivity|].
  split; [|vm_compute; reflexivity].
  eexists. vm_compute. reflexivity.
Qed.

Lemma reads_degrade_witness :
  let w := set_items (insert StorageManager.FORM_DATA_KEY "{bad") Examples.mounted in
  outcome (StorageManager.getFormData (H := RefPlatform.platform)) w = Ok VNull
  ∧ outcome (StorageManager.getSubmittedForms (H := RefPlatform.platform)) w
    = Ok (VArray [])
  ∧ outcome (StorageManager.getFormData (H := RefPlatform.platform))
      (set_faults (fun _ => [true]) w) = Ok VNull.
Proof.
  intros w.
  destruct (reads_degrade (H := RefPlatform.platform) w)
    as (_ & _ & _ & Hmalformed & _ & Hmissing & _).
  destruct (reads_degrade (H := RefPlatform.platform)
              (set_faults (fun _ => [true]) w))
    as (_ & _ & _ & _ & Hrejected & _).
  split; [|split].
  - apply (Hmalformed "{bad"); reflexivity.
  - apply Hmissing. reflexivity.
  - apply Hrejected. reflexivity.
Defined.


Lemma commit_failure_keeps_draft_witness :
  let w :=
    set_faults (fun _ => [false; true])
      (set_items (fun _ => {[ StorageManager.FORM_DATA_KEY := "{}";
                              StorageManager.SUBMITTED_FORMS_KEY := "[]" ]})
         Examples.mounted) in
  let run :=
    StorageManager.saveCompletedRegistration (H := RefPlatform.platform)
      (VObject [("fullName", VString "Ada Lovelace")]) in
  outcome run w = Err NativeError
  ∧ items (after run w) = items w
  ∧ items (after run w) !! StorageManager.FORM_DATA_KEY
    = items w !! StorageManager.FORM_DATA_KEY.
Proof.
  intros w run.
  destruct (commit_failure_keeps_draft (H := RefPlatform.platform)
              (VObject [("fullName", VString "Ada Lovelace")]) w)
    as (Hdraft & Hwrite).
  destruct (Hwrite (VArray []) [] NativeError) as (Hfails & Hstore);
    [reflexivity | reflexivity | reflexivity |].
  split; [exact Hfails|]. split; [exact Hstore|].
  apply (Hdraft NativeError). exact Hfails.
Defined.

(** ** The image store *)

Section ImageFacts.
Context `{Platform}.
Import ImageStorage.

Lemma collect_rejected {A} (settled : list (Result A)) i e :
  settled !! i = Some (Err e) → is_err (collect settled) = true.
Proof.
  revert i. induction settled as [|r rest IH]; intros i; [done|].
  destruct r as [a|e']; simpl; [|done].
  destruct i as [|i]; simpl; [done|].
  intros Hi. specialize (IH i Hi). by destruct (collect rest).
Qed.

Lemma collect_fulfilled {A} (settled : list (Result A)) l :
  collect settled = Ok l → settled = Ok <$> l.
Proof.
  revert l. induction settled as [|r rest IH]; intros l; simpl.
  - by intros [= <-].
  - destruct r as [a|e]; [|done].
    destruct (collect rest) as [l'|e]; [|done].
    intros [= <-]. simpl. f_equal. by apply IH.
Qed.

(** [ensureDirectoryExists] swallows every error. *)
Lemma ensureDirectoryExists_total w :
  ∃ w', ensureDirectoryExists w = (Ok (), w').
Proof.
  unfold ensureDirectoryExists. run_handlers.
  destruct (faults w) as [|[] [|[] plan]] eqn:Hplan; simpl; eauto;
    destruct (_ || _); simpl; rewrite ?Hplan; simpl; eauto.
Qed.

End ImageFacts.

(** ** The other rules of [validateForm] *)

Module RuleFacts.
Import SignupForm ValidationFacts.

Lemma newErrors_fullName d now :
  newErrors d now !! "fullName" =
    if negb (JsString.truthy (JsString.trim (fullName d)))
    then Some "Full name is required"
    else if JsString.length (JsString.trim (fullName d)) <? 2
    then Some "Full name must be at least 2 characters"
    else None.
Proof. lookup_newErrors. Qed.

Lemma newErrors_confirmPassword d now :
  newErrors d now !! "confirmPassword" =
    if negb (JsString.truthy (confirmPassword d))
    then Some "Please confirm your password"
    else if negb (bool_decide (password d = confirmPassword d))
    then Some "Passwords do not match"
    else None.
Proof. lookup_newErrors. Qed.

Lemma newErrors_bio d now :
  newErrors d now !! "bio" =
    if negb (JsString.truthy (JsString.trim (bio d)))
    then Some "Bio is required"
    else if JsString.length (JsString.trim (bio d)) <? 10
    then Some "Bio must be at least 10 characters"
    else None.
Proof. lookup_newErrors. Qed.

Lemma newErrors_country d now :
  newErrors d now !! "country" =
    if negb (JsString.truthy (country d))
    then Some "Please select a country" else None.
Proof. lookup_newErrors. Qed.

Lemma newErrors_gender d now :
  newErrors d now !! "gender" =
    if negb (JsString.truthy (gender d))
    then Some "Please select a gender" else None.
Proof. lookup_newErrors. Qed.

Lemma newErrors_acceptTerms d now :
  newErrors d now !! "acceptTerms" =
    if negb (acceptTerms d)
    then Some "You must accept the terms and conditions" else None.
Proof. lookup_newErrors. Qed.

(** A key that is not one of the nine has no entry. *)
Lemma newErrors_other d now key :
  key ∉ ["fullName"; "email"; "password"; "confirmPassword"; "bio";
         "country"; "gender"; "acceptTerms"; "dateOfBirth"] →
  newErrors d now !! key = None.
Proof.
  intros Hkey.
  cbv beta delta [newErrors]. name_layers.
  repeat (lazymatch goal with
          | |- context [?m !! _] => is_var m; unfold m; clear m
          end;
          first [ rewrite lookup_if3 | rewrite lookup_if2
                | rewrite lookup_if1 | rewrite lookup_match
                | rewrite lookup_empty ];
          try (rewrite bool_decide_eq_false_2
                 by (intros <-; apply Hkey; repeat constructor))).
  reflexivity.
Qed.

Lemma truthy_false s : JsString.truthy s = false ↔ s = "".
Proof. by destruct s. Qed.

Lemma truthy_true s : JsString.truthy s = true ↔ s ≠ "".
Proof. by destruct s. Qed.

End RuleFacts.

Module TrimFacts.

Lemma trimStart_blank s :
  JsString.every JsString.is_space s = true → JsString.trimStart s = "".
Proof.
  induction s as [|c s IH]; simpl; [done|].
  intros [Hc Hs]%andb_true_iff. rewrite Hc. by apply IH.
Qed.

(** [trim] gives the empty string exactly on strings of white space. *)
Lemma trim_blank s :
  JsString.trim s = "" ↔ JsString.every JsString.is_space s = true.
Proof.
  split; [apply EmailFacts.trim_empty|].
  intros Hs. unfold JsString.trim. by rewrite trimStart_blank.
Qed.

Lemma trim_not_blank s :
  JsString.truthy (JsString.trim s) = true
  ↔ JsString.every JsString.is_space s = false.
Proof.
  rewrite RuleFacts.truthy_true, trim_blank. by destruct (JsString.every _ _).
Qed.

End TrimFacts.

(** X1.  The full-name and bio rules of [validateForm]: a value made of
    white space only (the empty string included) yields the "required"
    message; otherwise the value is measured after trimming, and a trimmed
    length below 2 (full name) or below 10 (bio) yields the "at least"
    message; there is no entry exactly when the trimmed length reaches the
    minimum. *)
Theorem text_rules (d : FormData) (now : Instant) :
  let errors := SignupForm.newErrors d now in
  (JsString.every JsString.is_space (fullName d) = true →
   errors !! "fullName" = Some "Full name is required")
  ∧ (JsString.every JsString.is_space (fullName d) = false →
     JsString.length (JsString.trim (fullName d)) < 2 →
     errors !! "fullName" = Some "Full name must be at least 2 characters")
  ∧ (errors !! "fullName" = None ↔
     2 ≤ JsString.length (JsString.trim (fullName d)))
  ∧ (JsString.every JsString.is_space (bio d) = true →
     errors !! "bio" = Some "Bio is required")
  ∧ (JsString.every JsString.is_space (bio d) = false →
     JsString.length (JsString.trim (bio d)) < 10 →
     errors !! "bio" = Some "Bio must be at least 10 characters")
  ∧ (errors !! "bio" = None ↔
     10 ≤ JsString.length (JsString.trim (bio d))).
Proof.
  intros errors. subst errors.
  rewrite RuleFacts.newErrors_fullName, RuleFacts.newErrors_bio.
  assert (∀ s n msg1 msg2, 0 < n →
    (JsString.every JsString.is_space s = true →
     (if negb (JsString.truthy (JsString.trim s)) then Some msg1
      else if JsString.length (JsString.trim s) <? n then Some msg2
      else None) = Some msg1)
    ∧ (JsString.every JsString.is_space s = false →
       JsString.length (JsString.trim s) < n →
       (if negb (JsString.truthy (JsString.trim s)) then Some msg1
        else if JsString.length (JsString.trim s) <? n then Some msg2
        else None) = Some msg2)
    ∧ ((if negb (JsString.truthy (JsString.trim s)) then Some msg1
        else if JsString.length (JsString.trim s) <? n then Some msg2
        else None) = None (A := string)
       ↔ n ≤ JsString.length (JsString.trim s))) as Hrule.
  { intros s n msg1 msg2 Hn. split; [|split].
    - intros ->%TrimFacts.trim_blank. reflexivity.
    - intros ->%TrimFacts.trim_not_blank Hlen%Z.ltb_lt. simpl.
      by rewrite Hlen.
    - destruct (JsString.trim s) as [|c t] eqn:Htrim; simpl.
      + split; [discriminate|]. unfold JsString.length. simpl. lia.
      + destruct (Z.ltb_spec (JsString.length (String c t)) n);
          split; try done; lia. }
  destruct (Hrule (fullName d) 2 "Full name is required"
              "Full name must be at least 2 characters") as (? & ? & ?); [lia|].
  destruct (Hrule (bio d) 10 "Bio is required"
              "Bio must be at least 10 characters") as (? & ? & ?); [lia|].
  done.
Qed.

Lemma text_rules_witness :
  SignupForm.newErrors (set_field F_fullName "   " Examples.ada)
    Examples.june2025 !! "fullName" = Some "Full name is required"
  ∧ SignupForm.newErrors (set_field F_fullName " A " Examples.ada)
      Examples.june2025 !! "fullName"
    = Some "Full name must be at least 2 characters"
  ∧ SignupForm.newErrors (set_field F_bio "  too short  " Examples.ada)
      Examples.june2025 !! "bio" = Some "Bio must be at least 10 characters"
  ∧ SignupForm.newErrors Examples.ada Examples.june2025 !! "bio" = None.
Proof.
  destruct (text_rules (set_field F_fullName "   " Examples.ada)
              Examples.june2025) as (Hblank & _).
  destruct (text_rules (set_field F_fullName " A " Examples.ada)
              Examples.june2025) as (_ & Hshort & _).
  destruct (text_rules (set_field F_bio "  too short  " Examples.ada)
              Examples.june2025) as (_ & _ & _ & _ & Hbio & _).
  destruct (text_rules Examples.ada Examples.june2025)
    as (_ & _ & _ & _ & _ & Hok).
  split; [|split; [|split]].
  - apply Hblank. reflexivity.
  - apply Hshort; reflexivity.
  - apply Hbio; reflexivity.
  - apply Hok. discriminate.
Defined.

(** X2.  The confirm-password rule of [validateForm]: an empty
    confirmation yields "Please confirm your password"; a non-empty
    confirmation that differs from the password in any character yields
    "Passwords do not match"; there is no entry exactly when the
    confirmation is non-empty and equal to the password as typed (no
    trimming, no case folding). *)
Theorem confirmPassword_rule (d : FormData) (now : Instant) :
  let entry := SignupForm.newErrors d now !! "confirmPassword" in
  (confirmPassword d = "" → entry = Some "Please confirm your password")
  ∧ (confirmPassword d ≠ "" → confirmPassword d ≠ password d →
     entry = Some "Passwords do not match")
  ∧ (entry = None ↔ confirmPassword d ≠ "" ∧ confirmPassword d = password d).
Proof.
  intros entry. subst entry. rewrite RuleFacts.newErrors_confirmPassword.
  destruct (confirmPassword d) as [|c s] eqn:Hc; simpl.
  - split; [done|]. split; [done|]. split; [discriminate|]. by intros [? _].
  - case_bool_decide as Heq; simpl.
    + split; [done|]. split; [congruence|]. done.
    + split; [done|]. split; [done|]. split; [discriminate|].
      intros [_ ?]. congruence.
Qed.

Lemma confirmPassword_rule_witness :
  SignupForm.newErrors (set_field F_confirmPassword "" Examples.ada)
    Examples.june2025 !! "confirmPassword"
  = Some "Please confirm your password"
  ∧ SignupForm.newErrors (set_field F_confirmPassword "GoodPass1 " Examples.ada)
      Examples.june2025 !! "confirmPassword" = Some "Passwords do not match"
  ∧ SignupForm.newErrors Examples.ada Examples.june2025 !! "confirmPassword"
    = None.
Proof.
  destruct (confirmPassword_rule (set_field F_confirmPassword "" Examples.ada)
              Examples.june2025) as (Hrequired & _).
  destruct (confirmPassword_rule
              (set_field F_confirmPassword "GoodPass1 " Examples.ada)
              Examples.june2025) as (_ & Hmismatch & _).
  destruct (confirmPassword_rule Examples.ada Examples.june2025)
    as (_ & _ & Hok).
  split; [|split].
  - apply Hrequired. reflexivity.
  - apply Hmismatch; discriminate.
  - apply Hok. split; [discriminate | reflexivity].
Defined.

(** X3.  The country, gender and terms rules of [validateForm]: the entry
    is present exactly when the country (the gender) is the empty string,
    respectively when the terms are not accepted.  Any non-empty country or
    gender passes: the value is not compared with the options offered. *)
Theorem selection_rules (d : FormData) (now : Instant) :
  let errors := SignupForm.newErrors d now in
  (errors !! "country" =
     if bool_decide (country d = "") then Some "Please select a country"
     else None)
  ∧ (errors !! "gender" =
       if bool_decide (gender d = "") then Some "Please select a gender"
       else None)
  ∧ (errors !! "acceptTerms" =
       if acceptTerms d then None
       else Some "You must accept the terms and conditions").
Proof.
  intros errors. subst errors.
  rewrite RuleFacts.newErrors_country, RuleFacts.newErrors_gender,
    RuleFacts.newErrors_acceptTerms.
  by destruct (country d), (gender d), (acceptTerms d).
Qed.

(** X4.  [validateForm] never throws, and it answers [true] exactly when
    the draft passes all nine rules at once: trimmed full name of length 2
    or more, an email of the accepted shape, a password of length 8 or more
    that the strength expression matches, a confirmation equal to the
    password, a trimmed bio of length 10 or more, a country, a gender,
    accepted terms, and a date of birth that is present and not less than
    13 calendar years back. *)
Theorem validateForm_true_iff (w : World) (now : Instant) :
  let d := formData w in
  (∃ valid, outcome (SignupForm.validateForm now) w = Ok valid)
  ∧ (outcome (SignupForm.validateForm now) w = Ok true ↔
     2 ≤ JsString.length (JsString.trim (fullName d))
     ∧ email_shape (email d)
     ∧ 8 ≤ JsString.length (password d)
     ∧ SignupForm.passwordRegex_test (password d) = true
     ∧ confirmPassword d = password d
     ∧ 10 ≤ JsString.length (JsString.trim (bio d))
     ∧ country d ≠ ""
     ∧ gender d ≠ ""
     ∧ acceptTerms d = true
     ∧ ∃ dob, dateOfBirth d = Some dob
              ∧ ∀ year, getFullYear dob = Some year →
                        13 ≤ instant_year now - year).
Proof.
  intros d. subst d. split; [by eexists|].
  rewrite ValidateFacts.validateForm_valid.
  pose proof (text_rules_aux := RuleFacts.newErrors_fullName (formData w) now).
  split.
  - intros Hempty.
    assert (∀ key, SignupForm.newErrors (formData w) now !! key = None) as Hnone
      by (intros key; by rewrite Hempty).
    pose proof (Hnone "fullName") as Hname.
    pose proof (Hnone "email") as Hemail.
    pose proof (Hnone "password") as Hpassword.
    pose proof (Hnone "confirmPassword") as Hconfirm.
    pose proof (Hnone "bio") as Hbio.
    pose proof (Hnone "country") as Hcountry.
    pose proof (Hnone "gender") as Hgender.
    pose proof (Hnone "acceptTerms") as Hterms.
    pose proof (Hnone "dateOfBirth") as Hdob.
    rewrite RuleFacts.newErrors_fullName in Hname.
    rewrite ValidationFacts.newErrors_email in Hemail.
    rewrite ValidationFacts.newErrors_password in Hpassword.
    rewrite RuleFacts.newErrors_confirmPassword in Hconfirm.
    rewrite RuleFacts.newErrors_bio in Hbio.
    rewrite RuleFacts.newErrors_country in Hcountry.
    rewrite RuleFacts.newErrors_gender in Hgender.
    rewrite RuleFacts.newErrors_acceptTerms in Hterms.
    rewrite ValidationFacts.newErrors_dateOfBirth in Hdob.
    clear Hnone Hempty text_rules_aux.
    repeat match goal with
           | H : (if ?c then Some _ else _) = None |- _ =>
               destruct c eqn:?; [discriminate|]
           end.
    repeat match goal with
           | H : negb _ = false |- _ => apply negb_false_iff in H
           | H : (_ <? _) = false |- _ => apply Z.ltb_ge in H
           | H : bool_decide _ = true |- _ => apply bool_decide_eq_true in H
           end.
    split; [done|]. split; [by apply EmailFacts.validateEmail_shape|].
    split; [done|]. split; [done|]. split; [done|]. split; [done|].
    split; [by apply RuleFacts.truthy_true|].
    split; [by apply RuleFacts.truthy_true|]. split; [done|].
    destruct (dateOfBirth (formData w)) as [dob|]; [|discriminate].
    exists dob. split; [done|]. intros year Hyear.
    rewrite Hyear in Hdob. simpl in Hdob.
    destruct (Z.ltb_spec (instant_year now - year) 13); [discriminate | lia].
  - intros (Hname & Hemail & Hlen & Hstrong & Hconfirm & Hbio & Hcountry
            & Hgender & Hterms & dob & Hdob & Hage).
    apply EmailFacts.validateEmail_shape in Hemail.
    apply map_eq. intros key. rewrite lookup_empty.
    destruct (decide (key ∈ ["fullName"; "email"; "password";
                             "confirmPassword"; "bio"; "country"; "gender";
                             "acceptTerms"; "dateOfBirth"])) as [Hin|Hout];
      [|by apply RuleFacts.newErrors_other].
    assert (JsString.truthy (password (formData w)) = true) as Hpw.
    { destruct (password (formData w)); [by compute in Hlen | done]. }
    assert (∀ s n, 0 < n → n ≤ JsString.length (JsString.trim s) →
              JsString.truthy (JsString.trim s) = true) as Htrim.
    { intros s n Hn. destruct (JsString.trim s); [|done].
      unfold JsString.length. simpl. lia. }
    repeat (apply elem_of_cons in Hin as [->|Hin]); [..|by apply elem_of_nil in Hin].
    + rewrite RuleFacts.newErrors_fullName, (Htrim _ 2) by (done || lia).
      simpl. by apply Z.ltb_ge in Hname as ->.
    + rewrite ValidationFacts.newErrors_email, Hemail.
      assert (JsString.truthy (JsString.trim (email (formData w))) = true) as ->;
        [|done].
      destruct (JsString.trim (email (formData w))) eqn:Hblank; [|done].
      apply EmailFacts.blank_not_email in Hblank. congruence.
    + rewrite ValidationFacts.newErrors_password, Hpw, Hstrong. simpl.
      by apply Z.ltb_ge in Hlen as ->.
    + rewrite RuleFacts.newErrors_confirmPassword, Hconfirm, Hpw. simpl.
      by rewrite bool_decide_eq_true_2.
    + rewrite RuleFacts.newErrors_bio, (Htrim _ 10) by (done || lia).
      simpl. by apply Z.ltb_ge in Hbio as ->.
    + rewrite RuleFacts.newErrors_country.
      by apply RuleFacts.truthy_true in Hcountry as ->.
    + rewrite RuleFacts.newErrors_gender.
      by apply RuleFacts.truthy_true in Hgender as ->.
    + by rewrite RuleFacts.newErrors_acceptTerms, Hterms.
    + rewrite ValidationFacts.newErrors_dateOfBirth, Hdob.
      destruct (getFullYear dob) as [year|] eqn:Hyear; simpl; [|done].
      specialize (Hage year eq_refl).
      by destruct (Z.ltb_spec (instant_year now - year) 13); [lia|].
Qed.

(** X5.  [validateForm] reports under nine keys only, and never under
    [hobbies]: the hobbies of a draft play no part in its validation. *)
Theorem hobbies_not_validated (d : FormData) (now : Instant) :
  (∀ key, is_Some (SignupForm.newErrors d now !! key) →
     key ∈ ["fullName"; "email"; "password"; "confirmPassword"; "bio";
            "country"; "gender"; "acceptTerms"; "dateOfBirth"])
  ∧ SignupForm.newErrors d now !! "hobbies" = None
  ∧ ∀ chosen, SignupForm.newErrors (set_field F_hobbies chosen d) now
              = SignupForm.newErrors d now.
Proof.
  split; [|split].
  - intros key [text Htext].
    destruct (decide (key ∈ ["fullName"; "email"; "password";
                             "confirmPassword"; "bio"; "country"; "gender";
                             "acceptTerms"; "dateOfBirth"])) as [Hin|Hout];
      [done|].
    rewrite RuleFacts.newErrors_other in Htext by done. discriminate.
  - apply RuleFacts.newErrors_other. intros Hin.
    repeat (apply elem_of_cons in Hin as [?|Hin]; [discriminate|]).
    by apply elem_of_nil in Hin.
  - intros chosen. reflexivity.
Qed.

Lemma validateForm_true_iff_witness :
  outcome (SignupForm.validateForm Examples.june2025)
    (Examples.editing Examples.ada) = Ok true.
Proof.
  destruct (validateForm_true_iff (Examples.editing Examples.ada)
              Examples.june2025) as (_ & _ & Hpasses).
  apply Hpasses.
  split; [discriminate|].
  split; [exists "ada", "example", "org"; by repeat split|].
  split; [discriminate|]. split; [reflexivity|]. split; [reflexivity|].
  split; [discriminate|]. split; [discriminate|]. split; [discriminate|].
  split; [reflexivity|].
  eexists. split; [reflexivity|]. intros year [= <-]. discriminate.
Defined.

Lemma hobbies_not_validated_witness :
  "email" ∈ ["fullName"; "email"; "password"; "confirmPassword"; "bio";
             "country"; "gender"; "acceptTerms"; "dateOfBirth"].
Proof.
  destruct (hobbies_not_validated emptyFormData Examples.june2025)
    as (Hkeys & _).
  apply Hkeys. eexists. reflexivity.
Defined.

(** ** Submitting a draft that is not ready *)

Section SubmitEdgeFacts.
Context `{Platform}.
Import SignupForm.

Lemma handleSubmit_invalid_run w now stamp :
  newErrors (formData w) now ≠ ∅ →
  handleSubmit now stamp w =
    (Ok (),
     set_toast (fun _ => mkToast true "Please fix the errors in the form"
                           toast_error)
       (set_errors (fun _ => newErrors (formData w) now) w)).
Proof.
  intros Hinvalid. unfold handleSubmit.
  rewrite bind_run. unfold gets at 1. cbv beta iota.
  rewrite bind_run, ValidateFacts.validateForm_run.
  rewrite bool_decide_eq_false_2 by (by rewrite map_size_empty_iff).
  reflexivity.
Qed.

(** X6.  [handleSubmit] on a draft that fails validation: it ends without
    error, installs the error mapping of the draft and shows the toast
    "Please fix the errors in the form"; it makes no call to the store
    (store, files and fault plan are as before), shows no alert, writes
    nothing to the console and keeps every entered value. *)
Theorem handleSubmit_invalid (w : World) (now stamp : Instant) :
  newErrors (formData w) now ≠ ∅ →
  let w' := after (handleSubmit now stamp) w in
  outcome (handleSubmit now stamp) w = Ok ()
  ∧ errors w' = newErrors (formData w) now
  ∧ toast w' = mkToast true "Please fix the errors in the form" toast_error
  ∧ formData w' = formData w
  ∧ items w' = items w ∧ files w' = files w ∧ faults w' = faults w
  ∧ alerts w' = alerts w ∧ console w' = console w.
Proof.
  intros Hinvalid w'. subst w'. unfold outcome, after.
  rewrite handleSubmit_invalid_run by done. done.
Qed.

(** X7.  A draft whose date of birth is an invalid date gets no entry
    under [dateOfBirth]; when its other fields pass, [handleSubmit] throws
    a [RangeError] while formatting the record: nothing is stored, no toast
    and no alert is shown. *)
Theorem handleSubmit_invalid_date (w : World) (now stamp : Instant) :
  dateOfBirth (formData w) = Some InvalidDate →
  newErrors (formData w) now !! "dateOfBirth" = None
  ∧ (newErrors (formData w) now = ∅ →
     let w' := after (handleSubmit now stamp) w in
     outcome (handleSubmit now stamp) w = Err RangeError
     ∧ items w' = items w ∧ faults w' = faults w
     ∧ toast w' = toast w ∧ alerts w' = alerts w ∧ console w' = console w).
Proof.
  intros Hdob. split.
  - by rewrite ValidationFacts.newErrors_dateOfBirth, Hdob.
  - intros Hvalid w'. subst w'. unfold outcome, after.
    assert (handleSubmit now stamp w
            = (Err RangeError, set_errors (fun _ => ∅) w)) as ->; [|done].
    unfold handleSubmit.
    rewrite bind_run. unfold gets at 1. cbv beta iota.
    rewrite bind_run, ValidateFacts.validateForm_run, Hvalid, map_size_empty.
    rewrite bool_decide_eq_true_2 by done. cbv beta iota.
    rewrite bind_run. unfold formattedData. by rewrite Hdob.
Qed.

End SubmitEdgeFacts.

Lemma handleSubmit_invalid_witness :
  let w := Examples.editing (set_field F_email "a@b" Examples.ada) in
  items (after (SignupForm.handleSubmit (H := RefPlatform.platform)
                  Examples.june2025 Examples.june2025) w) = items w
  ∧ errors (after (SignupForm.handleSubmit (H := RefPlatform.platform)
                     Examples.june2025 Examples.june2025) w) !! "email"
    = Some "Please enter a valid email address".
Proof.
  intros w.
  destruct (handleSubmit_invalid (H := RefPlatform.platform) w
              Examples.june2025 Examples.june2025)
    as (_ & Herrors & _ & _ & Hitems & _).
  - intros Hempty.
    assert (SignupForm.newErrors (formData w) Examples.june2025 !! "email"
            = None) as Hnone by (by rewrite Hempty).
    discriminate Hnone.
  - split; [exact Hitems|]. rewrite Herrors. reflexivity.
Defined.

Lemma handleSubmit_invalid_date_witness :
  let w := Examples.editing
             (set_field F_dateOfBirth (Some InvalidDate) Examples.ada) in
  outcome (SignupForm.handleSubmit (H := RefPlatform.platform)
             Examples.june2025 Examples.june2025) w = Err RangeError
  ∧ items (after (SignupForm.handleSubmit (H := RefPlatform.platform)
                    Examples.june2025 Examples.june2025) w) = items w.
Proof.
  intros w.
  destruct (handleSubmit_invalid_date (H := RefPlatform.platform) w
              Examples.june2025 Examples.june2025 eq_refl) as (_ & Hthrows).
  destruct Hthrows as (Herr & Hitems & _); [vm_compute; reflexivity|].
  split; [exact Herr | exact Hitems].
Defined.

(** ** Sequences of edits *)

Module EditFacts.
Import SignupForm.

Lemma handleInputChange_after (name : Field) (value : field_type name) w :
  after (handleInputChange name value) w =
    if has_error (errors w) (field_name name)
    then set_errors (insert (field_name name) "")
           (set_formData (set_field name value) w)
    else set_formData (set_field name value) w.
Proof. unfold after. by rewrite UpdateFacts.handleInputChange_run. Qed.

Lemma set_field_commute f g (v : field_type f) (u : field_type g) d :
  f ≠ g → set_field f v (set_field g u d) = set_field g u (set_field f v d).
Proof. by destruct f, g. Qed.

Lemma set_field_overwrite f (v1 v2 : field_type f) d :
  set_field f v2 (set_field f v1 d) = set_field f v2 d.
Proof. by destruct f. Qed.

Lemma has_error_insert_blank errs key other :
  has_error (<[key:=""]> errs) other =
    if bool_decide (key = other) then false else has_error errs other.
Proof.
  unfold has_error. case_bool_decide as Hkey.
  - subst. by rewrite lookup_insert_eq.
  - by rewrite lookup_insert_ne.
Qed.

Lemma world_eq w1 w2 :
  formData w1 = formData w2 → errors w1 = errors w2 → toast w1 = toast w2 →
  items w1 = items w2 → files w1 = files w2 →
  directories w1 = directories w2 → faults w1 = faults w2 →
  console w1 = console w2 → alerts w1 = alerts w2 → w1 = w2.
Proof. destruct w1, w2. simpl. by intros -> -> -> -> -> -> -> -> ->. Qed.

End EditFacts.

(** X8.  Edits of two different fields commute: made in either order
    they leave the same draft, the same error mapping and the same
    device. *)
Theorem handleInputChange_commute (name1 name2 : Field)
    (value1 : field_type name1) (value2 : field_type name2) (w : World) :
  name1 ≠ name2 →
  after (SignupForm.handleInputChange name2 value2)
    (after (SignupForm.handleInputChange name1 value1) w)
  = after (SignupForm.handleInputChange name1 value1)
      (after (SignupForm.handleInputChange name2 value2) w).
Proof.
  intros Hne.
  assert (field_name name1 ≠ field_name name2) as Hkeys
    by (intros Heq%UpdateFacts.field_name_inj; done).
  rewrite !EditFacts.handleInputChange_after.
  destruct (SignupForm.has_error (errors w) (field_name name1)) eqn:H1,
           (SignupForm.has_error (errors w) (field_name name2)) eqn:H2;
    cbn [errors set_errors set_formData];
    rewrite ?EditFacts.has_error_insert_blank,
      ?bool_decide_eq_false_2, ?H1, ?H2 by done;
    apply EditFacts.world_eq; cbn; try done;
    try (by apply EditFacts.set_field_commute);
    by apply insert_insert_ne.
Qed.

Lemma handleInputChange_commute_witness :
  after (SignupForm.handleInputChange F_email "ada@example.org")
    (after (SignupForm.handleInputChange F_fullName "Ada") Examples.mounted)
  = after (SignupForm.handleInputChange F_fullName "Ada")
      (after (SignupForm.handleInputChange F_email "ada@example.org")
         Examples.mounted).
Proof.
  apply (handleInputChange_commute F_fullName F_email "Ada" "ada@example.org"
           Examples.mounted).
  discriminate.
Defined.

(** X9.  Of two successive edits of one field the last one wins: the
    result is that of the second edit alone, draft, error mapping and
    device alike. *)
Theorem handleInputChange_last_wins (name : Field)
    (value1 value2 : field_type name) (w : World) :
  after (SignupForm.handleInputChange name value2)
    (after (SignupForm.handleInputChange name value1) w)
  = after (SignupForm.handleInputChange name value2) w.
Proof.
  rewrite !EditFacts.handleInputChange_after.
  destruct (SignupForm.has_error (errors w) (field_name name)) eqn:H1;
    cbn [errors set_errors set_formData];
    rewrite ?EditFacts.has_error_insert_blank, ?bool_decide_eq_true_2, ?H1
      by done;
    apply EditFacts.world_eq; cbn; try done;
    by apply EditFacts.set_field_overwrite.
Qed.

(** X10.  An edit never puts a key into the error mapping and never
    makes an error appear: the keys are those of before, the edited field
    shows no error afterwards (whether it had an entry or not), and every
    other field shows an error exactly when it did before. *)
Theorem handleInputChange_no_new_error (name : Field)
    (value : field_type name) (w : World) :
  let w' := after (SignupForm.handleInputChange name value) w in
  dom (errors w') = dom (errors w)
  ∧ SignupForm.has_error (errors w') (field_name name) = false
  ∧ ∀ key, key ≠ field_name name →
      SignupForm.has_error (errors w') key
      = SignupForm.has_error (errors w) key.
Proof.
  intros w'. subst w'. rewrite EditFacts.handleInputChange_after.
  destruct (SignupForm.has_error (errors w) (field_name name)) eqn:Herr;
    cbn [errors set_errors set_formData].
  - split; [|split].
    + rewrite dom_insert_L.
      assert (field_name name ∈ dom (errors w)) as Hin.
      { apply elem_of_dom. unfold SignupForm.has_error in Herr.
        by destruct (errors w !! field_name name). }
      apply set_eq. intros key.
      rewrite elem_of_union, elem_of_singleton.
      split; [by intros [->|?] | by right].
    + rewrite EditFacts.has_error_insert_blank.
      by rewrite bool_decide_eq_true_2.
    + intros key Hkey. rewrite EditFacts.has_error_insert_blank.
      by rewrite bool_decide_eq_false_2.
  - done.
Qed.

Lemma handleInputChange_no_new_error_witness :
  SignupForm.has_error
    (errors (after (SignupForm.handleInputChange F_email "a")
               (set_errors (insert "bio" "Bio is required") Examples.mounted)))
    "bio" = true.
Proof.
  destruct (handleInputChange_no_new_error F_email "a"
              (set_errors (insert "bio" "Bio is required") Examples.mounted))
    as (_ & _ & Hother).
  rewrite (Hother "bio"); [reflexivity | discriminate].
Defined.

(** ** The checkbox group *)

Module CheckboxFacts.
Import FormInput.

Lemma newValues_checked value optionValue :
  optionValue ∈ value →
  checkboxGroup_newValues value optionValue
  = filter (fun v => v ≠ optionValue) value.
Proof.
  intros Hin. unfold checkboxGroup_newValues.
  by rewrite bool_decide_eq_true_2.
Qed.

Lemma newValues_unchecked value optionValue :
  optionValue ∉ value →
  checkboxGroup_newValues value optionValue = value ++ [optionValue].
Proof.
  intros Hout. unfold checkboxGroup_newValues.
  by rewrite bool_decide_eq_false_2.
Qed.

Lemma filter_other_idem (optionValue : string) (value : list string) :
  filter (fun v => v ≠ optionValue) (filter (fun v => v ≠ optionValue) value)
  = filter (fun v => v ≠ optionValue) value.
Proof.
  induction value as [|x rest IH]; [done|].
  rewrite filter_cons. destruct (decide (x ≠ optionValue)) as [Hx|Hx]; [|done].
  rewrite filter_cons, decide_True by done. by f_equal.
Qed.

Lemma filter_other_absent (optionValue : string) (value : list string) :
  optionValue ∉ value → filter (fun v => v ≠ optionValue) value = value.
Proof.
  induction value as [|x rest IH]; [done|].
  intros [Hx Hrest]%not_elem_of_cons.
  rewrite filter_cons, decide_True by done. f_equal. by apply IH.
Qed.

Lemma filter_other_snoc (optionValue : string) (value : list string) :
  filter (fun v => v ≠ optionValue) (value ++ [optionValue])
  = filter (fun v => v ≠ optionValue) value.
Proof.
  rewrite filter_app, filter_cons, decide_False by (by intros ?).
  by rewrite filter_nil, app_nil_r.
Qed.

End CheckboxFacts.

(** X11.  Pressing a box of a checkbox group flips that option and no
    other: the option is in the new array exactly when it was not in the
    old one, every other option is in the new array exactly when it was in
    the old one, the options kept stay in their order with a newly checked
    one at the end, and an array without repetition stays without
    repetition.  Pressing the box of an unchecked option twice gives the
    array back. *)
Theorem checkboxGroup_toggle (value : list string) (optionValue : string) :
  let newValues := FormInput.checkboxGroup_newValues value optionValue in
  (optionValue ∈ newValues ↔ optionValue ∉ value)
  ∧ (∀ other, other ≠ optionValue → (other ∈ newValues ↔ other ∈ value))
  ∧ filter (fun v => v ≠ optionValue) newValues
    = filter (fun v => v ≠ optionValue) value
  ∧ (NoDup value → NoDup newValues)
  ∧ (optionValue ∉ value →
     FormInput.checkboxGroup_newValues newValues optionValue = value)
  ∧ (optionValue ∉ value → newValues = value ++ [optionValue])
  ∧ (optionValue ∈ value →
     newValues = filter (fun v => v ≠ optionValue) value).
Proof.
  intros newValues. subst newValues.
  destruct (decide (optionValue ∈ value)) as [Hin|Hout].
  - rewrite CheckboxFacts.newValues_checked by done.
    split; [|split; [|split; [|split; [|split; [|split]]]]]; [| | | | |done|done].
    + rewrite list_elem_of_filter. split; [by intros [? _] | done].
    + intros other Hother. rewrite list_elem_of_filter.
      split; [by intros [_ ?] | done].
    + apply CheckboxFacts.filter_other_idem.
    + apply NoDup_filter.
    + done.
  - rewrite CheckboxFacts.newValues_unchecked by done.
    split; [|split; [|split; [|split; [|split; [|split]]]]]; [| | | | |done|done].
    + rewrite elem_of_app, list_elem_of_singleton.
      split; [done | by right].
    + intros other Hother. rewrite elem_of_app, list_elem_of_singleton.
      split; [by intros [?|?] | by left].
    + apply CheckboxFacts.filter_other_snoc.
    + intros Hnodup. apply NoDup_app. split; [done|].
      split; [|apply NoDup_singleton].
      intros x Hx ->%list_elem_of_singleton. done.
    + intros _. rewrite CheckboxFacts.newValues_checked
        by (rewrite elem_of_app, list_elem_of_singleton; auto).
      rewrite CheckboxFacts.filter_other_snoc.
      by apply CheckboxFacts.filter_other_absent.
Qed.

Lemma checkboxGroup_toggle_witness :
  FormInput.checkboxGroup_newValues
    (FormInput.checkboxGroup_newValues ["reading"; "music"] "travel") "travel"
  = ["reading"; "music"]
  ∧ FormInput.checkboxGroup_newValues ["reading"; "music"] "travel"
    = ["reading"; "music"; "travel"]
  ∧ FormInput.checkboxGroup_newValues ["reading"; "music"] "reading"
    = ["music"]
  ∧ NoDup (FormInput.checkboxGroup_newValues ["reading"; "music"] "music").
Proof.
  destruct (checkboxGroup_toggle ["reading"; "music"] "travel")
    as (_ & _ & _ & _ & Htwice & Hend & _).
  destruct (checkboxGroup_toggle ["reading"; "music"] "reading")
    as (_ & _ & _ & _ & _ & _ & Hremoved).
  destruct (checkboxGroup_toggle ["reading"; "music"] "music")
    as (_ & _ & _ & Hnodup & _).
  assert ("travel" ∉ ["reading"; "music"]) as Hout.
  { intros Hin.
    repeat (apply elem_of_cons in Hin as [?|Hin]; [discriminate|]).
    by apply elem_of_nil in Hin. }
  split; [exact (Htwice Hout)|]. split; [exact (Hend Hout)|]. split.
  - rewrite Hremoved; [reflexivity | apply elem_of_cons; by left].
  - apply Hnodup. repeat constructor.
    + intros Hin.
      repeat (apply elem_of_cons in Hin as [?|Hin]; [discriminate|]).
      by apply elem_of_nil in Hin.
    + intros Hin. by apply elem_of_nil in Hin.
Defined.

(** X12.  Pressing a hobby box on the signup form: the draft gets the
    toggled array of hobbies and keeps every other field; when the error
    mapping is the one [validateForm] left, it stays as it is, so the
    errors shown do not move. *)
Theorem hobbies_onPress_effect (optionValue : string) (w : World) :
  let w' := after (FormInput.hobbies_onPress optionValue) w in
  outcome (FormInput.hobbies_onPress optionValue) w = Ok ()
  ∧ hobbies (formData w')
    = FormInput.checkboxGroup_newValues (hobbies (formData w)) optionValue
  ∧ (∀ other, other ≠ F_hobbies →
       get_field other (formData w') = get_field other (formData w))
  ∧ (∀ draft now, errors w = SignupForm.newErrors draft now →
       errors w' = errors w).
Proof.
  intros w'. subst w'. unfold outcome, after, FormInput.hobbies_onPress.
  rewrite !bind_run. unfold gets. cbv beta iota.
  rewrite UpdateFacts.handleInputChange_run. cbn [fst snd].
  split; [done|].
  assert (∀ draft now, errors w = SignupForm.newErrors draft now →
            SignupForm.has_error (errors w) (field_name F_hobbies) = false)
    as Hnone.
  { intros draft now ->. unfold SignupForm.has_error.
    rewrite RuleFacts.newErrors_other; [done|]. intros Hin.
    repeat (apply elem_of_cons in Hin as [?|Hin]; [discriminate|]).
    by apply elem_of_nil in Hin. }
  destruct (SignupForm.has_error (errors w) (field_name F_hobbies)) eqn:Herr;
    cbn [formData errors set_errors set_formData].
  - split; [done|].
    split; [intros other Hother;
            exact (UpdateFacts.get_set_field_ne F_hobbies other _ _ Hother)|].
    intros draft now Hfrom. by specialize (Hnone draft now Hfrom).
  - split; [done|].
    split; [intros other Hother;
            exact (UpdateFacts.get_set_field_ne F_hobbies other _ _ Hother)|].
    done.
Qed.

Lemma hobbies_onPress_effect_witness :
  errors (after (FormInput.hobbies_onPress "travel")
            (after (SignupForm.validateForm Examples.june2025)
               Examples.mounted))
  = errors (after (SignupForm.validateForm Examples.june2025)
              Examples.mounted)
  ∧ get_field F_email
      (formData (after (FormInput.hobbies_onPress "travel")
                   (Examples.editing Examples.ada)))
    = "ada@example.org".
Proof.
  destruct (hobbies_onPress_effect "travel"
              (after (SignupForm.validateForm Examples.june2025)
                 Examples.mounted)) as (_ & _ & _ & Herrors).
  destruct (hobbies_onPress_effect "travel" (Examples.editing Examples.ada))
    as (_ & _ & Hfields & _).
  split.
  - apply (Herrors emptyFormData Examples.june2025). reflexivity.
  - rewrite (Hfields F_email); [reflexivity | discriminate].
Defined.

(** ** Calls into native modules *)

Module NativeFacts.

Lemma accepted_succ n w :
  accepted (S n) w → head (faults w) ≠ Some true ∧ accepted n (advance w).
Proof.
  unfold accepted, advance. destruct w as [? ? ? ? ? ? plan ? ?].
  cbn [faults set_faults].
  destruct plan as [|flag plan]; cbn [take drop head].
  - intros _. split; [done|]. destruct n; apply not_elem_of_nil.
  - rewrite not_elem_of_cons. intros [Hflag Hrest]. split; [congruence|].
    done.
Qed.


Lemma accepted_nil n w : faults w = [] → accepted n w.
Proof. unfold accepted. intros ->. rewrite take_nil. apply not_elem_of_nil. Qed.

Lemma advance_nil w : faults w = [] → advance w = w.
Proof.
  unfold advance. destruct w as [? ? ? ? ? ? plan ? ?]. simpl.
  by intros ->.
Qed.

Lemma native_run {A} (op : M A) w :
  native op w =
    if bool_decide (head (faults w) = Some true)
    then (Err NativeError, advance w)
    else op (advance w).
Proof.
  unfold native. destruct (faults w) as [|[] plan] eqn:Hplan; simpl; try done.
  by rewrite advance_nil.
Qed.

End NativeFacts.

(** ** Reading and writing the store *)

Section StoreRunFacts.
Context `{Platform}.

Lemma getItem_run key w :
  AsyncStorage.getItem key w =
    if bool_decide (rejected w) then (Err NativeError, advance w)
    else (Ok (items w !! key), advance w).
Proof. unfold AsyncStorage.getItem. by rewrite NativeFacts.native_run. Qed.

Lemma setItem_run key text w :
  AsyncStorage.setItem key text w =
    if bool_decide (rejected w) then (Err NativeError, advance w)
    else (Ok (), set_items (insert key text) (advance w)).
Proof. unfold AsyncStorage.setItem. by rewrite NativeFacts.native_run. Qed.

Lemma removeItem_run key w :
  AsyncStorage.removeItem key w =
    if bool_decide (rejected w) then (Err NativeError, advance w)
    else (Ok (), set_items (delete key) (advance w)).
Proof. unfold AsyncStorage.removeItem. by rewrite NativeFacts.native_run. Qed.

Lemma multiRemove_run keys w :
  AsyncStorage.multiRemove keys w =
    if bool_decide (rejected w) then (Err NativeError, advance w)
    else (Ok (), set_items (fun m => foldr delete m keys) (advance w)).
Proof. unfold AsyncStorage.multiRemove. by rewrite NativeFacts.native_run. Qed.

Lemma getStoredFormData_outcome w :
  outcome SignupForm.getStoredFormData w =
    Ok (if bool_decide (rejected w) then VNull
        else reading VNull (items w !! "signupFormData")).
Proof.
  unfold outcome, SignupForm.getStoredFormData.
  rewrite try_catch_run, bind_run, getItem_run.
  case_bool_decide; [done|]. unfold reading, parse.
  destruct (items w !! "signupFormData") as [text|]; [|done].
  destruct (JsString.truthy text); [|done].
  by destruct (JSON_parse text).
Qed.

Lemma getStoredFormData_items w :
  items (after SignupForm.getStoredFormData w) = items w.
Proof.
  unfold after, SignupForm.getStoredFormData.
  rewrite try_catch_run, bind_run, getItem_run.
  case_bool_decide; [done|]. unfold parse.
  destruct (items w !! "signupFormData") as [text|]; [|done].
  destruct (JsString.truthy text); [|done].
  by destruct (JSON_parse text).
Qed.

Lemma getFormData_outcome w :
  outcome StorageManager.getFormData w =
    Ok (if bool_decide (rejected w) then VNull
        else reading VNull (items w !! StorageManager.FORM_DATA_KEY)).
Proof.
  unfold outcome, StorageManager.getFormData.
  rewrite try_catch_run, bind_run, getItem_run.
  case_bool_decide; [done|]. unfold reading, parse.
  destruct (items w !! StorageManager.FORM_DATA_KEY) as [text|]; [|done].
  destruct (JsString.truthy text); [|done].
  by destruct (JSON_parse text).
Qed.

Lemma getSubmittedForms_outcome w :
  outcome StorageManager.getSubmittedForms w =
    Ok (if bool_decide (rejected w) then VArray []
        else reading (VArray []) (items w !! StorageManager.SUBMITTED_FORMS_KEY)).
Proof.
  unfold outcome, StorageManager.getSubmittedForms.
  rewrite try_catch_run, bind_run, getItem_run.
  case_bool_decide; [done|]. unfold reading, parse.
  destruct (items w !! StorageManager.SUBMITTED_FORMS_KEY) as [text|]; [|done].
  destruct (JsString.truthy text); [|done].
  by destruct (JSON_parse text).
Qed.

Lemma reading_round_trip default v :
  round_trips v → reading default (Some (JSON_stringify v 0)) = v.
Proof.
  intros [Hne Hparse]. unfold reading. rewrite Hparse.
  by destruct (JSON_stringify v 0).
Qed.

End StoreRunFacts.

Ltac run_binds :=
  repeat first
    [ rewrite bind_run
    | rewrite try_catch_run
    | progress (unfold lift, mret, M_ret, mthrow, M_throw)
    | progress cbn [toISOString new_Date fst snd]
    | progress cbv beta iota ].

Section DraftStoreFacts.
Context `{Platform}.
Import SignupForm.

Lemma saveFormDataToStorage_valid_run data w :
  dateOfBirth data ≠ Some InvalidDate →
  saveFormDataToStorage data w =
    (Ok (),
     if bool_decide (rejected w)
     then set_console
            (fun c => c ++ [LogError "Error saving form data to storage:"
                              NativeError])
            (advance w)
     else set_console
            (fun c => c ++ [Log "Form data saved to storage successfully"])
            (set_items
               (insert "signupFormData" (JSON_stringify (storageData data) 0))
               (advance w))).
Proof.
  intros Hdob. unfold saveFormDataToStorage, storageData.
  destruct (dateOfBirth data) as [[year iso|]|]; [|done|];
    run_binds; rewrite setItem_run; by case_bool_decide.
Qed.

Lemma saveFormDataToStorage_invalid_run data w :
  dateOfBirth data = Some InvalidDate →
  saveFormDataToStorage data w =
    (Ok (),
     set_console
       (fun c => c ++ [LogError "Error saving form data to storage:" RangeError])
       w).
Proof.
  intros Hdob. unfold saveFormDataToStorage.
  rewrite try_catch_run, bind_run, Hdob. reflexivity.
Qed.

(** X13.  What [saveFormDataToStorage] writes, both readers of the draft
    key read back: on a device that accepts the two calls, with a codec
    that reads back the text it writes for the draft object, saving a draft
    (date of birth absent or valid) and then calling [getStoredFormData] or
    [StorageManager.getFormData] yields the draft object, with
    [dateOfBirth] as an ISO timestamp or [null]; no other key of the store
    changes. *)
Theorem draft_round_trip (data : FormData) (w : World) :
  dateOfBirth data ≠ Some InvalidDate →
  accepted 2 w →
  round_trips (storageData data) →
  let w' := after (saveFormDataToStorage data) w in
  items w' = <["signupFormData" := JSON_stringify (storageData data) 0]> (items w)
  ∧ outcome getStoredFormData w' = Ok (storageData data)
  ∧ outcome StorageManager.getFormData w' = Ok (storageData data).
Proof.
  intros Hdob Hacc Hcodec w'. subst w'. unfold after.
  rewrite saveFormDataToStorage_valid_run by done.
  apply NativeFacts.accepted_succ in Hacc as [Hfirst Hacc].
  apply NativeFacts.accepted_succ in Hacc as [Hsecond _].
  rewrite bool_decide_eq_false_2 by done. cbn [snd].
  rewrite getStoredFormData_outcome, getFormData_outcome.
  unfold rejected. cbn [faults set_console set_items items].
  rewrite bool_decide_eq_false_2 by done.
  split; [done|]. unfold StorageManager.FORM_DATA_KEY.
  rewrite lookup_insert_eq. by rewrite !reading_round_trip.
Qed.

(** X14.  [saveFormDataToStorage] never throws.  When the store rejects
    the write, or when the date of birth is an invalid date (its ISO
    rendering throws before any call is made), the failure goes to the
    console only and the store is as before; in no case does a key other
    than the draft key change.  Every run writes one line to the console,
    the error with its cause on a failure and the success line otherwise,
    and leaves the draft on screen, the errors, the toast, the alerts and
    the files as they were. *)
Theorem saveFormDataToStorage_swallows (data : FormData) (w : World) :
  let w' := after (saveFormDataToStorage data) w in
  outcome (saveFormDataToStorage data) w = Ok ()
  ∧ (rejected w → items w' = items w)
  ∧ (dateOfBirth data = Some InvalidDate →
     items w' = items w ∧ faults w' = faults w)
  ∧ (∀ key, key ≠ "signupFormData" → items w' !! key = items w !! key)
  ∧ (dateOfBirth data = Some InvalidDate →
     console w' = console w
                  ++ [LogError "Error saving form data to storage:" RangeError])
  ∧ (dateOfBirth data ≠ Some InvalidDate → rejected w →
     console w' = console w
                  ++ [LogError "Error saving form data to storage:" NativeError])
  ∧ (dateOfBirth data ≠ Some InvalidDate → ¬ rejected w →
     console w' = console w ++ [Log "Form data saved to storage successfully"])
  ∧ formData w' = formData w ∧ errors w' = errors w ∧ toast w' = toast w
  ∧ alerts w' = alerts w ∧ files w' = files w.
Proof.
  intros w'. subst w'. unfold outcome, after.
  assert (dateOfBirth data = Some InvalidDate
          ∨ dateOfBirth data ≠ Some InvalidDate) as [Hdob|Hdob]
    by (destruct (dateOfBirth data) as [[]|]; auto).
  - rewrite saveFormDataToStorage_invalid_run by done. cbn.
    repeat (split; [done|]). done.
  - rewrite saveFormDataToStorage_valid_run by done.
    case_bool_decide as Hrej; cbn.
    + repeat (split; [done|]). done.
    + split; [done|]. split; [done|]. split; [done|].
      split; [intros key Hkey; by rewrite lookup_insert_ne|].
      repeat (split; [done|]). done.
Qed.

Lemma clearStoredFormData_run w :
  clearStoredFormData w =
    (Ok (),
     if bool_decide (rejected w)
     then set_console
            (fun c => c ++ [LogError "Error clearing stored form data:"
                              NativeError])
            (advance w)
     else set_console (fun c => c ++ [Log "Stored form data cleared"])
            (set_items (delete "signupFormData") (advance w))).
Proof.
  unfold clearStoredFormData.
  rewrite try_catch_run, bind_run, removeItem_run.
  by case_bool_decide.
Qed.

(** X15.  The "Clear Storage" button always ends with the toast "Storage
    cleared successfully".  When the store accepts the removal the draft
    key is gone and every other key is kept; when the store rejects it, the
    store is as before, the stored draft included, and the same toast is
    shown. *)
Theorem clearStorage_always_reports_success (w : World) :
  let w' := after clearStorage_onPress w in
  outcome clearStorage_onPress w = Ok ()
  ∧ toast w' = mkToast true "Storage cleared successfully" toast_info
  ∧ (rejected w → items w' = items w)
  ∧ (¬ rejected w → items w' = delete "signupFormData" (items w)).
Proof.
  intros w'. subst w'. unfold outcome, after, clearStorage_onPress.
  rewrite bind_run, clearStoredFormData_run. unfold showToast, modify.
  by case_bool_decide.
Qed.

(** X16.  The effect run at mount never throws and never writes to the
    store.  It shows the toast "Previous form data found in storage"
    exactly when the read is accepted and the text under the draft key
    parses to a truthy value; a missing key, an empty or unparseable text,
    a stored [null] and a rejected read all leave the toast as it was. *)
Theorem loadStoredData_effect (w : World) :
  let w' := after loadStoredData w in
  let found :=
    negb (bool_decide (rejected w))
    && value_truthy (reading VNull (items w !! "signupFormData")) in
  outcome loadStoredData w = Ok ()
  ∧ items w' = items w
  ∧ toast w' =
      (if found
       then mkToast true "Previous form data found in storage" toast_info
       else toast w)
  ∧ (items w !! "signupFormData" = None → toast w' = toast w)
  ∧ (rejected w → toast w' = toast w)
  ∧ (∀ text, items w !! "signupFormData" = Some text →
       JSON_parse text = None → toast w' = toast w).
Proof.
  intros w' found. subst w' found. unfold outcome, after, loadStoredData.
  rewrite bind_run.
  pose proof (getStoredFormData_outcome w) as Hout.
  pose proof (getStoredFormData_items w) as Hitems.
  unfold getStoredFormData in *.
  rewrite try_catch_run, bind_run, getItem_run in *.
  unfold outcome, after in *.
  case_bool_decide as Hrej; cbn [negb andb].
  { cbn. repeat split; done. }
  unfold reading, parse.
  destruct (items w !! "signupFormData") as [text|]; [|by cbn].
  destruct (JsString.truthy text); [|cbn; repeat split; done].
  destruct (JSON_parse text) as [v|] eqn:Hparse; cbn.
  - destruct (value_truthy v); cbn; repeat split; try done;
      intros text' [= <-]; congruence.
  - repeat split; done.
Qed.

End DraftStoreFacts.

Section ManagerFacts.
Context `{Platform}.
Import StorageManager.

Lemma rejected_faults w1 w2 :
  faults w1 = faults w2 → bool_decide (rejected w1) = bool_decide (rejected w2).
Proof. unfold rejected. by intros ->. Qed.

Lemma saveFormData_run data w :
  saveFormData data w =
    if bool_decide (rejected w)
    then (Err NativeError,
          set_console (fun c => c ++ [LogError "Error saving form data:" NativeError])
            (advance w))
    else (Ok (),
          set_console (fun c => c ++ [Log "Form data saved to storage"])
            (set_items (insert FORM_DATA_KEY (JSON_stringify data 0)) (advance w))).
Proof.
  unfold saveFormData. run_binds. rewrite setItem_run.
  by case_bool_decide.
Qed.

Lemma clearFormData_run w :
  clearFormData w =
    if bool_decide (rejected w)
    then (Err NativeError,
          set_console (fun c => c ++ [LogError "Error clearing form data:" NativeError])
            (advance w))
    else (Ok (),
          set_console (fun c => c ++ [Log "Form data cleared"])
            (set_items (delete FORM_DATA_KEY) (advance w))).
Proof.
  unfold clearFormData. run_binds. rewrite removeItem_run.
  by case_bool_decide.
Qed.

Lemma clearAllData_run w :
  clearAllData w =
    if bool_decide (rejected w)
    then (Err NativeError,
          set_console (fun c => c ++ [LogError "Error clearing all data:" NativeError])
            (advance w))
    else (Ok (),
          set_console (fun c => c ++ [Log "All data cleared"])
            (set_items
               (fun m => delete FORM_DATA_KEY (delete SUBMITTED_FORMS_KEY m))
               (advance w))).
Proof.
  unfold clearAllData. run_binds. rewrite multiRemove_run.
  by case_bool_decide.
Qed.

(** X17.  [StorageManager.saveFormData] fails exactly when the store
    rejects the write, and then rethrows with the store as before.
    Otherwise the draft key holds the serialized value and no other key
    changes; with a codec that reads back what it writes for the value, a
    following [getFormData] that is accepted yields the value saved. *)
Theorem saveFormData_contract (data : value) (w : World) :
  let w' := after (saveFormData data) w in
  (rejected w → outcome (saveFormData data) w = Err NativeError
                ∧ items w' = items w)
  ∧ (¬ rejected w →
     outcome (saveFormData data) w = Ok ()
     ∧ items w' = <[FORM_DATA_KEY := JSON_stringify data 0]> (items w))
  ∧ (accepted 2 w → round_trips data → outcome getFormData w' = Ok data).
Proof.
  intros w'. subst w'. unfold outcome, after. rewrite saveFormData_run.
  split; [|split].
  - intros Hrej. by rewrite bool_decide_eq_true_2.
  - intros Hrej. by rewrite bool_decide_eq_false_2.
  - intros Hacc Hcodec.
    apply NativeFacts.accepted_succ in Hacc as [Hfirst Hacc].
    apply NativeFacts.accepted_succ in Hacc as [Hsecond _].
    rewrite bool_decide_eq_false_2 by done. cbn [snd].
    pose proof (getFormData_outcome
                  (set_console (fun c => c ++ [Log "Form data saved to storage"])
                     (set_items (insert FORM_DATA_KEY (JSON_stringify data 0))
                        (advance w)))) as Hread.
    unfold outcome in Hread. rewrite Hread.
    unfold rejected. cbn [faults set_console set_items items].
    rewrite bool_decide_eq_false_2 by done.
    by rewrite lookup_insert_eq, reading_round_trip.
Qed.

(** X18.  [StorageManager.clearFormData]: when the removal is accepted
    the draft key is gone, every other key is kept, and [getFormData]
    answers [null] from then on; clearing a store that has no draft changes
    nothing in it.  When the removal is rejected the error is rethrown and
    the store is as before. *)
Theorem clearFormData_contract (w : World) :
  let w' := after clearFormData w in
  (rejected w → outcome clearFormData w = Err NativeError ∧ items w' = items w)
  ∧ (¬ rejected w →
     outcome clearFormData w = Ok ()
     ∧ items w' = delete FORM_DATA_KEY (items w)
     ∧ outcome getFormData w' = Ok VNull
     ∧ (items w !! FORM_DATA_KEY = None → items w' = items w)).
Proof.
  intros w'. subst w'. unfold outcome, after. rewrite clearFormData_run.
  split.
  - intros Hrej. by rewrite bool_decide_eq_true_2.
  - intros Hrej. rewrite bool_decide_eq_false_2 by done. cbn [fst snd].
    split; [done|]. split; [done|]. split.
    + pose proof (getFormData_outcome
                    (set_console (fun c => c ++ [Log "Form data cleared"])
                       (set_items (delete FORM_DATA_KEY) (advance w)))) as Hread.
      unfold outcome in Hread. rewrite Hread.
      cbn [faults set_console set_items items].
      rewrite lookup_delete_eq. by destruct (bool_decide _).
    + intros Hnone. cbn. by apply delete_id.
Qed.

(** X19.  [StorageManager.clearAllData]: when the batch removal is
    accepted both keys are gone and every other key is kept, so that
    [getFormData] answers [null] and [getSubmittedForms] the empty array;
    when it is rejected the error is rethrown and the store, draft and
    submitted forms included, is as before. *)
Theorem clearAllData_contract (w : World) :
  let w' := after clearAllData w in
  (rejected w → outcome clearAllData w = Err NativeError ∧ items w' = items w)
  ∧ (¬ rejected w →
     outcome clearAllData w = Ok ()
     ∧ items w' !! FORM_DATA_KEY = None
     ∧ items w' !! SUBMITTED_FORMS_KEY = None
     ∧ (∀ key, key ≠ FORM_DATA_KEY → key ≠ SUBMITTED_FORMS_KEY →
          items w' !! key = items w !! key)
     ∧ outcome getFormData w' = Ok VNull
     ∧ outcome getSubmittedForms w' = Ok (VArray [])).
Proof.
  intros w'. subst w'. unfold outcome, after. rewrite clearAllData_run.
  split.
  - intros Hrej. by rewrite bool_decide_eq_true_2.
  - intros Hrej. rewrite bool_decide_eq_false_2 by done. cbn [fst snd].
    pose proof (getFormData_outcome
                  (set_console (fun c => c ++ [Log "All data cleared"])
                     (set_items
                        (fun m => delete FORM_DATA_KEY (delete SUBMITTED_FORMS_KEY m))
                        (advance w)))) as Hdraft.
    pose proof (getSubmittedForms_outcome
                  (set_console (fun c => c ++ [Log "All data cleared"])
                     (set_items
                        (fun m => delete FORM_DATA_KEY (delete SUBMITTED_FORMS_KEY m))
                        (advance w)))) as Hlist.
    unfold outcome in Hdraft, Hlist. rewrite Hdraft, Hlist.
    cbn [faults set_console set_items items].
    assert (delete FORM_DATA_KEY (delete SUBMITTED_FORMS_KEY (items (advance w)))
              !! FORM_DATA_KEY = None) as Hd by apply lookup_delete_eq.
    assert (delete FORM_DATA_KEY (delete SUBMITTED_FORMS_KEY (items (advance w)))
              !! SUBMITTED_FORMS_KEY = None) as Hl
      by (rewrite lookup_delete_ne by done; apply lookup_delete_eq).
    rewrite Hd, Hl.
    split; [done|]. split; [done|]. split; [done|].
    split; [|split; by destruct (bool_decide _)].
    intros key Hkey1 Hkey2. by rewrite !lookup_delete_ne.
Qed.

End ManagerFacts.

Section CommitFacts.
Context `{Platform}.
Import StorageManager.

(** The run of [saveCompletedRegistration] on a device whose list reads as
    [forms]: its outcome, the store it leaves and the calls it has used. *)
Lemma saveCompletedRegistration_summary data w forms :
  outcome getSubmittedForms w = Ok forms →
  let run := saveCompletedRegistration data in
  match spread forms w with
  | (Err e, _) =>
      outcome run w = Err e ∧ items (after run w) = items w
      ∧ faults (after run w) = faults (advance w)
  | (Ok existing, _) =>
      let json := JSON_stringify (VArray (existing ++ [data])) 0 in
      if bool_decide (rejected (advance w))
      then outcome run w = Err NativeError ∧ items (after run w) = items w
      else if bool_decide (rejected (advance (advance w)))
      then outcome run w = Err NativeError
           ∧ items (after run w) = <[SUBMITTED_FORMS_KEY := json]> (items w)
      else outcome run w = Ok ()
           ∧ items (after run w)
             = delete FORM_DATA_KEY (<[SUBMITTED_FORMS_KEY := json]> (items w))
           ∧ faults (after run w) = faults (advance (advance (advance w)))
  end.
Proof.
  intros Hforms run. subst run. unfold outcome, after in *.
  unfold saveCompletedRegistration. rewrite try_catch_run, bind_run.
  destruct (getSubmittedForms_total w) as (forms' & w1 & Hrun & Hitems & Hfaults).
  rewrite Hrun in Hforms |- *. cbn [fst] in Hforms. injection Hforms as ->.
  cbv beta iota. rewrite bind_run.
  destruct (spread_cases forms) as [[existing Hs]|Hs]; rewrite !Hs.
  2:{ run_binds. unfold console_error, modify. cbn.
      by rewrite Hitems, Hfaults. }
  cbv beta iota. rewrite bind_run, setItem_run.
  unfold rejected. cbn [faults advance set_faults].
  rewrite Hfaults.
  case_bool_decide as Hwrite; cbv beta iota.
  { run_binds. unfold console_error, modify. cbn. by rewrite Hitems. }
  rewrite bind_run, clearFormData_run.
  unfold rejected. cbn [faults advance set_faults set_items]. rewrite Hfaults.
  case_bool_decide as Hclear; run_binds;
    unfold console_error, console_log, modify; cbn;
    rewrite ?Hitems, ?Hfaults; done.
Qed.

(** X20.  A commit is seen by the readers: on a device that accepts the
    calls, whose list reads as an array, and with a codec that reads back
    the extended list, [saveCompletedRegistration] ends well, a following
    [getSubmittedForms] yields the old records in their order followed by
    the new record, a following [getFormData] yields [null], and no key
    other than the two changes. *)
Theorem commit_then_read (data : value) (existing : list value) (w : World) :
  accepted 4 w →
  outcome getSubmittedForms w = Ok (VArray existing) →
  round_trips (VArray (existing ++ [data])) →
  let w' := after (saveCompletedRegistration data) w in
  outcome (saveCompletedRegistration data) w = Ok ()
  ∧ outcome getSubmittedForms w' = Ok (VArray (existing ++ [data]))
  ∧ outcome getFormData w' = Ok VNull
  ∧ (∀ key, key ≠ FORM_DATA_KEY → key ≠ SUBMITTED_FORMS_KEY →
       items w' !! key = items w !! key).
Proof.
  intros Hacc Hforms Hcodec w'. subst w'.
  pose proof (saveCompletedRegistration_summary data w _ Hforms) as Hsum.
  cbn [spread] in Hsum. unfold mret, M_ret in Hsum. cbv zeta in Hsum.
  apply NativeFacts.accepted_succ in Hacc as [H1 Hacc].
  apply NativeFacts.accepted_succ in Hacc as [H2 Hacc].
  apply NativeFacts.accepted_succ in Hacc as [H3 Hacc].
  apply NativeFacts.accepted_succ in Hacc as [H4 _].
  rewrite !bool_decide_eq_false_2 in Hsum by done.
  destruct Hsum as (Hok & Hitems & Hfaults).
  rewrite getSubmittedForms_outcome, getFormData_outcome.
  unfold rejected at 1 2. rewrite Hfaults, Hitems.
  rewrite !bool_decide_eq_false_2 by done.
  rewrite lookup_delete_eq, lookup_delete_ne, lookup_insert_eq by done.
  rewrite reading_round_trip by done.
  split; [done|]. split; [done|]. split; [done|].
  intros key Hk1 Hk2. by rewrite lookup_delete_ne, lookup_insert_ne.
Qed.

(** X21.  Submitted records accumulate in submission order: two commits
    in a row, on a device that accepts the calls and with a codec that
    reads back both lists, leave the old records followed by the first and
    then the second record. *)
Theorem commits_keep_order (first second : value) (existing : list value)
    (w : World) :
  accepted 7 w →
  outcome getSubmittedForms w = Ok (VArray existing) →
  round_trips (VArray (existing ++ [first])) →
  round_trips (VArray (existing ++ [first; second])) →
  outcome getSubmittedForms
    (after (saveCompletedRegistration second)
       (after (saveCompletedRegistration first) w))
  = Ok (VArray (existing ++ [first; second])).
Proof.
  intros Hacc Hforms Hcodec1 Hcodec2.
  pose proof (saveCompletedRegistration_summary first w _ Hforms) as Hsum1.
  cbn [spread] in Hsum1. unfold mret, M_ret in Hsum1. cbv zeta in Hsum1.
  apply NativeFacts.accepted_succ in Hacc as [H1 Hacc].
  apply NativeFacts.accepted_succ in Hacc as [H2 Hacc].
  apply NativeFacts.accepted_succ in Hacc as [H3 Hacc].
  rewrite !bool_decide_eq_false_2 in Hsum1 by done.
  destruct Hsum1 as (_ & Hitems1 & Hfaults1).
  set (w1 := after (saveCompletedRegistration first) w) in *.
  assert (accepted 4 w1) as Hacc1.
  { unfold accepted in *. by rewrite Hfaults1. }
  assert (outcome getSubmittedForms w1 = Ok (VArray (existing ++ [first])))
    as Hforms1.
  { rewrite getSubmittedForms_outcome.
    apply NativeFacts.accepted_succ in Hacc1 as [Hhead _].
    rewrite bool_decide_eq_false_2 by done.
    rewrite Hitems1, lookup_delete_ne, lookup_insert_eq by done.
    by rewrite reading_round_trip. }
  pose proof (saveCompletedRegistration_summary second w1 _ Hforms1) as Hsum2.
  cbn [spread] in Hsum2. unfold mret, M_ret in Hsum2. cbv zeta in Hsum2.
  apply NativeFacts.accepted_succ in Hacc1 as [H4 Hacc1].
  apply NativeFacts.accepted_succ in Hacc1 as [H5 Hacc1].
  apply NativeFacts.accepted_succ in Hacc1 as [H6 Hacc1].
  apply NativeFacts.accepted_succ in Hacc1 as [H7 _].
  rewrite !bool_decide_eq_false_2 in Hsum2 by done.
  destruct Hsum2 as (_ & Hitems2 & Hfaults2).
  rewrite getSubmittedForms_outcome. unfold rejected at 1.
  rewrite Hfaults2, Hitems2. rewrite bool_decide_eq_false_2 by done.
  rewrite lookup_delete_ne, lookup_insert_eq by done.
  replace ((existing ++ [first]) ++ [second])
    with (existing ++ [first; second]) by (by rewrite <- List.app_assoc).
  by rewrite reading_round_trip.
Qed.

(** X22.  [saveCompletedRegistration] is not atomic: when the list is
    written and the removal of the draft is then rejected, the operation
    ends with that error although the record is already in the stored list;
    the draft is still stored. *)
Theorem commit_fails_after_append (data forms : value)
    (existing : list value) (w : World) :
  outcome getSubmittedForms w = Ok forms →
  outcome (spread forms) w = Ok existing →
  ¬ rejected (advance w) →
  rejected (advance (advance w)) →
  let w' := after (saveCompletedRegistration data) w in
  outcome (saveCompletedRegistration data) w = Err NativeError
  ∧ items w' !! SUBMITTED_FORMS_KEY
    = Some (JSON_stringify (VArray (existing ++ [data])) 0)
  ∧ items w' !! FORM_DATA_KEY = items w !! FORM_DATA_KEY.
Proof.
  intros Hforms Hspread Hwrite Hclear w'. subst w'.
  pose proof (saveCompletedRegistration_summary data w _ Hforms) as Hsum.
  unfold outcome in Hspread.
  destruct (spread forms w) as [[existing'|e] w0]; cbn in Hspread; [|done].
  injection Hspread as ->. cbv zeta in Hsum.
  rewrite bool_decide_eq_false_2, bool_decide_eq_true_2 in Hsum by done.
  destruct Hsum as (Herr & Hitems).
  rewrite Hitems. split; [done|].
  split; [apply lookup_insert_eq | by apply lookup_insert_ne].
Qed.

(** X23.  What [saveCompletedRegistration] does with a stored list that
    is not an array.  When the stored text parses to [null], a boolean, a
    number or an object, spreading it throws a [TypeError]: no write is
    attempted and the store is as before.  When the stored text does not
    parse, the list is taken as empty: on a device that accepts the calls
    the text is overwritten by a list that holds the new record only. *)
Theorem commit_on_bad_list (data : value) (w : World) :
  let w' := after (saveCompletedRegistration data) w in
  (∀ forms, outcome getSubmittedForms w = Ok forms →
     (∀ l, forms ≠ VArray l) → (∀ s, forms ≠ VString s) →
     outcome (saveCompletedRegistration data) w = Err TypeError
     ∧ items w' = items w
     ∧ faults w' = faults (advance w))
  ∧ (∀ text, accepted 3 w →
       items w !! SUBMITTED_FORMS_KEY = Some text →
       JSON_parse text = None →
       outcome (saveCompletedRegistration data) w = Ok ()
       ∧ items w' !! SUBMITTED_FORMS_KEY
         = Some (JSON_stringify (VArray [data]) 0)).
Proof.
  intros w'. subst w'. split.
  - intros forms Hforms Harray Hstring.
    pose proof (saveCompletedRegistration_summary data w _ Hforms) as Hsum.
    destruct forms as [| | | | s | l |]; try done;
      [by destruct (Hstring s) | by destruct (Harray l)].
  - intros text Hacc Htext Hparse.
    apply NativeFacts.accepted_succ in Hacc as [H1 Hacc].
    apply NativeFacts.accepted_succ in Hacc as [H2 Hacc].
    apply NativeFacts.accepted_succ in Hacc as [H3 _].
    assert (outcome getSubmittedForms w = Ok (VArray [])) as Hforms.
    { rewrite getSubmittedForms_outcome.
      rewrite bool_decide_eq_false_2 by done.
      unfold reading. rewrite Htext, Hparse. by destruct (JsString.truthy text). }
    pose proof (saveCompletedRegistration_summary data w _ Hforms) as Hsum.
    cbn [spread] in Hsum. unfold mret, M_ret in Hsum. cbv zeta in Hsum.
    rewrite !bool_decide_eq_false_2 in Hsum by done.
    destruct Hsum as (Hok & Hitems & _). split; [done|].
    rewrite Hitems. rewrite lookup_delete_ne by done. apply lookup_insert_eq.
Qed.

End CommitFacts.

(** *** The store extras on the reference platform *)

Lemma draft_round_trip_witness :
  outcome (SignupForm.getStoredFormData (H := RefPlatform.platform))
    (after (SignupForm.saveFormDataToStorage (H := RefPlatform.platform)
              Examples.ada) Examples.mounted)
  = Ok (storageData Examples.ada).
Proof.
  destruct (draft_round_trip (H := RefPlatform.platform) Examples.ada
              Examples.mounted) as (_ & Hread & _).
  - discriminate.
  - by apply NativeFacts.accepted_nil.
  - split; vm_compute; [discriminate | reflexivity].
  - exact Hread.
Defined.

Lemma saveFormDataToStorage_swallows_witness :
  let save := SignupForm.saveFormDataToStorage (H := RefPlatform.platform) in
  let w := set_faults (fun _ => [true]) Examples.mounted in
  let undated := set_field F_dateOfBirth (Some InvalidDate) Examples.ada in
  items (after (save Examples.ada) w) = items w
  ∧ console (after (save Examples.ada) w)
    = [LogError "Error saving form data to storage:" NativeError]
  ∧ items (after (save undated) Examples.mounted) = items Examples.mounted
  ∧ console (after (save undated) Examples.mounted)
    = [LogError "Error saving form data to storage:" RangeError]
  ∧ console (after (save Examples.ada) Examples.mounted)
    = [Log "Form data saved to storage successfully"]
  ∧ items (after (save Examples.ada)
             (set_items (insert "theme" "dark") Examples.mounted)) !! "theme"
    = Some "dark".
Proof.
  intros save w undated.
  destruct (saveFormDataToStorage_swallows (H := RefPlatform.platform)
              Examples.ada w)
    as (_ & Hrejected & _ & _ & _ & Hnative & _).
  destruct (saveFormDataToStorage_swallows (H := RefPlatform.platform)
              undated Examples.mounted)
    as (_ & _ & Hinvalid & _ & Hrange & _).
  destruct (saveFormDataToStorage_swallows (H := RefPlatform.platform)
              Examples.ada Examples.mounted)
    as (_ & _ & _ & _ & _ & _ & Hsaved & _).
  destruct (saveFormDataToStorage_swallows (H := RefPlatform.platform)
              Examples.ada (set_items (insert "theme" "dark") Examples.mounted))
    as (_ & _ & _ & Hother & _).
  split; [apply Hrejected; reflexivity|].
  split; [apply Hnative; [discriminate | reflexivity]|].
  split; [apply Hinvalid; reflexivity|].
  split; [apply Hrange; reflexivity|].
  split; [apply Hsaved; [discriminate | discriminate]|].
  rewrite Hother; [reflexivity | discriminate].
Defined.

Lemma clearStorage_always_reports_success_witness :
  let w := set_faults (fun _ => [true])
             (set_items (insert "signupFormData" "{}") Examples.mounted) in
  items (after SignupForm.clearStorage_onPress w) = items w
  ∧ items (after SignupForm.clearStorage_onPress
             (set_items (insert "signupFormData" "{}") Examples.mounted))
    = delete "signupFormData"
        (items (set_items (insert "signupFormData" "{}") Examples.mounted)).
Proof.
  intros w.
  destruct (clearStorage_always_reports_success w) as (_ & _ & Hkept & _).
  destruct (clearStorage_always_reports_success
              (set_items (insert "signupFormData" "{}") Examples.mounted))
    as (_ & _ & _ & Hgone).
  split.
  - apply Hkept. reflexivity.
  - apply Hgone. discriminate.
Defined.

Lemma loadStoredData_effect_witness :
  toast (after (SignupForm.loadStoredData (H := RefPlatform.platform))
           Examples.mounted) = toast Examples.mounted
  ∧ toast (after (SignupForm.loadStoredData (H := RefPlatform.platform))
             (set_items (insert "signupFormData" "{bad") Examples.mounted))
    = toast Examples.mounted.
Proof.
  destruct (loadStoredData_effect (H := RefPlatform.platform) Examples.mounted)
    as (_ & _ & _ & Hmissing & _).
  destruct (loadStoredData_effect (H := RefPlatform.platform)
              (set_items (insert "signupFormData" "{bad") Examples.mounted))
    as (_ & _ & _ & _ & _ & Hbad).
  split.
  - apply Hmissing. reflexivity.
  - apply (Hbad "{bad"); reflexivity.
Defined.

Lemma saveFormData_contract_witness :
  let data := VObject [("fullName", VString "Ada Lovelace")] in
  outcome (StorageManager.saveFormData (H := RefPlatform.platform) data)
    (set_faults (fun _ => [true]) Examples.mounted) = Err NativeError
  ∧ outcome (StorageManager.saveFormData (H := RefPlatform.platform) data)
      Examples.mounted = Ok ()
  ∧ outcome (StorageManager.getFormData (H := RefPlatform.platform))
      (after (StorageManager.saveFormData (H := RefPlatform.platform) data)
         Examples.mounted) = Ok data.
Proof.
  intros data.
  destruct (saveFormData_contract (H := RefPlatform.platform) data
              (set_faults (fun _ => [true]) Examples.mounted))
    as (Hrejected & _).
  destruct (saveFormData_contract (H := RefPlatform.platform) data
              Examples.mounted) as (_ & Haccepted & Hread).
  split; [|split].
  - apply Hrejected. reflexivity.
  - apply Haccepted. discriminate.
  - apply Hread.
    + by apply NativeFacts.accepted_nil.
    + split; vm_compute; [discriminate | reflexivity].
Defined.

Lemma clearFormData_contract_witness :
  let w := set_items (insert StorageManager.FORM_DATA_KEY "{}") Examples.mounted in
  outcome (StorageManager.getFormData (H := RefPlatform.platform))
    (after StorageManager.clearFormData w) = Ok VNull
  ∧ items (after StorageManager.clearFormData
             (set_faults (fun _ => [true]) w))
    = items (set_faults (fun _ => [true]) w).
Proof.
  intros w.
  destruct (clearFormData_contract (H := RefPlatform.platform) w)
    as (_ & Haccepted).
  destruct (clearFormData_contract (H := RefPlatform.platform)
              (set_faults (fun _ => [true]) w)) as (Hrejected & _).
  split.
  - apply Haccepted. discriminate.
  - apply Hrejected. reflexivity.
Defined.

Lemma clearAllData_contract_witness :
  let w := set_items (insert StorageManager.SUBMITTED_FORMS_KEY "[]")
             (set_items (insert StorageManager.FORM_DATA_KEY "{}")
                (set_items (insert "theme" "dark") Examples.mounted)) in
  items (after StorageManager.clearAllData w) !! "theme" = Some "dark"
  ∧ outcome (StorageManager.getSubmittedForms (H := RefPlatform.platform))
      (after StorageManager.clearAllData w) = Ok (VArray [])
  ∧ items (after StorageManager.clearAllData (set_faults (fun _ => [true]) w))
    = items (set_faults (fun _ => [true]) w).
Proof.
  intros w.
  destruct (clearAllData_contract (H := RefPlatform.platform) w)
    as (_ & Haccepted).
  destruct (clearAllData_contract (H := RefPlatform.platform)
              (set_faults (fun _ => [true]) w)) as (Hrejected & _).
  destruct Haccepted as (_ & _ & _ & Hother & _ & Hlist); [discriminate|].
  split; [|split].
  - rewrite (Hother "theme"); [reflexivity | discriminate | discriminate].
  - exact Hlist.
  - apply Hrejected. reflexivity.
Defined.

Lemma commit_then_read_witness :
  let data := VObject [("fullName", VString "Ada Lovelace")] in
  outcome (StorageManager.getSubmittedForms (H := RefPlatform.platform))
    (after (StorageManager.saveCompletedRegistration
              (H := RefPlatform.platform) data) Examples.mounted)
  = Ok (VArray [data]).
Proof.
  intros data.
  destruct (commit_then_read (H := RefPlatform.platform) data []
              Examples.mounted) as (_ & Hread & _).
  - by apply NativeFacts.accepted_nil.
  - reflexivity.
  - split; vm_compute; [discriminate | reflexivity].
  - exact Hread.
Defined.

Lemma commits_keep_order_witness :
  let first := VObject [("fullName", VString "Ada Lovelace")] in
  let second := VObject [("fullName", VString "Grace Hopper")] in
  outcome (StorageManager.getSubmittedForms (H := RefPlatform.platform))
    (after (StorageManager.saveCompletedRegistration
              (H := RefPlatform.platform) second)
       (after (StorageManager.saveCompletedRegistration
                 (H := RefPlatform.platform) first) Examples.mounted))
  = Ok (VArray [first; second]).
Proof.
  intros first second.
  apply (commits_keep_order (H := RefPlatform.platform) first second []
           Examples.mounted).
  - by apply NativeFacts.accepted_nil.
  - reflexivity.
  - split; vm_compute; [discriminate | reflexivity].
  - split; vm_compute; [discriminate | reflexivity].
Defined.

Lemma commit_fails_after_append_witness :
  let data := VObject [("fullName", VString "Ada Lovelace")] in
  let w := set_faults (fun _ => [false; false; true])
             (set_items (insert StorageManager.FORM_DATA_KEY "{}")
                Examples.mounted) in
  outcome (StorageManager.saveCompletedRegistration
             (H := RefPlatform.platform) data) w = Err NativeError
  ∧ items (after (StorageManager.saveCompletedRegistration
                    (H := RefPlatform.platform) data) w)
      !! StorageManager.FORM_DATA_KEY = Some "{}".
Proof.
  intros data w.
  destruct (commit_fails_after_append (H := RefPlatform.platform) data
              (VArray []) [] w) as (Herr & _ & Hdraft).
  - reflexivity.
  - reflexivity.
  - discriminate.
  - reflexivity.
  - split; [exact Herr|]. rewrite Hdraft. reflexivity.
Defined.

Lemma commit_on_bad_list_witness :
  let data := VObject [("fullName", VString "Ada Lovelace")] in
  let w := set_items (insert StorageManager.SUBMITTED_FORMS_KEY "null")
             Examples.mounted in
  outcome (StorageManager.saveCompletedRegistration
             (H := RefPlatform.platform) data) w = Err TypeError
  ∧ outcome (StorageManager.saveCompletedRegistration
               (H := RefPlatform.platform) data)
      (set_items (insert StorageManager.SUBMITTED_FORMS_KEY "{bad")
         Examples.mounted) = Ok ().
Proof.
  intros data w.
  destruct (commit_on_bad_list (H := RefPlatform.platform) data w)
    as (Hnull & _).
  destruct (commit_on_bad_list (H := RefPlatform.platform) data
              (set_items (insert StorageManager.SUBMITTED_FORMS_KEY "{bad")
                 Examples.mounted)) as (_ & Hbad).
  split.
  - apply (Hnull VNull); [reflexivity | discriminate | discriminate].
  - apply (Hbad "{bad");
      [by apply NativeFacts.accepted_nil | reflexivity | reflexivity].
Defined.

(** ** Saving images *)

Module DirectoryFacts.




End DirectoryFacts.

Section ImageSaveFacts.
Context `{Platform}.
Import ImageStorage.

Lemma getInfoAsync_run path w :
  FileSystem.getInfoAsync path w =
    if bool_decide (rejected w) then (Err NativeError, advance w)
    else (Ok (bool_decide (path ∈ directories w)
              || bool_decide (is_Some (files w !! path))), advance w).
Proof. unfold FileSystem.getInfoAsync. by rewrite NativeFacts.native_run. Qed.

Lemma makeDirectoryAsync_run path w :
  FileSystem.makeDirectoryAsync path w =
    if bool_decide (rejected w) then (Err NativeError, advance w)
    else (Ok (), set_directories (fun d => {[path]} ∪ d) (advance w)).
Proof. unfold FileSystem.makeDirectoryAsync. by rewrite NativeFacts.native_run. Qed.

Lemma copyAsync_run from to w :
  FileSystem.copyAsync from to w =
    if bool_decide (rejected w) then (Err NativeError, advance w)
    else match files w !! from with
         | Some content =>
             if bool_decide (FileSystem.parent to ∈ directories w)
                && negb (bool_decide (to ∈ directories w))
             then (Ok (), set_files (insert to content) (advance w))
             else (Err NativeError, advance w)
         | None => (Err NativeError, advance w)
         end.
Proof.
  unfold FileSystem.copyAsync, rejected. rewrite NativeFacts.native_run.
  case_bool_decide; [done|]. cbn [files directories advance set_faults].
  destruct (files w !! from); [|done]. by destruct (_ && _).
Qed.

(** A copy changes nothing but the files, and these only when it
    succeeds, by the file at its destination. *)
Lemma copyAsync_frame from to w :
  ∃ r w', FileSystem.copyAsync from to w = (r, w')
          ∧ items w' = items w ∧ directories w' = directories w
          ∧ console w' = console w
          ∧ (∀ e, r = Err e → e = NativeError ∧ files w' = files w)
          ∧ (r = Ok () →
             ∃ content, files w !! from = Some content
                        ∧ files w' = <[to := content]> (files w)
                        ∧ FileSystem.parent to ∈ directories w
                        ∧ to ∉ directories w).
Proof.
  rewrite copyAsync_run. case_bool_decide.
  { eexists _, _. split; [reflexivity|]. cbn.
    split; [done|]. split; [done|]. split; [done|].
      split; [by intros e [= <-] | done]. }
  destruct (files w !! from) as [content|].
  - destruct (decide (FileSystem.parent to ∈ directories w)) as [Hdir|Hdir];
      [rewrite (bool_decide_eq_true_2 _ Hdir)
      |rewrite (bool_decide_eq_false_2 _ Hdir)];
      [destruct (decide (to ∈ directories w)) as [Hto|Hto];
       [rewrite (bool_decide_eq_true_2 _ Hto)
       |rewrite (bool_decide_eq_false_2 _ Hto)]|]; cbn [andb negb].
    + eexists _, _. split; [reflexivity|]. cbn.
      split; [done|]. split; [done|]. split; [done|].
      split; [by intros e [= <-] | done].
    + eexists _, _. split; [reflexivity|]. cbn.
      split; [done|]. split; [done|]. split; [done|].
      split; [done|]. intros _. by exists content.
    + eexists _, _. split; [reflexivity|]. cbn.
      split; [done|]. split; [done|]. split; [done|].
      split; [by intros e [= <-] | done].
  - eexists _, _. split; [reflexivity|]. cbn.
    split; [done|]. split; [done|]. split; [done|].
      split; [by intros e [= <-] | done].
Qed.

(** What [ensureDirectoryExists] leaves: nothing but the directories and
    the fault plan can have changed, and the plan by one or two calls. *)
Lemma ensureDirectoryExists_frame w :
  ∃ w', ensureDirectoryExists w = (Ok (), w')
        ∧ files w' = files w ∧ items w' = items w
        ∧ (directories w' = directories w
           ∨ directories w' = {[IMAGE_DIRECTORY]} ∪ directories w)
        ∧ (faults w' = faults (advance w)
           ∨ faults w' = faults (advance (advance w)))
        ∧ (accepted 2 w → files w !! IMAGE_DIRECTORY = None →
           IMAGE_DIRECTORY ∈ directories w')
        ∧ (IMAGE_DIRECTORY ∈ directories w → directories w' = directories w).
Proof.
  unfold ensureDirectoryExists.
  rewrite try_catch_run, bind_run, getInfoAsync_run.
  case_bool_decide as Hfirst; cbv beta iota.
  { eexists. split; [reflexivity|]. cbn.
    split; [done|]. split; [done|]. split; [by left|]. split; [by left|].
    split; [|done].
    intros [Hhead _]%NativeFacts.accepted_succ. done. }
  destruct (decide (IMAGE_DIRECTORY ∈ directories w)) as [Hdir|Hdir].
  { rewrite (bool_decide_eq_true_2 _ Hdir). cbn [orb negb].
    eexists. split; [reflexivity|]. cbn.
    split; [done|]. split; [done|]. split; [by left|]. split; [by left|]. done. }
  rewrite (bool_decide_eq_false_2 _ Hdir). cbn [orb].
  destruct (decide (is_Some (files w !! IMAGE_DIRECTORY))) as [Hfile|Hfile].
  { rewrite (bool_decide_eq_true_2 _ Hfile). cbn [negb].
    eexists. split; [reflexivity|]. cbn.
    split; [done|]. split; [done|]. split; [by left|]. split; [by left|].
    split; [|done]. intros _ Hnone. rewrite Hnone in Hfile. by destruct Hfile. }
  rewrite (bool_decide_eq_false_2 _ Hfile). cbn [negb].
  rewrite makeDirectoryAsync_run.
  case_bool_decide as Hsecond; cbv beta iota.
  { eexists. split; [reflexivity|]. cbn.
    split; [done|]. split; [done|]. split; [by left|]. split; [by right|].
    split; [|done].
    intros [_ [Hhead _]%NativeFacts.accepted_succ]%NativeFacts.accepted_succ.
    done. }
  eexists. split; [reflexivity|]. cbn.
  split; [done|]. split; [done|]. split; [by right|]. split; [by right|].
  split; [|done]. intros _ _. apply elem_of_union_l. by apply elem_of_singleton.
Qed.

(** X24.  [ensureDirectoryExists] never throws and touches neither the
    files nor the store; it never removes a directory.  When the two calls
    it may make are accepted (and no file sits at the path of the image
    directory) the directory exists afterwards; when the directory exists
    already, the set of directories is as before. *)
Theorem ensureDirectoryExists_contract (w : World) :
  let w' := after ensureDirectoryExists w in
  outcome ensureDirectoryExists w = Ok ()
  ∧ files w' = files w ∧ items w' = items w
  ∧ directories w ⊆ directories w'
  ∧ (accepted 2 w → files w !! IMAGE_DIRECTORY = None →
     IMAGE_DIRECTORY ∈ directories w')
  ∧ (IMAGE_DIRECTORY ∈ directories w → directories w' = directories w).
Proof.
  intros w'. subst w'. unfold outcome, after.
  destruct (ensureDirectoryExists_frame w)
    as (w1 & -> & Hfiles & Hitems & Hdirs & _ & Hcreated & Hkept).
  cbn [fst snd]. split; [done|]. split; [done|]. split; [done|].
  split; [|done]. destruct Hdirs as [-> | ->]; [done|].
  apply union_subseteq_r.
Qed.


Lemma saveImage_run imageUri imageName w :
  ∃ w1, ensureDirectoryExists w = (Ok (), w1)
        ∧ saveImage imageUri imageName w =
            match FileSystem.copyAsync imageUri (IMAGE_DIRECTORY +:+ imageName)
                    w1 with
            | (Ok _, w2) => (Ok (IMAGE_DIRECTORY +:+ imageName), w2)
            | (Err e, w2) =>
                (Err e,
                 set_console
                   (fun c => c ++ [LogError "Error saving image:" e]) w2)
            end.
Proof.
  destruct (ensureDirectoryExists_frame w) as (w1 & Hdir & _).
  exists w1. split; [done|].
  unfold saveImage. rewrite try_catch_run, bind_run, Hdir. cbv beta iota.
  rewrite bind_run.
  by destruct (FileSystem.copyAsync _ _ w1) as [[[]|e] w2].
Qed.



End ImageSaveFacts.

Section ImageBatchFacts.
Context `{Platform}.
Import ImageStorage.

Lemma deleteAsync_run path w :
  FileSystem.deleteAsync path w =
    if bool_decide (rejected w) then (Err NativeError, advance w)
    else match files w !! path with
         | Some _ => (Ok (), set_files (delete path) (advance w))
         | None => (Err NativeError, advance w)
         end.
Proof.
  unfold FileSystem.deleteAsync, rejected. rewrite NativeFacts.native_run.
  case_bool_decide; [done|]. cbn [files advance set_faults].
  by destruct (files w !! path).
Qed.

(** The run of [deleteImage]: it ends well, and the file is removed when
    both calls are accepted. *)
Lemma deleteImage_run imageUri w :
  ∃ w', deleteImage imageUri w = (Ok (), w')
        ∧ items w' = items w ∧ directories w' = directories w
        ∧ (files w' = files w ∨ files w' = delete imageUri (files w))
        ∧ (accepted 2 w → files w' = delete imageUri (files w)
                          ∧ accepted 0 w')
        ∧ (faults w = [] → faults w' = []).
Proof.
  unfold deleteImage. rewrite try_catch_run, bind_run, getInfoAsync_run.
  case_bool_decide as Hfirst; cbv beta iota.
  { eexists. split; [reflexivity|]. cbn.
    split; [done|]. split; [done|]. split; [by left|]. split.
    - by intros [? _]%NativeFacts.accepted_succ.
    - intros Hnil. unfold rejected in Hfirst. by rewrite Hnil in Hfirst. }
  assert (accepted 0 (advance (advance w))) as Hzero
    by (unfold accepted; rewrite take_0; apply not_elem_of_nil).
  destruct (files w !! imageUri) as [content|] eqn:Hfile.
  - rewrite (bool_decide_eq_true_2 (is_Some (Some content))) by by eexists.
    rewrite orb_true_r. rewrite deleteAsync_run.
    cbn [files advance set_faults]. rewrite Hfile.
    case_bool_decide as Hsecond; cbv beta iota.
    + eexists. split; [reflexivity|]. cbn.
      split; [done|]. split; [done|]. split; [by left|]. split.
      * by intros [_ [? _]%NativeFacts.accepted_succ]%NativeFacts.accepted_succ.
      * intros Hnil. unfold rejected in Hsecond. cbn in Hsecond.
        by rewrite Hnil in Hsecond.
    + eexists. split; [reflexivity|]. cbn.
      split; [done|]. split; [done|]. split; [by right|]. split; [done|].
      by intros ->.
  - rewrite (bool_decide_eq_false_2 (is_Some None)) by (by intros [? ?]).
    rewrite orb_false_r.
    assert (delete imageUri (files w) = files w) as Hid by by apply delete_id.
    destruct (bool_decide (imageUri ∈ directories w)).
    + rewrite deleteAsync_run. cbn [files advance set_faults]. rewrite Hfile.
      case_bool_decide; cbv beta iota;
        (eexists; split; [reflexivity|]; cbn;
         split; [done|]; split; [done|]; split; [by left|];
         split; [by rewrite Hid | by intros ->]).
    + eexists. split; [reflexivity|]. cbn.
      split; [done|]. split; [done|]. split; [by left|].
      split; [by rewrite Hid | by intros ->].
Qed.

(** X27.  [deleteImage] never throws and leaves the stored items alone.
    Given a uri that is not a directory, it touches nothing but the file at
    that uri: every other file and the directories are as before.  When
    its two calls are accepted the file is gone afterwards; when there was
    no such file, no file changes. *)
Theorem deleteImage_contract (imageUri : string) (w : World) :
  let w' := after (deleteImage imageUri) w in
  outcome (deleteImage imageUri) w = Ok ()
  ∧ items w' = items w
  ∧ (imageUri ∉ directories w →
     (∀ path, path ≠ imageUri → files w' !! path = files w !! path)
     ∧ directories w' = directories w
     ∧ (accepted 2 w → files w' !! imageUri = None)
     ∧ (files w !! imageUri = None → files w' = files w)).
Proof.
  intros w'. subst w'. unfold outcome, after.
  destruct (deleteImage_run imageUri w)
    as (w1 & -> & Hitems & Hdirs & Hfiles & Hgone & _).
  cbn [fst snd]. split; [done|]. split; [done|]. intros _. split.
  { intros path Hpath. destruct Hfiles as [-> | ->]; [done|].
    by rewrite lookup_delete_ne. }
  split; [done|]. split.
  - intros Hacc. destruct (Hgone Hacc) as [-> _]. apply lookup_delete_eq.
  - intros Hnone. destruct Hfiles as [-> | ->]; [done|]. by apply delete_id.
Qed.

End ImageBatchFacts.

(** ** Listing, clearing and measuring the image directory *)

Module PathFacts.

Lemma relative_app dir name : FileSystem.relative dir (dir +:+ name) = Some name.
Proof.
  induction dir as [|a dir IH]; [by destruct name|].
  rewrite app_cons. cbn. by rewrite Ascii.eqb_refl.
Qed.

Lemma relative_inv dir path name :
  FileSystem.relative dir path = Some name → path = dir +:+ name.
Proof.
  revert path. induction dir as [|a dir IH]; intros path; cbn.
  - intros [= <-]. reflexivity.
  - destruct path as [|b path]; [done|].
    destruct (Ascii.eqb a b) eqn:Hab; [|done].
    apply Ascii.eqb_eq in Hab as ->. intros ->%IH. by rewrite app_cons.
Qed.

Lemma entry_name_inv dir path name :
  FileSystem.entry_name dir path = Some name →
  path = dir +:+ name ∧ name ≠ ""
  ∧ JsString.every (fun c => negb (Ascii.eqb c "/")) name = true.
Proof.
  unfold FileSystem.entry_name.
  destruct (FileSystem.relative dir path) as [name'|] eqn:Hrel; [|done].
  destruct (JsString.truthy name') eqn:Htruthy; [|done].
  destruct (JsString.every _ name') eqn:Hevery; [|done].
  cbn. intros [= <-]. split; [by apply relative_inv|]. split; [|done].
  by intros ->.
Qed.

Lemma entry_name_app dir name :
  name ≠ "" → JsString.every (fun c => negb (Ascii.eqb c "/")) name = true →
  FileSystem.entry_name dir (dir +:+ name) = Some name.
Proof.
  intros Hname Hplain. unfold FileSystem.entry_name.
  rewrite relative_app, Hplain. by destruct name.
Qed.

(** The uris made from the listing of [dir] are the paths of the files
    that are entries of [dir]. *)
Lemma listing_elem dir (m : gmap string string) uri :
  uri ∈ (fun file => dir +:+ file)
          <$> omap (FileSystem.entry_name dir) (map_to_list m).*1
  ↔ is_Some (m !! uri) ∧ is_Some (FileSystem.entry_name dir uri).
Proof.
  rewrite list_elem_of_fmap. split.
  - intros (file & -> & (path & Hpath & Hentry)%list_elem_of_omap).
    apply list_elem_of_fmap in Hpath as ([path' content] & -> & Hin).
    apply elem_of_map_to_list in Hin. cbn in Hentry.
    destruct (entry_name_inv _ _ _ Hentry) as (-> & _ & _).
    split; by eexists.
  - intros [[content Hcontent] [file Hentry]].
    exists file. split; [by destruct (entry_name_inv _ _ _ Hentry)|].
    apply list_elem_of_omap. exists uri. split; [|done].
    apply list_elem_of_fmap. exists (uri, content). split; [done|].
    by apply elem_of_map_to_list.
Qed.

End PathFacts.

Section ImageListFacts.
Context `{Platform}.
Import ImageStorage.

Lemma readDirectoryAsync_run dir w :
  FileSystem.readDirectoryAsync dir w =
    if bool_decide (rejected w) then (Err NativeError, advance w)
    else if bool_decide (dir ∈ directories w)
         then (Ok (omap (FileSystem.entry_name dir) (map_to_list (files w)).*1),
               advance w)
         else (Err NativeError, advance w).
Proof.
  unfold FileSystem.readDirectoryAsync, rejected. rewrite NativeFacts.native_run.
  case_bool_decide; [done|]. cbn [files directories advance set_faults].
  by destruct (bool_decide (dir ∈ directories w)).
Qed.

Lemma getInfoAsync_size_run path w :
  FileSystem.getInfoAsync_size path w =
    if bool_decide (rejected w) then (Err NativeError, advance w)
    else (Ok (bool_decide (path ∈ directories w)
              || bool_decide (is_Some (files w !! path)),
              JsString.length <$> files w !! path), advance w).
Proof. unfold FileSystem.getInfoAsync_size. by rewrite NativeFacts.native_run. Qed.

Lemma console_error_then {A} text e (a : A) w :
  (console_error text e ≫= fun _ => mret a) w =
    (Ok a, set_console (fun c => c ++ [LogError text e]) w).
Proof. reflexivity. Qed.

Lemma faults_advance w : faults w = [] → faults (advance w) = [].
Proof. intros Hnil. by rewrite NativeFacts.advance_nil. Qed.

Lemma not_rejected w : faults w = [] → ¬ rejected w.
Proof. unfold rejected. by intros ->. Qed.

(** The run of [getAllSavedImages]. *)
Lemma getAllSavedImages_run w :
  ∃ w1, ensureDirectoryExists w = (Ok (), w1)
        ∧ getAllSavedImages w =
            if bool_decide (rejected w1)
            then (Ok [],
                  set_console
                    (fun c => c ++ [LogError "Error getting saved images:" NativeError])
                    (advance w1))
            else if bool_decide (IMAGE_DIRECTORY ∈ directories w1)
                 then (Ok ((fun file => IMAGE_DIRECTORY +:+ file)
                             <$> omap (FileSystem.entry_name IMAGE_DIRECTORY)
                                   (map_to_list (files w)).*1),
                       advance w1)
                 else (Ok [],
                       set_console
                         (fun c => c ++ [LogError "Error getting saved images:" NativeError])
                         (advance w1)).
Proof.
  destruct (ensureDirectoryExists_frame w) as (w1 & Hdir & Hfiles & _).
  exists w1. split; [done|].
  unfold getAllSavedImages. rewrite try_catch_run, bind_run, Hdir. cbv beta iota.
  rewrite bind_run, readDirectoryAsync_run. rewrite Hfiles.
  case_bool_decide; [done|]. by case_bool_decide.
Qed.

Lemma getAllSavedImages_summary w :
  ∃ l w', getAllSavedImages w = (Ok l, w')
          ∧ files w' = files w ∧ items w' = items w
          ∧ (∀ uri, uri ∈ l →
               is_Some (files w !! uri)
               ∧ is_Some (FileSystem.entry_name IMAGE_DIRECTORY uri))
          ∧ (rejected (after ensureDirectoryExists w) → l = [])
          ∧ (faults w = [] → files w !! IMAGE_DIRECTORY = None →
               faults w' = []
               ∧ ∀ uri, is_Some (files w !! uri) →
                   is_Some (FileSystem.entry_name IMAGE_DIRECTORY uri) → uri ∈ l).
Proof.
  destruct (getAllSavedImages_run w) as (w1 & Hdir & ->).
  destruct (ensureDirectoryExists_frame w)
    as (w1' & Hdir' & Hfiles & Hitems & _ & Hplan & Hmade & _).
  rewrite Hdir in Hdir'. injection Hdir' as <-.
  unfold after. rewrite Hdir. cbn [snd].
  assert (faults w = [] → faults w1 = []) as Hquiet.
  { intros Hnil. destruct Hplan as [-> | ->];
      by rewrite !(NativeFacts.advance_nil w Hnil). }
  case_bool_decide as Hrej.
  { eexists _, _. split; [reflexivity|]. cbn.
    split; [done|]. split; [done|]. split; [by intros uri ?%elem_of_nil|].
    split; [done|]. intros Hnil _.
    by destruct (not_rejected w1 (Hquiet Hnil)). }
  case_bool_decide as Hthere.
  - eexists _, _. split; [reflexivity|]. cbn.
    split; [done|]. split; [done|].
    split; [by intros uri ?%PathFacts.listing_elem|].
    split; [done|]. intros Hnil _. split.
    + by rewrite (Hquiet Hnil).
    + intros uri ? ?. by apply PathFacts.listing_elem.
  - eexists _, _. split; [reflexivity|]. cbn.
    split; [done|]. split; [done|]. split; [by intros uri ?%elem_of_nil|].
    split; [done|]. intros Hnil Hnone. destruct Hthere.
    apply Hmade; [|done]. by apply NativeFacts.accepted_nil.
Qed.

(** X28.  [getAllSavedImages] never throws and changes no file and no
    stored item.  With the entries of a directory being the files directly
    in it, every uri it lists is the image directory followed by a name
    without a slash, and a file is there.  When the listing call is
    rejected the answer is the empty list.  On a device that rejects no
    call, with no file at the directory's own path, every file directly in
    the directory is listed. *)
Theorem getAllSavedImages_contract (w : World) :
  let w' := after getAllSavedImages w in
  ∃ l, outcome getAllSavedImages w = Ok l
       ∧ files w' = files w ∧ items w' = items w
       ∧ (∀ uri, uri ∈ l →
            is_Some (files w !! uri)
            ∧ ∃ file, uri = IMAGE_DIRECTORY +:+ file ∧ file ≠ ""
                ∧ JsString.every (fun c => negb (Ascii.eqb c "/")) file = true)
       ∧ (rejected (after ensureDirectoryExists w) → l = [])
       ∧ (faults w = [] → files w !! IMAGE_DIRECTORY = None →
            ∀ file, is_Some (files w !! (IMAGE_DIRECTORY +:+ file)) →
              file ≠ "" →
              JsString.every (fun c => negb (Ascii.eqb c "/")) file = true →
              IMAGE_DIRECTORY +:+ file ∈ l).
Proof.
  intros w'. subst w'. unfold outcome, after at 1 2.
  destruct (getAllSavedImages_summary w)
    as (l & w1 & -> & Hfiles & Hitems & Hlisted & Hrej & Hall).
  exists l. cbn [fst snd]. split; [done|]. split; [done|]. split; [done|].
  split.
  { intros uri [Hfile [file Hentry]]%Hlisted. split; [done|].
    exists file. by apply PathFacts.entry_name_inv. }
  split; [done|].
  intros Hnil Hnone file Hfile Hname Hplain.
  destruct (Hall Hnil Hnone) as [_ Hin]. apply Hin; [done|].
  rewrite PathFacts.entry_name_app by done. by eexists.
Qed.

(** The loop of [getStorageSize]: it changes no file, a total that is not
    negative stays so, and when no call is rejected the sizes of the files
    are added up. *)
Lemma getStorageSize_loop_run images :
  ∀ totalSize w, 0 ≤ totalSize →
    ∃ r w', getStorageSize_loop images totalSize w = (r, w')
            ∧ files w' = files w ∧ items w' = items w
            ∧ (∀ n, r = Ok n → 0 ≤ n)
            ∧ (faults w = [] →
                 r = Ok (totalSize
                         + foldr Z.add 0
                             ((fun uri =>
                                 from_option JsString.length 0 (files w !! uri))
                                <$> images))).
Proof.
  induction images as [|imageUri rest IH]; intros totalSize w Htotal.
  - eexists _, _. split; [reflexivity|]. cbn.
    split; [done|]. split; [done|]. split; [by intros n [= <-]|].
    intros _. f_equal. lia.
  - cbn [getStorageSize_loop]. rewrite bind_run, getInfoAsync_size_run.
    case_bool_decide as Hrej; cbv beta iota.
    { eexists _, _. split; [reflexivity|]. cbn.
      split; [done|]. split; [done|]. split; [done|].
      intros Hnil. by destruct (not_rejected w Hnil). }
    assert (0 ≤ from_option JsString.length 0 (files w !! imageUri)) as Hsize.
    { destruct (files w !! imageUri); cbn; [unfold JsString.length|]; lia. }
    assert (∀ next, 0 ≤ next →
              (faults w = [] →
               next = totalSize
                      + from_option JsString.length 0 (files w !! imageUri)) →
              ∃ r w', getStorageSize_loop rest next (advance w) = (r, w')
                ∧ files w' = files w ∧ items w' = items w
                ∧ (∀ n, r = Ok n → 0 ≤ n)
                ∧ (faults w = [] →
                   r = Ok (totalSize
                           + foldr Z.add 0
                               ((fun uri =>
                                   from_option JsString.length 0 (files w !! uri))
                                  <$> imageUri :: rest)))) as Hnext.
    { intros next Hpos Hsum.
      destruct (IH next (advance w) Hpos) as (r & w' & Hrun & ? & ? & ? & Hall).
      exists r, w'. split; [done|]. split; [done|]. split; [done|].
      split; [done|]. intros Hnil. rewrite (Hall (faults_advance w Hnil)).
      rewrite (Hsum Hnil). cbn. f_equal. lia. }
    destruct (files w !! imageUri) as [content|] eqn:Hfile; cbn [fmap option_fmap option_map from_option] in *.
    + rewrite (bool_decide_eq_true_2 (is_Some (Some content))) by by eexists.
      rewrite orb_true_r. apply Hnext.
      * destruct (JsString.length content =? 0); lia.
      * intros _. destruct (JsString.length content =? 0) eqn:Hzero; [|done].
        apply Z.eqb_eq in Hzero. lia.
    + destruct (_ || _); apply Hnext; try done; intros _; lia.
Qed.

(** X30.  [getStorageSize] never throws, never answers a negative number
    and changes no file and no stored item.  When a call of its loop is
    rejected it answers 0, whatever it had added up.  On a device that
    rejects no call, with no file at the directory's own path, it answers
    the sum of the lengths of the files that [getAllSavedImages] lists. *)
Theorem getStorageSize_contract (w : World) :
  let w' := after getStorageSize w in
  (∃ n, outcome getStorageSize w = Ok n ∧ 0 ≤ n)
  ∧ files w' = files w ∧ items w' = items w
  ∧ (∀ images,
       outcome getAllSavedImages w = Ok images →
       is_err (outcome (getStorageSize_loop images 0)
                 (after getAllSavedImages w)) = true →
       outcome getStorageSize w = Ok 0)
  ∧ (∀ images,
       faults w = [] → files w !! IMAGE_DIRECTORY = None →
       outcome getAllSavedImages w = Ok images →
       outcome getStorageSize w =
         Ok (foldr Z.add 0
               ((fun uri => from_option JsString.length 0 (files w !! uri))
                  <$> images))).
Proof.
  intros w'. subst w'. unfold outcome, after, getStorageSize.
  rewrite try_catch_run, bind_run.
  destruct (getAllSavedImages_summary w)
    as (l & w1 & -> & Hfiles & Hitems & _ & _ & Hall).
  cbv beta iota. cbn [fst snd].
  destruct (getStorageSize_loop_run l 0 w1 (Z.le_refl 0))
    as (r & w2 & Hrun & Hfiles' & Hitems' & Hpos & Hsum).
  rewrite Hrun. destruct r as [n|e]; cbn.
  - split; [exists n; split; [done | by apply Hpos]|].
    split; [congruence|]. split; [congruence|].
    split; [intros images [= <-]; by rewrite Hrun|].
    intros images Hnil Hnone [= <-].
    destruct (Hall Hnil Hnone) as [Hquiet _].
    by rewrite (Hsum Hquiet), Hfiles.
  - rewrite console_error_then. cbn.
    split; [by exists 0|]. split; [congruence|]. split; [congruence|].
    split; [done|]. intros images Hnil Hnone [= <-].
    destruct (Hall Hnil Hnone) as [Hquiet _]. by specialize (Hsum Hquiet).
Qed.

End ImageListFacts.

Lemma ensureDirectoryExists_contract_witness :
  let ensure := ImageStorage.ensureDirectoryExists (H := RefPlatform.platform) in
  ImageStorage.IMAGE_DIRECTORY (H := RefPlatform.platform)
    ∈ directories (after ensure Examples.mounted)
  ∧ directories (after ensure (after ensure Examples.mounted))
    = directories (after ensure Examples.mounted).
Proof.
  intros ensure.
  destruct (ensureDirectoryExists_contract (H := RefPlatform.platform)
              Examples.mounted) as (_ & _ & _ & _ & Hmade & _).
  destruct (ensureDirectoryExists_contract (H := RefPlatform.platform)
              (after ensure Examples.mounted)) as (_ & _ & _ & _ & _ & Hsame).
  assert (ImageStorage.IMAGE_DIRECTORY (H := RefPlatform.platform)
            ∈ directories (after ensure Examples.mounted)) as Hthere.
  { apply Hmade; [|reflexivity].
    apply NativeFacts.accepted_nil. reflexivity. }
  split; [exact Hthere | exact (Hsame Hthere)].
Defined.


Lemma deleteImage_contract_witness :
  let deleteImage := ImageStorage.deleteImage in
  let w := Examples.two_photos_on_disk in
  let w' := after (deleteImage "file:///cache/photo_1.jpg") w in
  files w' !! "file:///cache/photo_1.jpg" = None
  ∧ files w' !! "file:///cache/photo_2.jpg" = Some "JFIF-2"
  ∧ files (after (deleteImage "file:///cache/photo_3.jpg") w) = files w.
Proof.
  intros deleteImage w w'.
  destruct (deleteImage_contract "file:///cache/photo_1.jpg" w)
    as (_ & _ & Hfile).
  destruct (deleteImage_contract "file:///cache/photo_3.jpg" w)
    as (_ & _ & Hnofile).
  destruct Hfile as (Hother & _ & Hgone & _); [apply not_elem_of_empty|].
  destruct Hnofile as (_ & _ & _ & Habsent); [apply not_elem_of_empty|].
  split; [|split].
  - apply Hgone. apply NativeFacts.accepted_nil. reflexivity.
  - subst w'. fold deleteImage in Hother.
    rewrite (Hother "file:///cache/photo_2.jpg"); [reflexivity | discriminate].
  - apply Habsent. reflexivity.
Defined.

Lemma getAllSavedImages_contract_witness :
  let getAllSavedImages :=
    ImageStorage.getAllSavedImages (H := RefPlatform.platform) in
  let w := after (ImageStorage.saveImage (H := RefPlatform.platform)
                    "file:///cache/photo_1.jpg" "photo_1.jpg")
             Examples.one_photo_on_disk in
  (∃ l, outcome getAllSavedImages w = Ok l
        ∧ "file:///data/user/0/app/files/captured_images/photo_1.jpg" ∈ l
        ∧ is_Some (files w
             !! "file:///data/user/0/app/files/captured_images/photo_1.jpg"))
  ∧ outcome getAllSavedImages (set_faults (fun _ => [false; true]) w) = Ok [].
Proof.
  intros getAllSavedImages w.
  destruct (getAllSavedImages_contract (H := RefPlatform.platform) w)
    as (l & Hout & _ & _ & Hlisted & _ & Hall).
  destruct (getAllSavedImages_contract (H := RefPlatform.platform)
              (set_faults (fun _ => [false; true]) w))
    as (l' & Hout' & _ & _ & _ & Hrejected & _).
  assert ("file:///data/user/0/app/files/captured_images/photo_1.jpg" ∈ l)
    as Hin.
  { apply (Hall eq_refl eq_refl "photo_1.jpg");
      [eexists; reflexivity | discriminate | reflexivity]. }
  split.
  - exists l. split; [exact Hout|]. split; [exact Hin|].
    exact (proj1 (Hlisted _ Hin)).
  - fold getAllSavedImages in Hout'. rewrite Hout'. f_equal.
    apply Hrejected. reflexivity.
Defined.

Lemma getStorageSize_contract_witness :
  let getStorageSize := ImageStorage.getStorageSize (H := RefPlatform.platform) in
  let w := after (ImageStorage.saveImage (H := RefPlatform.platform)
                    "file:///cache/photo_1.jpg" "photo_1.jpg")
             Examples.one_photo_on_disk in
  outcome getStorageSize w = Ok 6
  ∧ outcome getStorageSize (set_faults (fun _ => [false; false; true]) w) = Ok 0.
Proof.
  intros getStorageSize w.
  destruct (getStorageSize_contract (H := RefPlatform.platform) w)
    as (_ & _ & _ & _ & Hsum).
  destruct (getStorageSize_contract (H := RefPlatform.platform)
              (set_faults (fun _ => [false; false; true]) w))
    as (_ & _ & _ & Hzero & _).
  split.
  - apply (Hsum ["file:///data/user/0/app/files/captured_images/photo_1.jpg"]);
      reflexivity.
  - apply (Hzero ["file:///data/user/0/app/files/captured_images/photo_1.jpg"]);
      reflexivity.
Defined.

(** ** Tasks *)

Module TaskFacts.

Lemma run_bind {A B} (k : A → Task B) (task : Task A) w :
  Async.run (Async.bind k task) w =
    match Async.run task w with
    | (Ok a, w') => Async.run (k a) w'
    | (Err e, w') => (Err e, w')
    end.
Proof.
  revert w. induction task as [a|e|X m next IH|X m next IH]; intros w; cbn;
    try done; destruct (m w) as [r w']; apply IH.
Qed.

Lemma run_try_catch {A} (body : Task A) (handler : Error → Task A) w :
  Async.run (Async.try_catch body handler) w =
    match Async.run body w with
    | (Ok a, w') => (Ok a, w')
    | (Err e, w') => Async.run (handler e) w'
    end.
Proof.
  revert w. induction body as [a|e|X m next IH|X m next IH]; intros w; cbn;
    try done; destruct (m w) as [r w']; apply IH.
Qed.

Lemma run_await {X} (call : M X) w : Async.run (Async.await call) w = call w.
Proof. cbn. by destruct (call w) as [[a|e] w']. Qed.

Lemma run_sync {X} (statement : M X) w :
  Async.run (Async.sync statement) w = statement w.
Proof. cbn. by destruct (statement w) as [[a|e] w']. Qed.

End TaskFacts.

(** Rely and guarantee: a task that is safe stays safe through the steps
    of the other tasks and through its own. *)
Section SafeFacts.
Context {A : Type} (R : World → World → Prop) `{!PreOrder R}.
Implicit Types post : Result A → World → Prop.

Lemma safe_stable post task w w' :
  (∀ r w w', post r w → R w w' → post r w') →
  safe R post task w → R w w' → safe R post task w'.
Proof.
  intros Hstable. destruct task as [a|e|X m next|X m next]; cbn.
  - apply Hstable.
  - apply Hstable.
  - intros Hsafe Hstep w'' Hlater. apply Hsafe. by transitivity w'.
  - intros Hsafe Hstep w'' Hlater. apply Hsafe. by transitivity w'.
Qed.

Lemma start_safe post task w :
  safe R post task w →
  R w (Async.start task w).2
  ∧ safe R post (Async.start task w).1 (Async.start task w).2.
Proof.
  revert w. induction task as [a|e|X m next IH|X m next IH]; intros w Hsafe.
  - split; [reflexivity | done].
  - split; [reflexivity | done].
  - cbn in Hsafe. destruct (Hsafe w) as [Hstep Hnext]; [reflexivity|].
    cbn. destruct (m w) as [r w1]. cbn [fst snd] in *.
    destruct (IH r w1 Hnext) as [Hsteps Hthen].
    split; [by transitivity w1 | done].
  - split; [reflexivity | done].
Qed.

Lemma resume_safe post task w :
  safe R post task w →
  R w (Async.resume task w).2
  ∧ safe R post (Async.resume task w).1 (Async.resume task w).2.
Proof.
  destruct task as [a|e|X m next|X m next]; intros Hsafe;
    try (split; [reflexivity | done]).
  cbn in Hsafe. destruct (Hsafe w) as [Hstep Hnext]; [reflexivity|].
  cbn. destruct (m w) as [r w1]. cbn [fst snd] in *.
  destruct (start_safe post (next r) w1 Hnext) as [Hsteps Hthen].
  split; [by transitivity w1 | done].
Qed.

Lemma run_safe post task w :
  safe R post task w →
  R w (Async.run task w).2
  ∧ post (Async.run task w).1 (Async.run task w).2.
Proof.
  revert w. induction task as [a|e|X m next IH|X m next IH]; intros w Hsafe.
  - split; [reflexivity | done].
  - split; [reflexivity | done].
  - cbn in Hsafe. destruct (Hsafe w) as [Hstep Hnext]; [reflexivity|].
    cbn. destruct (m w) as [r w1]. cbn [fst snd] in *.
    destruct (IH r w1 Hnext) as [Hsteps Hthen].
    split; [by transitivity w1 | done].
  - cbn in Hsafe. destruct (Hsafe w) as [Hstep Hnext]; [reflexivity|].
    cbn. destruct (m w) as [r w1]. cbn [fst snd] in *.
    destruct (IH r w1 Hnext) as [Hsteps Hthen].
    split; [by transitivity w1 | done].
Qed.

End SafeFacts.

Section PromiseAllFacts.
Context {A B : Type} (R : World → World → Prop) `{!PreOrder R}.
Context (reaction : Result (list A) → M B).
Context (Hreaction : ∀ v w, R w (reaction v w).2).
Implicit Types posts : list (Result A → World → Prop).

Lemma react_within answer task w : R w (react reaction answer task w).2.
Proof.
  unfold react. destruct answer as [b|]; [reflexivity|].
  destruct task as [a|e|X m next|X m next]; try reflexivity.
  specialize (Hreaction (Err e) w). by destruct (reaction (Err e) w).
Qed.

Lemma react_all_within pool answer w :
  R w (react_all reaction pool answer w).2.
Proof.
  revert answer w. induction pool as [|task rest IH]; intros answer w; cbn.
  - reflexivity.
  - pose proof (react_within answer task w) as Hstep.
    destruct (react reaction answer task w) as [answer' w'].
    cbn [snd] in Hstep. by transitivity w'.
Qed.

Lemma pool_stable posts pool w w' :
  Forall (fun post => ∀ r w w', post r w → R w w' → post r w') posts →
  Forall2 (fun post task => safe R post task w) posts pool →
  R w w' →
  Forall2 (fun post task => safe R post task w') posts pool.
Proof.
  intros Hstable Hpool Hstep. induction Hpool as [|post task posts pool Hsafe Hpool IH].
  - constructor.
  - apply Forall_cons in Hstable as [Hpost Hstable].
    constructor; [by apply (safe_stable R post task w) | by apply IH].
Qed.

Lemma start_all_safe posts tasks w :
  Forall (fun post => ∀ r w w', post r w → R w w' → post r w') posts →
  Forall2 (fun post task => safe R post task w) posts tasks →
  R w (start_all tasks w).2
  ∧ Forall2 (fun post task => safe R post task (start_all tasks w).2)
      posts (start_all tasks w).1.
Proof.
  intros Hstable. revert tasks w.
  induction Hstable as [|post posts Hpost Hstable IH]; intros tasks w Hpool;
    inversion Hpool as [|? task ? tasks' Hsafe Hrest]; subst; cbn.
  - split; [reflexivity | constructor].
  - destruct (start_safe R post task w Hsafe) as [Hstep Hstarted].
    destruct (Async.start task w) as [task' w1]. cbn [fst snd] in *.
    destruct (IH tasks' w1) as [Hsteps Hpool'];
      [by apply (pool_stable posts tasks' w)|].
    destruct (start_all tasks' w1) as [rest' w2]. cbn [fst snd] in *.
    split; [by transitivity w1|].
    constructor; [by apply (safe_stable R post task' w1) | done].
Qed.

Lemma serve_safe posts schedule pool answer w :
  Forall (fun post => ∀ r w w', post r w → R w w' → post r w') posts →
  Forall2 (fun post task => safe R post task w) posts pool →
  R w (serve reaction schedule pool answer w).2
  ∧ Forall2 (fun post task =>
               safe R post task (serve reaction schedule pool answer w).2)
      posts (serve reaction schedule pool answer w).1.1.
Proof.
  intros Hstable. revert pool answer w.
  induction schedule as [|i schedule IH]; intros pool answer w Hpool; cbn.
  - split; [reflexivity | done].
  - destruct (pool !! i) as [task|] eqn:Htask; [|by apply IH].
    destruct (Forall2_lookup_r _ _ _ _ _ Hpool Htask) as (post & Hpost & Hsafe).
    destruct (resume_safe R post task w Hsafe) as [Hstep Hresumed].
    destruct (Async.resume task w) as [task' w1]. cbn [fst snd] in *.
    pose proof (react_within answer task' w1) as Hreact.
    destruct (react reaction answer task' w1) as [answer' w2].
    cbn [snd] in Hreact.
    destruct (IH (<[i := task']> pool) answer' w2) as [Hsteps Hpool'].
    { rewrite <- (list_insert_id posts i post Hpost).
      apply Forall2_insert.
      - apply (pool_stable posts pool w); [done | done |].
        by transitivity w1.
      - by apply (safe_stable R post task' w1);
          [apply (Forall_lookup_1 _ _ _ _ Hstable Hpost)| |]. }
    split; [|done]. transitivity w1; [done|]. by transitivity w2.
Qed.

Lemma finish_safe posts pool answer w :
  Forall (fun post => ∀ r w w', post r w → R w w' → post r w') posts →
  Forall2 (fun post task => safe R post task w) posts pool →
  R w (finish reaction pool answer w).2
  ∧ Forall2 (fun post r => post r (finish reaction pool answer w).2)
      posts (finish reaction pool answer w).1.1.
Proof.
  intros Hstable. revert pool answer w.
  induction Hstable as [|post posts Hpost Hstable IH];
    intros pool answer w Hpool;
    inversion Hpool as [|? task ? pool' Hsafe Hrest]; subst; cbn.
  - split; [reflexivity | constructor].
  - destruct (run_safe R post task w Hsafe) as [Hstep Hsettled].
    destruct (Async.run task w) as [r w1]. cbn [fst snd] in *.
    pose proof (react_within answer (Async.settled r) w1) as Hreact.
    destruct (react reaction answer (Async.settled r) w1) as [answer' w2].
    cbn [snd] in Hreact.
    destruct (IH pool' answer' w2) as [Hsteps Hresults].
    { apply (pool_stable posts pool' w); [done | done |]. by transitivity w1. }
    destruct (finish reaction pool' answer' w2) as [[rs answer''] w3].
    cbn [fst snd] in *.
    split; [transitivity w1; [done|]; by transitivity w2|].
    constructor; [|done].
    apply (Hpost r w1); [done|]. by transitivity w2.
Qed.

(** The answer, once given, is the reaction to a rejection, and stays. *)

Lemma react_answer answer task w :
  (∀ b, answer = Some b → ∃ e w0, b = (reaction (Err e) w0).1) →
  (∀ b, (react reaction answer task w).1 = Some b → ∃ e w0, b = (reaction (Err e) w0).1).
Proof.
  unfold react. intros Hanswer. destruct answer as [b|]; [done|].
  destruct task as [a|e|X m next|X m next]; try done.
  destruct (reaction (Err e) w) as [b w'] eqn:Hrun. cbn.
  intros b' [= <-]. exists e, w. by rewrite Hrun.
Qed.

Lemma react_all_answer pool answer w :
  (∀ b, answer = Some b → ∃ e w0, b = (reaction (Err e) w0).1) →
  (∀ b, (react_all reaction pool answer w).1 = Some b → ∃ e w0, b = (reaction (Err e) w0).1).
Proof.
  revert answer w. induction pool as [|task rest IH]; intros answer w Hanswer;
    cbn; [done|].
  pose proof (react_answer answer task w Hanswer) as Hstep.
  destruct (react reaction answer task w) as [answer' w']. by apply IH.
Qed.

Lemma serve_answer schedule pool answer w :
  (∀ b, answer = Some b → ∃ e w0, b = (reaction (Err e) w0).1) →
  (∀ b, (serve reaction schedule pool answer w).1.2 = Some b → ∃ e w0, b = (reaction (Err e) w0).1).
Proof.
  revert pool answer w.
  induction schedule as [|i schedule IH]; intros pool answer w Hanswer; cbn;
    [done|].
  destruct (pool !! i) as [task|]; [|by apply IH].
  destruct (Async.resume task w) as [task' w1].
  pose proof (react_answer answer task' w1 Hanswer) as Hstep.
  destruct (react reaction answer task' w1) as [answer' w2]. by apply IH.
Qed.

Lemma finish_answer pool answer w :
  (∀ b, answer = Some b → ∃ e w0, b = (reaction (Err e) w0).1) →
  (∀ b, (finish reaction pool answer w).1.2 = Some b → ∃ e w0, b = (reaction (Err e) w0).1)
  ∧ ((finish reaction pool answer w).1.2 = None →
     ∃ l, (finish reaction pool answer w).1.1 = Ok <$> l).
Proof.
  revert answer w. induction pool as [|task rest IH]; intros answer w Hanswer;
    cbn.
  - split; [done|]. intros _. by exists [].
  - destruct (Async.run task w) as [r w1].
    pose proof (react_answer answer (Async.settled r) w1 Hanswer) as Hstep.
    assert ((react reaction answer (Async.settled r) w1).1 = None →
            ∃ a, r = Ok a) as Hfulfilled.
    { unfold react. destruct answer as [b|]; [done|].
      destruct r as [a|e]; cbn; [by eexists|].
      by destruct (reaction (Err e) w1). }
    destruct (react reaction answer (Async.settled r) w1) as [answer' w2].
    cbn [fst] in *.
    destruct (IH answer' w2 Hstep) as [Hlast Hall].
    assert ((finish reaction rest answer' w2).1.2 = None → answer' = None)
      as Hkept.
    { clear. revert answer' w2. induction rest as [|task' rest' IH'];
        intros answer' w2; cbn; [done|].
      destruct (Async.run task' w2) as [r' w3].
      destruct answer' as [b|]; [|done]. cbn.
      specialize (IH' (Some b) w3).
      destruct (finish reaction rest' (Some b) w3) as [[rs a''] w4].
      cbn in *. done. }
    destruct (finish reaction rest answer' w2) as [[rs answer''] w3].
    cbn [fst snd] in *. split; [done|].
    intros Hnone. destruct (Hall Hnone) as [l ->].
    destruct (Hfulfilled (Hkept Hnone)) as [a ->]. by exists (a :: l).
Qed.

End PromiseAllFacts.

(** What the caller of [Promise.all] gets: its reaction to a rejection, or,
    when every task is fulfilled, its reaction to the list of the values. *)
Lemma all_settled_answer {A B} (schedule : list nat) (tasks : list (Task A))
    (reaction : M (list A) → M B) (w : World) :
  let results := (all_settled schedule tasks reaction w).1 in
  let b := (all_settled schedule tasks reaction w).2.1 in
  (∃ e w0, b = (reaction (lift (Err e)) w0).1)
  ∨ (∃ l w0, results = Ok <$> l ∧ b = (reaction (lift (Ok l)) w0).1).
Proof.
  intros results b. subst results b. unfold all_settled.
  set (reaction' := fun v => reaction (lift v)).
  destruct (start_all tasks w) as [pool w1].
  pose proof (react_all_answer reaction' pool None w1) as Hfirst.
  destruct (react_all reaction' pool None w1) as [answer1 w2].
  pose proof (serve_answer reaction' schedule pool answer1 w2) as Hserved.
  destruct (serve reaction' schedule pool answer1 w2) as [[pool' answer2] w3].
  pose proof (finish_answer reaction' pool' answer2 w3) as Hlast.
  destruct (finish reaction' pool' answer2 w3) as [[results answer3] w4].
  cbn [fst snd] in *.
  destruct Hlast as [Hanswer Hall]; [apply Hserved, Hfirst; by intros b [=]|].
  destruct answer3 as [b|]; cbn [fst snd].
  - left. by apply Hanswer.
  - right. destruct (Hall eq_refl) as [l ->]. exists l, w4. split; [done|].
    assert (collect (Ok <$> l) = Ok l) as ->; [|done].
    clear. induction l as [|a l IH]; [done|]. cbn. by rewrite IH.
Qed.

(** Rely and guarantee for [Promise.all]: when every task is safe and the
    caller stays within [R], the device left is within [R] of the first
    one, and every task has settled as its [post] says. *)
Lemma all_settled_safe {A B} (R : World → World → Prop) `{!PreOrder R}
    (posts : list (Result A → World → Prop))
    (schedule : list nat) (tasks : list (Task A))
    (reaction : M (list A) → M B) (w : World) :
  (∀ v w, R w (reaction (lift v) w).2) →
  Forall (fun post => ∀ r w w', post r w → R w w' → post r w') posts →
  Forall2 (fun post task => safe R post task w) posts tasks →
  let results := (all_settled schedule tasks reaction w).1 in
  let w' := (all_settled schedule tasks reaction w).2.2 in
  R w w' ∧ Forall2 (fun post r => post r w') posts results.
Proof.
  intros Hreaction Hstable Hpool results w'. subst results w'.
  unfold all_settled. set (reaction' := fun v => reaction (lift v)).
  destruct (start_all_safe R posts tasks w Hstable Hpool) as [H1 Hpool1].
  destruct (start_all tasks w) as [pool w1]. cbn [fst snd] in *.
  pose proof (react_all_within R reaction' Hreaction pool None w1) as H2.
  destruct (react_all reaction' pool None w1) as [answer1 w2].
  cbn [snd] in H2.
  destruct (serve_safe R reaction' Hreaction posts schedule pool answer1 w2
              Hstable) as [H3 Hpool3];
    [by apply (pool_stable R posts pool w1)|].
  destruct (serve reaction' schedule pool answer1 w2) as [[pool' answer2] w3].
  cbn [fst snd] in *.
  destruct (finish_safe R reaction' Hreaction posts pool' answer2 w3 Hstable
              Hpool3) as [H4 Hresults].
  destruct (finish reaction' pool' answer2 w3) as [[results answer3] w4].
  cbn [fst snd] in *.
  assert (R w w4) as Hall.
  { transitivity w1; [done|]. transitivity w2; [done|]. by transitivity w3. }
  destruct answer3 as [b|]; cbn [fst snd]; [done|].
  pose proof (Hreaction (collect results) w4) as H5.
  subst reaction'. cbn in *.
  destruct (reaction (lift (collect results)) w4) as [b w5]. cbn [snd] in *.
  split; [by transitivity w4|].
  clear -Hresults Hstable H5. revert results Hresults.
  induction Hstable as [|post posts Hpost Hstable IH]; intros results Hresults;
    inversion Hresults as [|? r ? rs Hr Hrs]; subst; constructor.
  - by apply (Hpost r w4).
  - by apply IH.
Qed.

(** ** The tasks of [saveImages] and [clearAllImages] *)

Section ImageTaskFacts.
Context `{Platform}.
Import ImageStorage.

(** Run alone, the tasks are the functions of the same name. *)
Lemma ensureDirectoryExists_task_alone w :
  Async.run ensureDirectoryExists_task w = ensureDirectoryExists w.
Proof.
  unfold ensureDirectoryExists_task, ensureDirectoryExists.
  rewrite TaskFacts.run_try_catch, try_catch_run.
  unfold mbind, Task_bind. rewrite TaskFacts.run_bind, TaskFacts.run_await.
  rewrite bind_run.
  destruct (FileSystem.getInfoAsync IMAGE_DIRECTORY w) as [[[]|e] w1]; cbn;
    try done.
  by destruct (FileSystem.makeDirectoryAsync IMAGE_DIRECTORY w1)
    as [[[]|e] w2].
Qed.

Lemma saveImage_task_alone imageUri imageName w :
  Async.run (saveImage_task imageUri imageName) w
  = saveImage imageUri imageName w.
Proof.
  unfold saveImage_task, saveImage.
  rewrite TaskFacts.run_try_catch, try_catch_run.
  unfold mbind at 1, Task_bind. rewrite TaskFacts.run_bind.
  rewrite ensureDirectoryExists_task_alone, bind_run.
  destruct (ensureDirectoryExists w) as [[[]|e] w1]; cbn; [|reflexivity].
  rewrite bind_run.
  destruct (FileSystem.copyAsync _ _ w1) as [[[]|e] w2]; reflexivity.
Qed.

Lemma deleteImage_task_alone imageUri w :
  Async.run (deleteImage_task imageUri) w = deleteImage imageUri w.
Proof.
  unfold deleteImage_task, deleteImage.
  rewrite TaskFacts.run_try_catch, try_catch_run.
  unfold mbind, Task_bind. rewrite TaskFacts.run_bind, TaskFacts.run_await.
  rewrite bind_run.
  destruct (FileSystem.getInfoAsync imageUri w) as [[[]|e] w1]; cbn;
    try done.
  by destruct (FileSystem.deleteAsync imageUri w1) as [[[]|e] w2].
Qed.

End ImageTaskFacts.

#[local] Instance files_added_preorder : PreOrder files_added.
Proof.
  split.
  - by intros w.
  - intros w1 w2 w3 [Hitems Hfiles] [Hitems' Hfiles']. split; [congruence|].
    intros path Hpath. by apply Hfiles', Hfiles.
Qed.

#[local] Instance files_removed_preorder uris : PreOrder (files_removed uris).
Proof.
  split.
  - intros w. split; [done|]. split; [by right|]. done.
  - intros w1 w2 w3 (Hitems & Hshrink & Hother & Hquiet)
      (Hitems' & Hshrink' & Hother' & Hquiet').
    split; [congruence|]. split; [|split].
    + intros path. destruct (Hshrink' path) as [? | ->]; [by left|].
      apply Hshrink.
    + intros path Hpath. by rewrite Hother', Hother.
    + auto.
Qed.

Section ImageSaveAllFacts.
Context `{Platform}.
Import ImageStorage.

(** The task suspended at its copy settles as the copy is answered. *)
Lemma saveImages_copying_resume image w :
  (Async.resume (saveImages_copying image) w).1
  = match (FileSystem.copyAsync (uri image) (IMAGE_DIRECTORY +:+ name image)
             w).1 with
    | Ok _ => Return (saved image)
    | Err e => Throw e
    end.
Proof.
  unfold saveImages_copying. cbn.
  by destruct (FileSystem.copyAsync _ _ w) as [[[]|e] w'].
Qed.

(** The task reaches its copy, whatever the device answers before: after
    the first answer it is suspended at the copy, or at the making of the
    directory and then, after the second answer, at the copy. *)
Lemma saveImages_task_reaches_copy image w :
  let first := (Async.resume (saveImages_task image) w).1 in
  first = saveImages_copying image
  ∨ ∀ w', (Async.resume first w').1 = saveImages_copying image.
Proof.
  unfold saveImages_task, saveImage_task, ensureDirectoryExists_task,
    saveImages_copying. cbn.
  destruct (FileSystem.getInfoAsync IMAGE_DIRECTORY w) as [[[]|e] w1]; cbn.
  - by left.
  - right. intros w'.
    by destruct (FileSystem.makeDirectoryAsync IMAGE_DIRECTORY w')
      as [[[]|e] w2].
  - by left.
Qed.

Lemma saveImages_copying_safe image w :
  safe files_added
    (fun r w' =>
       (r = Ok (saved image)
        ∧ is_Some (files w' !! (IMAGE_DIRECTORY +:+ name image)))
       ∨ ∃ e, r = Err e)
    (saveImages_copying image) w.
Proof.
  unfold saveImages_copying. cbn. intros w1 _.
  destruct (copyAsync_frame (uri image) (IMAGE_DIRECTORY +:+ name image) w1)
    as (r & w2 & -> & Hitems & _ & _ & Hfails & Hcopied).
  cbn [fst snd]. destruct r as [[]|e]; cbn.
  - destruct (Hcopied eq_refl) as (content & _ & Hfiles & _).
    split; [split; [done|]|].
    + intros path Hpath. rewrite Hfiles.
      destruct (decide (IMAGE_DIRECTORY +:+ name image = path)) as [<-|Hne].
      * rewrite lookup_insert_eq. by eexists.
      * by rewrite lookup_insert_ne.
    + left. split; [done|]. rewrite Hfiles, lookup_insert_eq. by eexists.
  - destruct (Hfails e eq_refl) as [_ Hfiles].
    split; [split; [done | by rewrite Hfiles]|].
    intros w3 _. split; [by split|]. right. by exists e.
Qed.

Lemma saveImages_task_safe image w :
  safe files_added
    (fun r w' =>
       (r = Ok (saved image)
        ∧ is_Some (files w' !! (IMAGE_DIRECTORY +:+ name image)))
       ∨ ∃ e, r = Err e)
    (saveImages_task image) w.
Proof.
  unfold saveImages_task, saveImage_task, ensureDirectoryExists_task.
  cbn. intros w1 _. rewrite getInfoAsync_run.
  case_bool_decide; cbn.
  { split; [by split|]. intros w2 _. split; [by split|].
    apply saveImages_copying_safe. }
  split; [by split|].
  destruct (_ || _); cbn; [apply saveImages_copying_safe|].
  intros w2 _. rewrite makeDirectoryAsync_run.
  case_bool_decide; cbn.
  - split; [by split|]. intros w3 _. split; [by split|].
    apply saveImages_copying_safe.
  - split; [by split|]. apply saveImages_copying_safe.
Qed.

Lemma saveImages_resumed_run (v : Result (list CapturedImage)) w :
  saveImages_resumed (lift v) w =
    match v with
    | Ok savedImages => (Ok savedImages, w)
    | Err e =>
        (Err e,
         set_console (fun c => c ++ [LogError "Error saving images:" e]) w)
    end.
Proof. by destruct v. Qed.

(** How the tasks of [saveImages] settle and what they leave, on every
    schedule. *)
Lemma saveImages_settled schedule images w :
  let results :=
    task_results schedule (saveImages_task <$> images) saveImages_resumed w in
  let w' := after (saveImages schedule images) w in
  files_added w w'
  ∧ Forall2
      (fun image r =>
         (r = Ok (saved image)
          ∧ is_Some (files w' !! (IMAGE_DIRECTORY +:+ name image)))
         ∨ ∃ e, r = Err e)
      images results.
Proof.
  intros results w'. subst results w'.
  unfold after, saveImages, Promise_all, task_results.
  destruct (all_settled_safe files_added
              ((fun image r w' =>
                  (r = Ok (saved image)
                   ∧ is_Some (files w' !! (IMAGE_DIRECTORY +:+ name image)))
                  ∨ ∃ e, r = Err e) <$> images)
              schedule (saveImages_task <$> images) saveImages_resumed w)
    as [Hadded Hresults].
  - intros v w0. rewrite saveImages_resumed_run. by destruct v.
  - apply Forall_fmap, Forall_forall. intros image _ r w1 w2 Hpost [_ Hfiles].
    destruct Hpost as [[-> Hfile]|[e ->]]; [left | right; by exists e].
    split; [done | by apply Hfiles].
  - apply Forall2_fmap, Forall2_same_length_lookup_2; [done|].
    intros i image image' Hi Hi'. rewrite Hi in Hi'. injection Hi' as <-.
    apply saveImages_task_safe.
  - split; [done|]. by apply Forall2_fmap_l in Hresults.
Qed.

(** C9.  [saveImages] is all or nothing, in whatever order the device
    answers the calls of the tasks.  When the task of some image rejects
    the caller gets an error; when the caller gets a list, every task was
    fulfilled and the list is the full one: one record per image, in
    order, each with its permanent path.  A task rejects exactly when its
    copy is rejected: every task reaches its copy, after one or two
    answers, and settles as the copy is answered; run alone, it fails
    exactly when the copy fails on the device that
    [ensureDirectoryExists] leaves.  The stored items are as before,
    whether the caller gets a list or an error. *)
Theorem saveImages_all_or_nothing (schedule : list nat)
    (images : list CapturedImage) (w : World) :
  let results :=
    task_results schedule (saveImages_task <$> images) saveImages_resumed w in
  (∀ i e, results !! i = Some (Err e) →
     is_err (outcome (saveImages schedule images) w) = true)
  ∧ (∀ result, outcome (saveImages schedule images) w = Ok result →
       result = saved <$> images ∧ results = Ok <$> result)
  ∧ (∀ image w0,
       (Async.resume (saveImages_copying image) w0).1
       = match outcome (FileSystem.copyAsync (uri image)
                          (IMAGE_DIRECTORY +:+ name image)) w0 with
         | Ok _ => Return (saved image)
         | Err e => Throw e
         end)
  ∧ (∀ image w0,
       let first := (Async.resume (saveImages_task image) w0).1 in
       first = saveImages_copying image
       ∨ ∀ w1, (Async.resume first w1).1 = saveImages_copying image)
  ∧ (∀ image w0,
       is_err (outcome (Async.run (saveImages_task image)) w0)
       = is_err (outcome (FileSystem.copyAsync (uri image)
                            (IMAGE_DIRECTORY +:+ name image))
                   (after ensureDirectoryExists w0)))
  ∧ items (after (saveImages schedule images) w) = items w.
Proof.
  intros results. subst results.
  assert (∀ results b,
            (results, b)
            = ((all_settled schedule (saveImages_task <$> images)
                  saveImages_resumed w).1,
               (all_settled schedule (saveImages_task <$> images)
                  saveImages_resumed w).2.1) →
            (∀ i e, results !! i = Some (Err e) → is_err b = true)
            ∧ (∀ result, b = Ok result →
                 result = saved <$> images ∧ results = Ok <$> result))
    as Hbatch.
  { intros results b [= -> ->].
    pose proof (all_settled_answer schedule (saveImages_task <$> images)
                  saveImages_resumed w) as Hanswer.
    pose proof (saveImages_settled schedule images w) as [_ Hresults].
    unfold saveImages, Promise_all, task_results, after in Hresults.
    cbn [fst snd] in *.
    destruct (all_settled schedule (saveImages_task <$> images)
                saveImages_resumed w) as [results [b w']].
    cbn [fst snd] in *. split.
    - intros i e Hi. destruct Hanswer as [(e' & w0 & ->)|(l & w0 & -> & _)].
      + by rewrite saveImages_resumed_run.
      + rewrite list_lookup_fmap in Hi. by destruct (l !! i).
    - intros result ->.
      destruct Hanswer as [(e' & w0 & Hb)|(l & w0 & -> & Hb)];
        rewrite saveImages_resumed_run in Hb; [done|].
      injection Hb as ->. split; [|done].
      clear -Hresults. revert l Hresults.
      induction images as [|image rest IH]; intros l Hl;
        inversion Hl as [|? r ? rs Hr Hrest Himages Heq]; subst.
      + by destruct l.
      + destruct l as [|x l]; [done|]. cbn in Heq.
        injection Heq as -> ->. cbn.
        destruct Hr as [[[= ->] _]|[e [=]]]. f_equal. by apply IH. }
  destruct (Hbatch _ _ eq_refl) as [Hrejects Hfull].
  split; [exact Hrejects|]. split; [exact Hfull|].
  split; [|split; [|split]]; [| | |apply saveImages_settled].
  - intros image w0. apply saveImages_copying_resume.
  - intros image w0. apply saveImages_task_reaches_copy.
  - intros image w0. unfold outcome, after, saveImages_task.
    unfold mbind, Task_bind. rewrite TaskFacts.run_bind.
    rewrite saveImage_task_alone.
    destruct (saveImage_run (uri image) (name image) w0) as (w1 & -> & ->).
    cbn [snd].
    by destruct (FileSystem.copyAsync _ _ w1) as [[[]|e] w2].
Qed.

(** X26.  [saveImages] does not undo the copies that succeeded, in
    whatever order the device answers the calls of the tasks.  Every image
    whose own task was fulfilled has its file in the image directory
    afterwards, also when another image failed and the caller got an
    error; no file that was there before is removed, and the stored items
    are as before. *)
Theorem saveImages_keeps_copies (schedule : list nat)
    (images : list CapturedImage) (w : World) :
  let results :=
    task_results schedule (saveImages_task <$> images) saveImages_resumed w in
  let w' := after (saveImages schedule images) w in
  (∀ i image x, images !! i = Some image → results !! i = Some (Ok x) →
     is_Some (files w' !! (IMAGE_DIRECTORY +:+ name image)))
  ∧ (∀ path, is_Some (files w !! path) → is_Some (files w' !! path))
  ∧ items w' = items w.
Proof.
  intros results w'. subst results w'.
  destruct (saveImages_settled schedule images w) as [[Hitems Hfiles] Hresults].
  split; [|done].
  intros i image x Hi Hr.
  destruct (Forall2_lookup_lr _ _ _ _ _ _ Hresults Hi Hr) as [[_ ?]|[e [=]]].
  done.
Qed.

End ImageSaveAllFacts.

Section ImageClearFacts.
Context `{Platform}.
Import ImageStorage.

Lemma files_removed_advance uris w : files_removed uris w (advance w).
Proof.
  split; [done|]. split; [by right|]. split; [done|].
  apply faults_advance.
Qed.

Lemma files_removed_console uris f w :
  files_removed uris w (set_console f w).
Proof. split; [done|]. split; [by right|]. done. Qed.

Lemma files_removed_delete uris imageUri w :
  imageUri ∈ uris →
  files_removed uris w (set_files (delete imageUri) (advance w)).
Proof.
  intros Hlisted. split; [done|]. split; [|split].
  - intros path. cbn [files set_files advance set_faults].
    destruct (decide (imageUri = path)) as [<-|Hne].
    + left. apply lookup_delete_eq.
    + right. by rewrite lookup_delete_ne.
  - intros path Hpath. cbn [files set_files advance set_faults].
    rewrite lookup_delete_ne; [done|]. by intros <-.
  - apply faults_advance.
Qed.

Ltac task_cbn :=
  cbn [safe Async.bind Async.try_catch Async.settled Async.await Async.sync
       fst snd negb orb andb mbind mret mthrow Task_bind Task_ret Task_throw].

Lemma deleteImage_task_safe (uris : list string) (quiet : Prop) imageUri w :
  imageUri ∈ uris →
  (quiet → faults w = []) →
  safe (files_removed uris)
    (fun r w' => r = Ok () ∧ (quiet → files w' !! imageUri = None))
    (deleteImage_task imageUri) w.
Proof.
  intros Hlisted Hquiet. unfold deleteImage_task. task_cbn.
  intros w1 (_ & _ & _ & Hplan1).
  assert (quiet → faults w1 = []) as Hquiet1 by auto.
  rewrite getInfoAsync_run. case_bool_decide as Hfirst; task_cbn.
  { split; [apply files_removed_advance|].
    intros w2 _. unfold console_error, modify. task_cbn.
    split; [apply files_removed_console|].
    split; [done|]. intros Hq. unfold rejected in Hfirst.
    by rewrite (Hquiet1 Hq) in Hfirst. }
  split; [apply files_removed_advance|].
  destruct (_ || _) eqn:Hexists; task_cbn.
  2:{ split; [done|]. intros _.
      apply orb_false_iff in Hexists as [_ Hfile%bool_decide_eq_false].
      cbn [files advance set_faults].
      destruct (files w1 !! imageUri); [|done]. destruct Hfile. by eexists. }
  clear Hexists. intros w2 (_ & _ & _ & Hplan2).
  assert (quiet → faults w2 = []) as Hquiet2.
  { intros Hq. apply Hplan2, faults_advance. auto. }
  rewrite deleteAsync_run. case_bool_decide as Hsecond; task_cbn.
  { split; [apply files_removed_advance|].
    intros w3 _. unfold console_error, modify. task_cbn.
    split; [apply files_removed_console|].
    split; [done|]. intros Hq. unfold rejected in Hsecond.
    by rewrite (Hquiet2 Hq) in Hsecond. }
  destruct (files w2 !! imageUri) as [content|] eqn:Hfile; task_cbn.
  - split; [by apply files_removed_delete|].
    split; [done|]. intros _. cbn [files set_files]. apply lookup_delete_eq.
  - split; [apply files_removed_advance|].
    intros w3 (_ & Hshrink & _). unfold console_error, modify. task_cbn.
    split; [apply files_removed_console|].
    split; [done|]. intros _. cbn [files set_console].
    destruct (Hshrink imageUri) as [? | Heq]; [done|]. by rewrite Heq.
Qed.
(** X29.  [clearAllImages] never throws, in whatever order the device
    answers the calls of its tasks.  It leaves the stored items alone and
    touches no file whose path does not start with the image directory; a
    file it leaves has the content it had.  On a device that rejects no
    call, with no file at the directory's own path, no file is left
    directly in the directory. *)
Theorem clearAllImages_contract (schedule : list nat) (w : World) :
  let w' := after (clearAllImages schedule) w in
  outcome (clearAllImages schedule) w = Ok ()
  ∧ items w' = items w
  ∧ (∀ path, (∀ rest, path ≠ IMAGE_DIRECTORY +:+ rest) →
       files w' !! path = files w !! path)
  ∧ (∀ path, files w' !! path = None ∨ files w' !! path = files w !! path)
  ∧ (faults w = [] → files w !! IMAGE_DIRECTORY = None →
       ∀ file, file ≠ "" →
         JsString.every (fun c => negb (Ascii.eqb c "/")) file = true →
         files w' !! (IMAGE_DIRECTORY +:+ file) = None).
Proof.
  intros w'. subst w'. unfold outcome, after, clearAllImages.
  rewrite try_catch_run, bind_run.
  destruct (getAllSavedImages_summary w)
    as (l & w1 & -> & Hfiles & Hitems & Hlisted & _ & Hall).
  cbv beta iota. unfold Promise_all.
  set (reaction := fun awaited : M (list ()) =>
         try_catch (awaited ;; mret ())
           (fun error => console_error "Error clearing all images:" error)).
  assert (∀ v w0, ∃ w0', reaction (lift v) w0 = (Ok (), w0')
                         ∧ items w0' = items w0 ∧ files w0' = files w0
                         ∧ faults w0' = faults w0) as Hreaction.
  { intros [x|e] w0; eexists; (split; [reflexivity|]); done. }
  pose proof (all_settled_answer schedule (deleteImage_task <$> l) reaction w1)
    as Hanswer.
  destruct (all_settled_safe (files_removed l)
              ((fun imageUri r w' =>
                  r = Ok () ∧ (faults w1 = [] → files w' !! imageUri = None))
                 <$> l)
              schedule (deleteImage_task <$> l) reaction w1)
    as [(Hitems' & Hshrink & Hother & _) Hresults].
  { intros v w0. destruct (Hreaction v w0) as (w0' & -> & ? & Hsame & Hplan).
    cbn. split; [done|]. split; [intros path; right; by rewrite Hsame|].
    split; [intros path _; by rewrite Hsame|]. by rewrite Hplan. }
  { apply Forall_fmap, Forall_forall.
    intros imageUri _ r w2 w3 [-> Hgone] (_ & Hshrink & _).
    split; [done|]. intros Hq.
    destruct (Hshrink imageUri) as [? | Heq]; [done|]. rewrite Heq. auto. }
  { apply Forall2_fmap, Forall2_same_length_lookup_2; [done|].
    intros i uri uri' Hi Hi'. rewrite Hi in Hi'. injection Hi' as <-.
    apply deleteImage_task_safe; [|done]. by eapply list_elem_of_lookup_2. }
  apply Forall2_fmap_l in Hresults.
  destruct (all_settled schedule (deleteImage_task <$> l) reaction w1)
    as [results [b w2]].
  cbn [fst snd] in *.
  assert (b = Ok ()) as ->.
  { destruct Hanswer as [(e & w0 & ->)|(l' & w0 & _ & ->)];
      [destruct (Hreaction (Err e) w0) as (? & -> & _)
      |destruct (Hreaction (Ok l') w0) as (? & -> & _)]; done. }
  rewrite Hfiles in Hshrink, Hother. cbn [fst snd].
  split; [done|]. split; [congruence|]. split; [|split; [done|]].
  - intros path Houtside. apply Hother. intros [_ [file Hfile]]%Hlisted.
    apply PathFacts.entry_name_inv in Hfile as [Hpath _].
    by destruct (Houtside file).
  - intros Hnil Hnone file Hname Hplain.
    destruct (Hall Hnil Hnone) as [Hquiet Hin].
    destruct (files w !! (IMAGE_DIRECTORY +:+ file)) as [content|] eqn:Hfile.
    + assert (IMAGE_DIRECTORY +:+ file ∈ l) as Helem.
      { apply Hin; [by eexists|].
        rewrite PathFacts.entry_name_app by done. by eexists. }
      apply list_elem_of_lookup in Helem as [i Hi].
      destruct (Forall2_lookup_l _ _ _ _ _ Hresults Hi) as (r & _ & _ & Hgone).
      by apply Hgone.
    + destruct (Hshrink (IMAGE_DIRECTORY +:+ file)) as [? | Hsame]; [done|].
      by rewrite Hsame.
Qed.

End ImageClearFacts.

(** The calls answered in the order in which they were made, for two
    photos on disk.  When the third call, the first making of the
    directory, is rejected, that task logs the error and goes on: both
    copies are made and the caller gets both records.  When the second
    photo is missing, the caller gets an error and the first copy stays. *)
Lemma saveImages_in_turn_examples :
  let saveImages := ImageStorage.saveImages (H := RefPlatform.platform) in
  let images := [Examples.photo1; Examples.photo2] in
  let third_rejected :=
    set_faults (fun _ => [false; false; true]) Examples.two_photos_on_disk in
  saveImages (in_turn 2 3) images third_rejected
  = (Ok (ImageStorage.saved (H := RefPlatform.platform) <$> images),
     set_console
       (fun _ => [LogError "Error creating image directory:" NativeError])
       (after (saveImages (in_turn 2 3) images) Examples.two_photos_on_disk))
  ∧ outcome (saveImages (in_turn 2 3) images) Examples.one_photo_on_disk
    = Err NativeError
  ∧ console (after (saveImages (in_turn 2 3) images) Examples.one_photo_on_disk)
    = [LogError "Error saving image:" NativeError;
       LogError "Error saving images:" NativeError].
Proof. repeat split; vm_compute; reflexivity. Qed.

Lemma saveImages_all_or_nothing_witness :
  let saveImages := ImageStorage.saveImages (H := RefPlatform.platform) in
  let images := [Examples.photo1; Examples.photo2] in
  is_err (outcome (saveImages (in_turn 2 3) images) Examples.one_photo_on_disk)
  = true
  ∧ task_results (in_turn 2 3)
      (ImageStorage.saveImages_task (H := RefPlatform.platform) <$> images)
      ImageStorage.saveImages_resumed Examples.two_photos_on_disk
    = Ok <$> (ImageStorage.saved (H := RefPlatform.platform) <$> images).
Proof.
  intros saveImages images.
  destruct (saveImages_all_or_nothing (H := RefPlatform.platform)
              (in_turn 2 3) images Examples.one_photo_on_disk)
    as (Hrejects & _).
  destruct (saveImages_all_or_nothing (H := RefPlatform.platform)
              (in_turn 2 3) images Examples.two_photos_on_disk)
    as (_ & Hfull & _).
  split.
  - apply (Hrejects 1%nat NativeError). reflexivity.
  - destruct (Hfull (ImageStorage.saved (H := RefPlatform.platform) <$> images))
      as [_ Hall]; [reflexivity | exact Hall].
Defined.

Lemma saveImages_keeps_copies_witness :
  let saveImages := ImageStorage.saveImages (H := RefPlatform.platform) in
  let images := [Examples.photo1; Examples.photo2] in
  let w := Examples.one_photo_on_disk in
  let w' := after (saveImages (in_turn 2 3) images) w in
  is_err (outcome (saveImages (in_turn 2 3) images) w) = true
  ∧ is_Some (files w'
               !! "file:///data/user/0/app/files/captured_images/photo_1.jpg")
  ∧ is_Some (files w' !! "file:///cache/photo_1.jpg").
Proof.
  intros saveImages images w w'.
  destruct (saveImages_keeps_copies (H := RefPlatform.platform)
              (in_turn 2 3) images w) as (Hcopied & Hkept & _).
  split; [reflexivity|]. split.
  - apply (Hcopied 0%nat Examples.photo1
             (ImageStorage.saved (H := RefPlatform.platform) Examples.photo1));
      reflexivity.
  - apply Hkept. eexists. reflexivity.
Defined.

(** Two saved photos, the calls answered in the order in which they were
    made, and the fourth call rejected: that is the question whether the
    second photo exists, so the second photo stays and the first one is
    deleted. *)
Lemma clearAllImages_in_turn_example :
  let saved :=
    after (ImageStorage.saveImage (H := RefPlatform.platform)
             "file:///cache/photo_2.jpg" "photo_2.jpg")
      (after (ImageStorage.saveImage (H := RefPlatform.platform)
                "file:///cache/photo_1.jpg" "photo_1.jpg")
         Examples.two_photos_on_disk) in
  let w' :=
    after (ImageStorage.clearAllImages (H := RefPlatform.platform) (in_turn 2 2))
      (set_faults (fun _ => [false; false; false; true]) saved) in
  files w' !! "file:///data/user/0/app/files/captured_images/photo_1.jpg" = None
  ∧ files w' !! "file:///data/user/0/app/files/captured_images/photo_2.jpg"
    = Some "JFIF-2"
  ∧ console w' = [LogError "Error deleting image:" NativeError].
Proof. repeat split; vm_compute; reflexivity. Qed.

Lemma clearAllImages_contract_witness :
  let saved :=
    after (ImageStorage.saveImage (H := RefPlatform.platform)
             "file:///cache/photo_2.jpg" "photo_2.jpg")
      (after (ImageStorage.saveImage (H := RefPlatform.platform)
                "file:///cache/photo_1.jpg" "photo_1.jpg")
         Examples.two_photos_on_disk) in
  let w' :=
    after (ImageStorage.clearAllImages (H := RefPlatform.platform) (in_turn 2 2))
      saved in
  files w' !! "file:///data/user/0/app/files/captured_images/photo_1.jpg" = None
  ∧ files w' !! "file:///data/user/0/app/files/captured_images/photo_2.jpg" = None
  ∧ files w' !! "file:///cache/photo_1.jpg" = Some "JFIF-1".
Proof.
  intros saved w'.
  destruct (clearAllImages_contract (H := RefPlatform.platform) (in_turn 2 2)
              saved) as (_ & _ & Houtside & _ & Hcleared).
  split; [|split].
  - apply (Hcleared eq_refl eq_refl "photo_1.jpg"); [discriminate | reflexivity].
  - apply (Hcleared eq_refl eq_refl "photo_2.jpg"); [discriminate | reflexivity].
  - subst w'. rewrite (Houtside "file:///cache/photo_1.jpg"); [reflexivity|].
    intros rest Hpath. vm_compute in Hpath. discriminate Hpath.
Defined.
